(** * split_csv: a quote-aware CSV splitter

    A shallow embedding of [split_csv.py] and the properties of its
    record-boundary scanner, split writer, index writer and output path
    allocator.

    Python integers are [Z], byte strings are [list byte], text strings
    are [string].  The file system is a finite map from paths to file
    contents; the function frame of [run_as_script] and the file system
    travel together in one record, so that the [finally] block sees the
    variables as they were when an exception was raised. *)

From Stdlib Require Import ZArith.
From Stdlib.Strings Require Import Byte Ascii.
From stdpp Require Import gmap strings pretty list.

Local Open Scope Z_scope.

(** ** The scanner's state stack *)

(** The four strings the program pushes on [state]. *)
Inductive st := start | inquote | endquote | literal_quote.

#[global] Instance st_eq_dec : EqDecision st.
Proof. solve_decision. Defined.

(** The two bytes the scanner looks at: the double quote (34) and the
    line feed (10). *)
Definition QUOTE : byte := x22.
Definition LF : byte := x0a.

Module Stack.

(** [state[-1]]: the last element; [IndexError] (here [None]) on an
    empty list. *)
Definition top (state : list st) : option st := last state.

(** [state.pop()]: drops the last element; [IndexError] on an empty
    list. *)
Definition pop (state : list st) : option (list st) :=
  match state with
  | [] => None
  | _ => Some (removelast state)
  end.

(** [state.append(x)]. *)
Definition append (x : st) (state : list st) : list st := state ++ [x].

End Stack.

(** Lines 104-113: the first [if]/[elif], which settles a pending
    ["endquote"] against the byte just read. *)
Definition resolve (state : list st) (char : byte) : option (list st) :=
  t ← Stack.top state;
  if bool_decide (t = endquote) && Byte.eqb char QUOTE then
    s ← Stack.pop state;
    Some (Stack.append literal_quote s)
  else if bool_decide (t = endquote) then
    s ← Stack.pop state;
    Stack.pop s
  else Some state.

(** Lines 114-125: the second chain.  The boolean tells whether the
    last branch, [elif char==10], was taken. *)
Definition classify (state : list st) (char : byte) : option (list st * bool) :=
  t ← Stack.top state;
  if bool_decide (t = literal_quote) then
    s ← Stack.pop state;
    Some (s, false)
  else if bool_decide (t = inquote) && Byte.eqb char QUOTE then
    Some (Stack.append endquote state, false)
  else if bool_decide (t = inquote) then
    Some (state, false)
  else if Byte.eqb char QUOTE then
    Some (Stack.append inquote state, false)
  else if Byte.eqb char LF then
    Some (state, true)
  else Some (state, false).

(** One byte through the state machine. *)
Definition scan (state : list st) (char : byte) : option (list st * bool) :=
  s ← resolve state char;
  classify s char.

(** The state machine run over a byte string, counting the record ends;
    [None] as soon as a read of the top or a pop is undefined. *)
Fixpoint scan_bytes (state : list st) (l : list byte) : option (list st * Z) :=
  match l with
  | [] => Some (state, 0)
  | char :: l' =>
      match scan state char with
      | Some (s, e) =>
          match scan_bytes s l' with
          | Some (s', k) => Some (s', (if e then 1 else 0) + k)
          | None => None
          end
      | None => None
      end
  end.

(** ** Quote parity: what the stack encodes *)

(** Whether a byte string leaves a quoted field open, starting from
    [q]: every double-quote byte flips it. *)
Fixpoint quoted (q : bool) (l : list byte) : bool :=
  match l with
  | [] => q
  | c :: l' => quoted (xorb q (Byte.eqb c QUOTE)) l'
  end.

(** The line feeds outside quotes. *)
Fixpoint terminators (q : bool) (l : list byte) : Z :=
  match l with
  | [] => 0
  | c :: l' =>
      (if negb q && Byte.eqb c LF then 1 else 0)
      + terminators (xorb q (Byte.eqb c QUOTE)) l'
  end.

(** The stacks the scanner can be in between two bytes. *)
Inductive settled : list st -> Prop :=
  | settled_start : settled [start]
  | settled_inquote : settled [start; inquote]
  | settled_endquote : settled [start; inquote; endquote].

(** The stacks it can be in after [resolve], in the middle of a byte. *)
Inductive resolved : list st -> Prop :=
  | resolved_start : resolved [start]
  | resolved_inquote : resolved [start; inquote]
  | resolved_literal : resolved [start; inquote; literal_quote].

(** The parity a settled stack stands for. *)
Definition open_quote (state : list st) : bool :=
  bool_decide (state = [start; inquote]).

(** ["endquote"] only directly above ["inquote"]: wherever [b] lies on
    [a] in the stack and [b] is ["endquote"], [a] is ["inquote"]. *)
Fixpoint endquote_above_inquote (state : list st) : Prop :=
  match state with
  | a :: ((b :: _) as tl) =>
      (b = endquote -> a = inquote) /\ endquote_above_inquote tl
  | _ => True
  end.

(** ** Paths and formatting *)

(** The three functions of [os.path] the program calls.  Which module
    stands behind [os.path] depends on the platform, so the program is
    modelled over any implementation of them. *)
Class OsPath := {
  path_split : string -> string * string;
  path_splitext : string -> string * string;
  path_join : string -> string -> string
}.

(** The POSIX flavour of these functions, after [posixpath.py] and
    [genericpath._splitext], used to run the model on examples. *)
Module Posix.

Definition is_sep (c : ascii) : bool := bool_decide (c = "/"%char).
Definition is_dot (c : ascii) : bool := bool_decide (c = "."%char).

Fixpoint take_while (f : ascii -> bool) (l : list ascii) : list ascii :=
  match l with
  | c :: l' => if f c then c :: take_while f l' else []
  | [] => []
  end.

Fixpoint drop_while (f : ascii -> bool) (l : list ascii) : list ascii :=
  match l with
  | c :: l' => if f c then drop_while f l' else l
  | [] => []
  end.

(** [split]: cut after the last slash; the head loses its trailing
    slashes unless it consists of slashes only. *)
Definition split (p : string) : string * string :=
  let r := reverse (String.list_ascii_of_string p) in
  let tail := reverse (take_while (fun c => negb (is_sep c)) r) in
  let head_r := drop_while (fun c => negb (is_sep c)) r in
  let head_r' :=
    match drop_while is_sep head_r with
    | [] => head_r
    | h => h
    end in
  (String.string_of_list_ascii (reverse head_r'),
   String.string_of_list_ascii tail).

(** [splitext]: cut at the last dot of the last component, unless
    only dots precede it there. *)
Definition splitext (p : string) : string * string :=
  let r := reverse (String.list_ascii_of_string p) in
  let ext_r := take_while (fun c => negb (is_dot c)) r in
  match drop_while (fun c => negb (is_dot c)) r with
  | [] => (p, "")
  | dot :: root_r =>
      if existsb is_sep ext_r then (p, "")
      else if existsb (fun c => negb (is_dot c))
                (take_while (fun c => negb (is_sep c)) root_r)
      then (String.string_of_list_ascii (reverse root_r),
            String.string_of_list_ascii (reverse (ext_r ++ [dot])))
      else (p, "")
  end.

(** [join] of two components: [b] alone when it is absolute, else [a]
    and [b] with one slash between them unless [a] is empty or ends
    with one. *)
Definition join (a b : string) : string :=
  let starts_with_sep :=
    match String.list_ascii_of_string b with
    | c :: _ => is_sep c
    | [] => false
    end in
  let needs_no_sep :=
    match reverse (String.list_ascii_of_string a) with
    | c :: _ => is_sep c
    | [] => true
    end in
  if starts_with_sep then b
  else if needs_no_sep then a +:+ b
  else a +:+ "/" +:+ b.

End Posix.

#[global] Instance posixpath : OsPath := {
  path_split := Posix.split;
  path_splitext := Posix.splitext;
  path_join := Posix.join
}.

(** Truth value of an optional string argument: [None] and the empty
    string are false. *)
Definition given (o : option string) : bool :=
  match o with
  | Some s => bool_decide (s <> "")
  | None => false
  end.

(** ["{:0{}}".format(counter, width)]: decimal digits, padded with
    zeros after the sign to at least [width] characters. *)
Definition zero_padded (counter : Z) (width : nat) : string :=
  let digits := pretty (Z.abs counter) in
  let sign := if counter <? 0 then "-" else "" in
  sign
  +:+ String.concat ""
        (replicate (width - String.length sign - String.length digits)%nat "0")
  +:+ digits.

(** ["{}_{:0{}}{}".format(base, counter, width, ext)]. *)
Definition numbered (base : string) (counter : Z) (width : nat) (ext : string)
  : string :=
  base +:+ "_" +:+ zero_padded counter width +:+ ext.

(** ["{}_{}{}".format(output_base, retry_count, output_ext)]. *)
Definition disambiguated (output_base : string) (retry_count : Z)
    (output_ext : string) : string :=
  output_base +:+ "_" +:+ pretty retry_count +:+ output_ext.

(** Lines 49-58 of [next_outfile]. *)
Definition initial_output_path `{OsPath} (input_path : string)
    (output_dir : option string) (counter : Z) (width : nat) : string :=
  let beside_input :=
    let '(input_pathbase, input_ext) := path_splitext input_path in
    numbered input_pathbase counter width input_ext in
  match output_dir with
  | Some dir =>
      if given output_dir then
        let '(input_dir, input_filename) := path_split input_path in
        let '(input_fnbase, input_fnext) := path_splitext input_filename in
        path_join dir (numbered input_fnbase counter width input_fnext)
      else beside_input
  | None => beside_input
  end.

(** The name tried after [retry_count] collisions. *)
Definition candidate `{OsPath} (initial_output_path : string) (retry_count : Z)
  : string :=
  if retry_count =? 0 then initial_output_path
  else
    let '(output_base, output_ext) := path_splitext initial_output_path in
    disambiguated output_base retry_count output_ext.

(** ** The file system *)

(** [open(path, 'xb')]: creates an empty file, or [None] for
    [FileExistsError] when the path is taken.  Directories and
    permissions are not modelled. *)
Definition open_x (path : string) (fs : gmap string (list byte))
  : option (gmap string (list byte)) :=
  match fs !! path with
  | Some _ => None
  | None => Some (<[path := []]> fs)
  end.

(** Lines 59-71: the retry loop of [next_outfile].  [fuel] bounds the
    number of attempts; [None] only when it runs out. *)
Fixpoint next_outfile_loop `{OsPath} (fuel : nat) (initial_output_path : string)
    (output_path : string) (retry_count : Z) (fs : gmap string (list byte))
  : option (string * gmap string (list byte)) :=
  match fuel with
  | O => None
  | S fuel' =>
      match open_x output_path fs with
      | Some fs' => Some (output_path, fs')
      | None =>
          let '(output_base, output_ext) := path_splitext initial_output_path in
          let retry_count := retry_count + 1 in
          let output_path := disambiguated output_base retry_count output_ext in
          next_outfile_loop fuel' initial_output_path output_path retry_count fs
      end
  end.

(** [next_outfile(input_path, output_dir, counter, width)]: the handle
    (the path it was created under) and the file system with the new
    file.  A file system of [n] files cannot hold all of the first
    [n + 1] disambiguated names, so [n + 2] attempts are enough
    ([next_outfile_creates]). *)
Definition next_outfile `{OsPath} (input_path : string)
    (output_dir : option string) (counter : Z) (width : nat)
    (fs : gmap string (list byte))
  : option (string * gmap string (list byte)) :=
  let initial := initial_output_path input_path output_dir counter width in
  next_outfile_loop (S (S (size fs))) initial initial 0 fs.

Arguments next_outfile : simpl never.

(** ** The program state *)

(** The command line of [process_args]. *)
Record args := Args {
  input_csv : string;
  num_per_split : Z;
  output_dir : option string;
  generate_index : option string
}.

(** The exceptions the model can raise.  [FuelExhausted] is not a
    Python exception: it marks a loop of the model that ran out of
    fuel, which [run_completes] shows never happens. *)
Inductive exn :=
  | FileNotFoundError
  | FileExistsError
  | ZeroDivisionError
  | IndexError
  | AttributeError
  | ValueError
  | FuelExhausted.

(** The variables of [run_as_script] and the world around it.  A file
    handle open for writing is the path it was created under: it was
    created exclusively, so no other handle writes there.  Writes go
    straight to [files]; the buffering of the Python file objects is
    not modelled.  [infh] is the unread rest of the input and the
    offset [infh.tell()] reports.  [closed] holds the handles that
    have been closed, [stdout] what has been printed.  [outputs]
    records, oldest first, the handles [next_outfile] returned; the
    program keeps no such list, it is there to state what the run
    produced. *)
Record machine := Machine {
  record_num : Z;
  output_filenum : Z;
  outfh : option string;
  indexfh : option string;
  inbuf : list byte;
  outbuf : list byte;
  state : list st;
  infh_rest : list byte;
  infh_tell : Z;
  files : gmap string (list byte);
  closed : gset string;
  outputs : list string;
  stdout : string
}.

Definition set_record_num (x : Z) (m : machine) : machine :=
  let 'Machine rn ofn ofh ifh ib ob stk rest tell fl cl outs so := m in
  Machine x ofn ofh ifh ib ob stk rest tell fl cl outs so.
Definition set_output_filenum (x : Z) (m : machine) : machine :=
  let 'Machine rn ofn ofh ifh ib ob stk rest tell fl cl outs so := m in
  Machine rn x ofh ifh ib ob stk rest tell fl cl outs so.
Definition set_outfh (x : option string) (m : machine) : machine :=
  let 'Machine rn ofn ofh ifh ib ob stk rest tell fl cl outs so := m in
  Machine rn ofn x ifh ib ob stk rest tell fl cl outs so.
Definition set_indexfh (x : option string) (m : machine) : machine :=
  let 'Machine rn ofn ofh ifh ib ob stk rest tell fl cl outs so := m in
  Machine rn ofn ofh x ib ob stk rest tell fl cl outs so.
Definition set_inbuf (x : list byte) (m : machine) : machine :=
  let 'Machine rn ofn ofh ifh ib ob stk rest tell fl cl outs so := m in
  Machine rn ofn ofh ifh x ob stk rest tell fl cl outs so.
Definition set_outbuf (x : list byte) (m : machine) : machine :=
  let 'Machine rn ofn ofh ifh ib ob stk rest tell fl cl outs so := m in
  Machine rn ofn ofh ifh ib x stk rest tell fl cl outs so.
Definition set_state (x : list st) (m : machine) : machine :=
  let 'Machine rn ofn ofh ifh ib ob stk rest tell fl cl outs so := m in
  Machine rn ofn ofh ifh ib ob x rest tell fl cl outs so.
Definition set_infh (rest' : list byte) (tell' : Z) (m : machine) : machine :=
  let 'Machine rn ofn ofh ifh ib ob stk rest tell fl cl outs so := m in
  Machine rn ofn ofh ifh ib ob stk rest' tell' fl cl outs so.
Definition set_files (x : gmap string (list byte)) (m : machine) : machine :=
  let 'Machine rn ofn ofh ifh ib ob stk rest tell fl cl outs so := m in
  Machine rn ofn ofh ifh ib ob stk rest tell x cl outs so.
Definition set_closed (x : gset string) (m : machine) : machine :=
  let 'Machine rn ofn ofh ifh ib ob stk rest tell fl cl outs so := m in
  Machine rn ofn ofh ifh ib ob stk rest tell fl x outs so.
Definition set_outputs (x : list string) (m : machine) : machine :=
  let 'Machine rn ofn ofh ifh ib ob stk rest tell fl cl outs so := m in
  Machine rn ofn ofh ifh ib ob stk rest tell fl cl x so.
Definition set_stdout (x : string) (m : machine) : machine :=
  let 'Machine rn ofn ofh ifh ib ob stk rest tell fl cl outs so := m in
  Machine rn ofn ofh ifh ib ob stk rest tell fl cl outs x.

(** How a statement ends: normally, or with an exception; either way
    with the state it left behind. *)
Inductive outcome :=
  | Ok (m : machine)
  | Raise (e : exn) (m : machine).

Definition and_then (o : outcome) (k : machine -> outcome) : outcome :=
  match o with
  | Ok m => k m
  | Raise e m => Raise e m
  end.

Notation "'do' m <- o ; k" := (and_then o (fun m => k))
  (at level 10, m name, o at level 100, k at level 200,
   format "'[v' 'do'  m  <-  o ; '/' k ']'").

(** [try: body finally: handler]: the handler runs on both ways out,
    and the exception of the body, if any, is raised again after it. *)
Definition finally (o : outcome) (handler : machine -> outcome) : outcome :=
  match o with
  | Ok m => handler m
  | Raise e m =>
      match handler m with
      | Ok m' => Raise e m'
      | Raise e' m' => Raise e' m'
      end
  end.

(** The contents of a file, empty when there is none. *)
Definition content (m : machine) (path : string) : list byte :=
  files m !!! path.

(** [fh.write(data)]. *)
Definition fh_write (fh : option string) (data : list byte) (m : machine)
  : outcome :=
  match fh with
  | None => Raise AttributeError m
  | Some path =>
      if bool_decide (path ∈ closed m) then Raise ValueError m
      else Ok (set_files (<[path := content m path ++ data]> (files m)) m)
  end.

(** [fh.flush()]: nothing to push, writes being immediate. *)
Definition fh_flush (fh : option string) (m : machine) : outcome :=
  match fh with
  | None => Raise AttributeError m
  | Some path =>
      if bool_decide (path ∈ closed m) then Raise ValueError m else Ok m
  end.

(** [fh.close()]; closing twice is allowed. *)
Definition fh_close (fh : option string) (m : machine) : outcome :=
  match fh with
  | None => Raise AttributeError m
  | Some path => Ok (set_closed ({[path]} ∪ closed m) m)
  end.

(** [print(s, end=e)], with [s] and [e] already joined. *)
Definition print (s : string) (m : machine) : machine :=
  set_stdout (stdout m +:+ s) m.

(** [infh.read(size)]: up to [size] bytes, fewer only at the end of
    the file. *)
Definition infh_read (size : Z) (m : machine) : machine :=
  let chunk := take (Z.to_nat size) (infh_rest m) in
  set_inbuf chunk
    (set_infh (drop (Z.to_nat size) (infh_rest m))
       (infh_tell m + Z.of_nat (length chunk)) m).

Definition TAB : string := String "009"%char "".
Definition NL : string := String "010"%char "".

(** The index entry written at line 128, ASCII-encoded. *)
Definition index_line (record_num byte_offset : Z) : list byte :=
  String.list_byte_of_string
    (pretty record_num +:+ TAB +:+ pretty byte_offset +:+ NL).

(** The summary printed at line 149. *)
Definition summary (record_num output_filenum : Z) : string :=
  NL +:+ "Processed " +:+ pretty record_num +:+ " records into "
  +:+ pretty output_filenum +:+ " files" +:+ NL.

(** ** The program *)

Section Program.

Context `{OsPath}.

(** The chunk size, [1024*1024] in the program ([read_size] below);
    kept variable so that the model also runs with small chunks.
    It is positive. *)
Variable chunk_size : Z.

(** [outfh = next_outfile(args.input_csv, args.output_dir,
    output_filenum)]. *)
Definition call_next_outfile (a : args) (m : machine) : outcome :=
  match next_outfile (input_csv a) (output_dir a) (output_filenum m) 6
          (files m) with
  | Some (path, fs) =>
      Ok (set_outfh (Some path)
            (set_outputs (outputs m ++ [path]) (set_files fs m)))
  | None => Raise FuelExhausted m
  end.

(** Lines 131-139: the current split file is written out and closed,
    and the next one opened. *)
Definition switch_file (a : args) (m : machine) : outcome :=
  do m <- fh_write (outfh m) (outbuf m) m;
  let m := set_outbuf [] m in
  do m <- fh_flush (outfh m) m;
  do m <- fh_close (outfh m) m;
  let m := print "." m in
  let m := set_output_filenum (output_filenum m + 1) m in
  call_next_outfile a m.

(** Lines 127-139: the body of [if record_num % args.num_per_split
    == 0]. *)
Definition rotate (a : args) (index : Z) (m : machine) : outcome :=
  do m <- match indexfh m with
          | Some _ =>
              fh_write (indexfh m)
                (index_line (record_num m)
                   (infh_tell m - chunk_size + index + 1)) m
          | None => Ok m
          end;
  switch_file a m.

(** Lines 103-139: the body of the [for] loop.  [%] raises
    [ZeroDivisionError] on a zero divisor and otherwise is [mod]: both
    take the sign of the divisor. *)
Definition process_byte (a : args) (index : Z) (char : byte) (m : machine)
  : outcome :=
  let m := set_outbuf (outbuf m ++ [char]) m in
  match scan (state m) char with
  | None => Raise IndexError m
  | Some (s, is_record_end) =>
      let m := set_state s m in
      if is_record_end then
        let m := set_record_num (record_num m + 1) m in
        if num_per_split a =? 0 then Raise ZeroDivisionError m
        else if record_num m mod num_per_split a =? 0 then rotate a index m
        else Ok m
      else Ok m
  end.

(** [for (index, char) in enumerate(inbuf)]. *)
Fixpoint for_each_byte (a : args) (index : Z) (l : list byte) (m : machine)
  : outcome :=
  match l with
  | [] => Ok m
  | char :: l' =>
      do m <- process_byte a index char m;
      for_each_byte a (index + 1) l' m
  end.

(** Lines 101-142: [while inbuf].  Every round but the first has
    taken at least one byte off the input, so one round more than
    there are unread bytes is enough ([while_inbuf_completes]). *)
Fixpoint while_inbuf (fuel : nat) (a : args) (m : machine) : outcome :=
  match inbuf m with
  | [] => Ok m
  | _ :: _ =>
      match fuel with
      | O => Raise FuelExhausted m
      | S fuel' =>
          do m <- for_each_byte a 0 (inbuf m) m;
          do m <- fh_write (outfh m) (outbuf m) m;
          let m := set_outbuf [] m in
          let m := infh_read chunk_size m in
          while_inbuf fuel' a m
      end
  end.

(** Lines 83-150: the [try] block after the input is open. *)
Definition body (a : args) (m : machine) : outcome :=
  let m := infh_read chunk_size m in
  do m <- match inbuf m with
          | [] => Ok m
          | _ :: _ =>
              do m <- match generate_index a with
                      | Some path =>
                          if given (generate_index a) then
                            match open_x path (files m) with
                            | Some fs =>
                                Ok (set_indexfh (Some path) (set_files fs m))
                            | None => Raise FileExistsError m
                            end
                          else Ok m
                      | None => Ok m
                      end;
              do m <- call_next_outfile a m;
              Ok (print "Reading... " m)
          end;
  let m := set_outbuf [] m in
  let m := set_state [start] m in
  do m <- while_inbuf (S (length (infh_rest m))) a m;
  let m := match last (outbuf m) with
           | Some c =>
               if negb (Byte.eqb c LF)
               then set_record_num (record_num m + 1) m
               else m
           | None => m
           end in
  do m <- match outfh m with
          | Some _ => fh_write (outfh m) (outbuf m) m
          | None => Ok m
          end;
  Ok (print (summary (record_num m) (output_filenum m)) m).

(** Lines 151-159: the [finally] block.  Closing [infh] changes
    nothing the model keeps. *)
Definition cleanup (m : machine) : outcome :=
  do m <- match indexfh m with
          | Some _ => do m <- fh_flush (indexfh m) m; fh_close (indexfh m) m
          | None => Ok m
          end;
  match outfh m with
  | Some _ => do m <- fh_flush (outfh m) m; fh_close (outfh m) m
  | None => Ok m
  end.

(** Lines 75-80: the variables before the [try]. *)
Definition boot (fs : gmap string (list byte)) : machine :=
  Machine 0 1 None None [] [] [] [] 0 fs ∅ [] "".

(** The whole of [run_as_script] on the file system [fs]; the bytes
    of the input are those it holds when it is opened (nothing the
    program writes to existed then: [run_keeps_files]). *)
Definition run (a : args) (fs : gmap string (list byte)) : outcome :=
  finally
    match fs !! input_csv a with
    | None => Raise FileNotFoundError (boot fs)
    | Some data => body a (set_infh data 0 (boot fs))
    end
    cleanup.

End Program.

Definition read_size : Z := 1024 * 1024.

Definition run_as_script `{OsPath} (a : args) (fs : gmap string (list byte))
  : outcome :=
  run read_size a fs.

(** ** Notions used to state the properties *)

(** The stack after each byte of [l], with the record-end flag of that
    byte. *)
Fixpoint scan_trace (state : list st) (l : list byte)
  : option (list (list st * bool)) :=
  match l with
  | [] => Some []
  | char :: l' =>
      match scan state char with
      | Some (s, e) =>
          match scan_trace s l' with
          | Some t => Some ((s, e) :: t)
          | None => None
          end
      | None => None
      end
  end.

(** A stack on which every read of the top and every pop the program
    makes is defined: not empty, ["start"] at the bottom, at most three
    deep, ["endquote"] only directly above ["inquote"]. *)
Definition well_formed (state : list st) : Prop :=
  head state = Some start /\
  (length state <= 3)%nat /\
  endquote_above_inquote state.

(** A byte string that is a whole number [k] of records: it holds [k]
    line feeds outside quotes and ends with one of them. *)
Definition whole_records (k : Z) (l : list byte) : Prop :=
  terminators false l = k /\
  exists l', l = l' ++ [LF] /\ quoted false l' = false.

(** What holds of the split files while the main loop runs, when [pre]
    is the input consumed so far, [olds] the split files already
    rotated out, [cur] the one being written and [fs] the file system
    the run started from. *)
Record core (n : Z) (fs : gmap string (list byte)) (pre : list byte)
    (olds : list string) (cur : string) (m : machine) : Prop := {
  core_state : settled (state m);
  core_parity : open_quote (state m) = quoted false pre;
  core_count : record_num m = terminators false pre;
  core_outputs : outputs m = olds ++ [cur];
  core_outfh : outfh m = Some cur;
  core_filenum : output_filenum m = Z.of_nat (length (outputs m));
  core_nodup : NoDup (outputs m);
  core_exist : forall p, p ∈ outputs m -> is_Some (files m !! p);
  core_fresh : forall p, p ∈ outputs m -> fs !! p = None;
  core_closed : forall p, p ∈ closed m <-> p ∈ olds;
  core_index : forall ip, indexfh m = Some ip ->
                 is_Some (files m !! ip) /\ (ip ∉ outputs m) /\ fs !! ip = None;
  core_keeps : forall p, is_Some (fs !! p) -> files m !! p = fs !! p;
  core_concat : concat (content m <$> outputs m) ++ outbuf m = pre;
  core_blocks : Forall (fun p => whole_records (Z.abs n) (content m p)) olds
}.

(** Between two bytes, the file being written is moreover short of
    [n] records. *)
Definition inv (n : Z) (fs : gmap string (list byte)) (pre : list byte)
    (olds : list string) (cur : string) (m : machine) : Prop :=
  core n fs pre olds cur m /\
  terminators false (content m cur ++ outbuf m) < Z.abs n.

(** What the loop leaves alone. *)
Definition same_input (m m' : machine) : Prop :=
  inbuf m' = inbuf m /\ infh_rest m' = infh_rest m /\
  infh_tell m' = infh_tell m /\ indexfh m' = indexfh m.

(** The state half way through a byte, before the split test. *)
Definition appended (c : byte) (s' : list st) (e : bool) (m : machine)
  : machine :=
  set_record_num (record_num m + (if e then 1 else 0))
    (set_state s' (set_outbuf (outbuf m ++ [c]) m)).

(** Whether an index is asked for at a path that is taken. *)
Definition index_taken (a : args) (fs : gmap string (list byte)) : bool :=
  match generate_index a with
  | Some path => given (generate_index a) && bool_decide (is_Some (fs !! path))
  | None => false
  end.

(** How the state [m'] at the end of a run on a non-empty input stands
    to the state [mid] at the end of the main loop: the summary has
    been printed and handles have been closed, nothing else. *)
Definition wrapped_up (mid m' : machine) : Prop :=
  exists closed',
    m' = set_closed closed'
           (print (summary (record_num mid) (output_filenum mid)) mid) /\
    forall p, outfh mid = Some p \/ p ∈ closed mid -> p ∈ closed'.

(** How the state [m'] at the end of a run on a non-empty input stands
    to the input: some state [mid] at the end of the main loop held
    the invariant for all of it with an empty buffer. *)
Definition finished (n : Z) (fs : gmap string (list byte)) (data : list byte)
    (olds : list string) (cur : string) (m' : machine) : Prop :=
  exists mid,
    inv n fs data olds cur mid /\ outbuf mid = [] /\ wrapped_up mid m'.

(** Computes the field updates of a state given by its constructor. *)
Ltac machine_simpl :=
  unfold print, content in *;
  cbn in *.

(** ** Sample inputs *)

Module Sample.

(** A file system holding only the input, [in.csv]. *)
Definition only (data : list byte) : gmap string (list byte) :=
  {[ "in.csv" := data ]}.

(** [in.csv] split by [n], with or without an index. *)
Definition plain (n : Z) : args := Args "in.csv" n None None.
Definition indexed (n : Z) : args := Args "in.csv" n None (Some "in.idx").

Definition bytes (s : string) : list byte := String.list_byte_of_string s.

(** Two terminated records. *)
Definition two_records : list byte := bytes ("a,b" +:+ NL +:+ "c,d" +:+ NL).

(** One record without a line feed at the end. *)
Definition unterminated : list byte := bytes "a".

(** One short record: the byte after its line feed is at offset 2. *)
Definition one_record : list byte := bytes ("a" +:+ NL).

(** The seven bytes of the quoted field of the quote-escaping test: a
    double quote, [a], two double quotes, [b], a double quote and a
    line feed. *)
Definition escaped : list byte := [x22; x61; x22; x22; x62; x22; x0a].

(** A state in the middle of a run on [two_records] split by one: the
    first three bytes are in the buffer, the line feed that ends the
    first record comes next. *)
Definition midway : machine :=
  Machine 0 1 (Some "in_000001.csv") None two_records (bytes "a,b") [start]
    [] 8 (<["in_000001.csv" := []]> (only two_records)) ∅
    ["in_000001.csv"] "Reading... ".

End Sample.

(** ** Reference notions for the further properties *)

(** The number of double-quote bytes in a byte string. *)
Definition count_quotes (l : list byte) : nat :=
  length (List.filter (fun c => Byte.eqb c QUOTE) l).

(** The input cut after every [k]-th line feed outside quotes, written
    without files, chunks or a stack: [q] tells whether a quoted field
    is open, [r] counts the line feeds outside quotes in [cur], the
    piece being collected.  The last piece is what is left after the
    last cut; it is empty when the input ends at a cut. *)
Fixpoint reference_split (k : Z) (q : bool) (r : Z) (cur l : list byte)
  : list (list byte) :=
  match l with
  | [] => [cur]
  | c :: l' =>
      let e := negb q && Byte.eqb c LF in
      let q' := xorb q (Byte.eqb c QUOTE) in
      if e && (r + 1 =? k) then (cur ++ [c]) :: reference_split k q' 0 [] l'
      else reference_split k q' (r + (if e then 1 else 0)) (cur ++ [c]) l'
  end.

(** The sum of a list of integers. *)
Definition total (l : list Z) : Z := foldr Z.add 0 l.

(** The state an outcome carries. *)
Definition final (o : outcome) : machine :=
  match o with
  | Ok m => m
  | Raise _ m => m
  end.

(** The same command line with another split size. *)
Definition with_split_size (n : Z) (a : args) : args :=
  Args (input_csv a) n (output_dir a) (generate_index a).

(** What a byte that is buffered leaves alone: the files and the
    handles. *)
Definition same_world (m m' : machine) : Prop :=
  files m' = files m /\ outputs m' = outputs m /\ closed m' = closed m /\
  outfh m' = outfh m /\ indexfh m' = indexfh m.

(** Lines 144-150: what follows the main loop. *)
Definition after_loop (m : machine) : outcome :=
  let m := match last (outbuf m) with
           | Some c =>
               if negb (Byte.eqb c LF)
               then set_record_num (record_num m + 1) m
               else m
           | None => m
           end in
  do m <- match outfh m with
          | Some _ => fh_write (outfh m) (outbuf m) m
          | None => Ok m
          end;
  Ok (print (summary (record_num m) (output_filenum m)) m).

(** The path the index is created under, if one is. *)
Definition index_path (a : args) : option string :=
  match generate_index a with
  | Some path => if given (generate_index a) then Some path else None
  | None => None
  end.

(** The exception a run ends with, read off the arguments and the
    file system it starts from. *)
Definition predicted_exception (a : args) (fs : gmap string (list byte))
  : option exn :=
  match fs !! input_csv a with
  | None => Some FileNotFoundError
  | Some [] => None
  | Some data =>
      if index_taken a fs then Some FileExistsError
      else if (num_per_split a =? 0) && (0 <? terminators false data)
           then Some ZeroDivisionError
           else None
  end.

(** The entries an index gets for the bytes [l] of an input, when [q]
    tells whether a quoted field is open before them, [count] records
    ended before them, [pos] is the offset of the first of them in the
    input, and [off] gives the offset that is written for a record
    that ends at a given position: one entry for every line feed
    outside quotes at which the count is a multiple of [n]. *)
Fixpoint index_entries (n : Z) (off : Z -> Z) (q : bool) (count pos : Z)
    (l : list byte) : list (Z * Z) :=
  match l with
  | [] => []
  | c :: l' =>
      let e := negb q && Byte.eqb c LF in
      let q' := xorb q (Byte.eqb c QUOTE) in
      let count' := count + (if e then 1 else 0) in
      let rest := index_entries n off q' count' (pos + 1) l' in
      if e && (count' mod n =? 0) then (count', off pos) :: rest else rest
  end.

(** The offset line 129 computes for a record that ends at position
    [pos] of an input of [total] bytes read in chunks of
    [chunk_size]: in a whole chunk the offset after that position, in
    a short last chunk that offset less what the chunk is short of a
    whole one. *)
Definition written_offset (chunk_size total pos : Z) : Z :=
  if pos <? total / chunk_size * chunk_size then pos + 1
  else pos + 1 - (chunk_size - total mod chunk_size).

(** The lines of an index file. *)
Definition index_lines (es : list (Z * Z)) : list byte :=
  concat ((fun e => index_line e.1 e.2) <$> es).

(** The index a run should leave, read off its split files [fl], last
    one left out: one entry for each, with the number of records up to
    its end, [count] being those before the first, and the offset of
    its end in the input, [pos] being the offset of the first. *)
Fixpoint file_starts (k : Z) (count pos : Z) (fl : list (list byte))
  : list (Z * Z) :=
  match fl with
  | [] => []
  | f :: fl' =>
      (count + k, pos + Z.of_nat (length f))
      :: file_starts k (count + k) (pos + Z.of_nat (length f)) fl'
  end.

(** The split files are numbered from 1 in the order they are
    created: the [i]-th is a candidate name for the counter [i]. *)
Definition numbered_in_order `{OsPath} (a : args) (l : list string) : Prop :=
  forall (i : nat) (p : string),
    l !! i = Some p ->
    exists k : nat,
      p = candidate
            (initial_output_path (input_csv a) (output_dir a)
               (Z.of_nat i + 1) 6)
            (Z.of_nat k).

(** The progress output after [k] rotations: the announcement of line
    90 and one dot for each rotation (line 135). *)
Fixpoint progress (k : nat) : string :=
  match k with
  | O => "Reading... "
  | S k' => progress k' +:+ "."
  end.

(** * Properties *)

(** ** The scanner's stack *)

Lemma LF_not_QUOTE c : Byte.eqb c QUOTE = true -> Byte.eqb c LF = false.
Proof.
  intros H. apply Byte.byte_dec_bl in H. subst c. reflexivity.
Qed.

Lemma eqb_LF char : Byte.eqb char LF = true <-> char = LF.
Proof. split; [apply Byte.byte_dec_bl | intros ->; reflexivity]. Qed.

Lemma scan_settled state char :
  settled state ->
  exists s1 s',
    resolve state char = Some s1 /\ resolved s1 /\
    scan state char =
      Some (s', negb (open_quote state) && Byte.eqb char LF) /\
    settled s' /\
    open_quote s' = xorb (open_quote state) (Byte.eqb char QUOTE) /\
    (negb (open_quote state) && Byte.eqb char LF = true <->
       char = LF /\ Stack.top s1 = Some start).
Proof.
  intros Hs. pose proof (eqb_LF char) as Hlf.
  pose proof (LF_not_QUOTE char) as Hql.
  destruct Hs; unfold scan, resolve, classify; cbn;
    destruct (Byte.eqb char QUOTE); cbn;
    destruct (Byte.eqb char LF); cbn;
    try (specialize (Hql eq_refl); discriminate);
    eexists _, _; (split; [reflexivity|]); (split; [constructor|]);
    (split; [reflexivity|]); (split; [constructor|]); (split; [reflexivity|]);
    cbn; intuition congruence.
Qed.

(** ** The output path allocator *)

Section Allocator.

Context `{OsPath}.

Lemma list_ascii_of_append (a b : string) :
  String.list_ascii_of_string (a +:+ b)
  = String.list_ascii_of_string a ++ String.list_ascii_of_string b.
Proof. induction a as [|c a IH]; simpl; [reflexivity | by f_equal]. Qed.

Lemma append_inv_tail (a b e : string) : a +:+ e = b +:+ e -> a = b.
Proof.
  intros Heq.
  apply (f_equal String.list_ascii_of_string) in Heq.
  rewrite !list_ascii_of_append in Heq.
  apply app_inv_tail in Heq.
  rewrite <- (String.string_of_list_ascii_of_string a),
          <- (String.string_of_list_ascii_of_string b).
  by rewrite Heq.
Qed.

(** Different retry counts give different names. *)
Lemma disambiguated_inj (base ext : string) (j k : Z) :
  disambiguated base j ext = disambiguated base k ext -> j = k.
Proof.
  unfold disambiguated. intros Heq.
  apply String.app_inj, String.app_inj in Heq.
  apply append_inv_tail in Heq.
  by apply (inj pretty).
Qed.

(** A finite file system leaves one of the first [size fs + 1]
    disambiguated names free. *)
Lemma some_name_free (fs : gmap string (list byte)) (base ext : string) :
  exists k : nat,
    (k <= size fs)%nat /\
    fs !! disambiguated base (Z.of_nat (S k)) ext = None.
Proof.
  set (name := fun k : nat => disambiguated base (Z.of_nat (S k)) ext).
  set (names := name <$> seq 0 (S (size fs))).
  destruct (decide (Forall (fun p => is_Some (fs !! p)) names)) as [Hall|Hex].
  - exfalso.
    assert (Hnd : NoDup names).
    { apply NoDup_fmap_2; [|apply NoDup_seq].
      intros j k Hjk. apply disambiguated_inj in Hjk. lia. }
    assert (Hsub : list_to_set names ⊆ dom fs).
    { intros p Hp. apply elem_of_list_to_set in Hp.
      apply elem_of_dom. by eapply Forall_forall in Hall. }
    apply subseteq_size in Hsub.
    rewrite size_list_to_set, size_dom in Hsub by done.
    unfold names in Hsub. rewrite length_fmap, length_seq in Hsub. lia.
  - apply not_Forall_Exists in Hex; [|apply _].
    apply Exists_exists in Hex as (p & Hp & Hfree).
    apply list_elem_of_fmap in Hp as (k & -> & Hk).
    apply elem_of_seq in Hk.
    exists k. split; [lia|].
    cbn in Hfree. by apply eq_None_not_Some.
Qed.

Lemma candidate_succ (initial : string) (k : nat) :
  candidate initial (Z.of_nat k + 1)
  = disambiguated (path_splitext initial).1 (Z.of_nat k + 1)
      (path_splitext initial).2.
Proof.
  unfold candidate.
  destruct (Z.eqb_spec (Z.of_nat k + 1) 0) as [?|_]; [lia|].
  by destruct (path_splitext initial).
Qed.

(** The loop stops at the first free candidate, if there is one
    within reach of the fuel. *)
Lemma next_outfile_loop_finds (initial : string)
    (fs : gmap string (list byte)) (j : nat) :
  forall (fuel rc : nat),
    (j < fuel)%nat ->
    fs !! candidate initial (Z.of_nat (rc + j)) = None ->
    exists i : nat,
      (i <= j)%nat /\
      fs !! candidate initial (Z.of_nat (rc + i)) = None /\
      (forall i' : nat, (i' < i)%nat ->
         is_Some (fs !! candidate initial (Z.of_nat (rc + i')))) /\
      next_outfile_loop fuel initial (candidate initial (Z.of_nat rc))
        (Z.of_nat rc) fs
      = Some (candidate initial (Z.of_nat (rc + i)),
              <[candidate initial (Z.of_nat (rc + i)) := []]> fs).
Proof.
  induction j as [|j IH]; intros fuel rc Hfuel Hfree;
    (destruct fuel as [|fuel]; [lia|]); cbn [next_outfile_loop];
    unfold open_x.
  - rewrite Nat.add_0_r in Hfree. exists 0%nat.
    rewrite Nat.add_0_r, Hfree.
    repeat split; try done; intros; lia.
  - destruct (fs !! candidate initial (Z.of_nat rc)) as [old|] eqn:Hrc.
    + destruct (IH fuel (S rc)) as (i & Hi & Hnone & Hbelow & Hloop);
        [lia | by replace (S rc + j)%nat with (rc + S j)%nat by lia |].
      replace (S rc + i)%nat with (rc + S i)%nat in * by lia.
      exists (S i).
      split; [lia|]. split; [done|]. split.
      * intros [|i'] Hlt; [rewrite Nat.add_0_r; by rewrite Hrc|].
        replace (rc + S i')%nat with (S rc + i')%nat by lia.
        apply Hbelow. lia.
      * rewrite <- Hloop.
        replace (Z.of_nat (S rc)) with (Z.of_nat rc + 1) by lia.
        rewrite candidate_succ. by destruct (path_splitext initial).
    + exists 0%nat. rewrite Nat.add_0_r.
      repeat split; try done; intros; lia.
Qed.

(** [next_outfile] always returns: the handle of a file that did not
    exist, created empty, every other path left as it was; the path
    is the first candidate that was free. *)
Lemma next_outfile_creates (input_path : string) (output_dir : option string)
    (counter : Z) (width : nat) (fs : gmap string (list byte)) :
  exists (k : nat) (path : string),
    next_outfile input_path output_dir counter width fs
    = Some (path, <[path := []]> fs) /\
    path = candidate
             (initial_output_path input_path output_dir counter width)
             (Z.of_nat k) /\
    fs !! path = None /\
    forall j : nat, (j < k)%nat ->
      is_Some (fs !! candidate
                 (initial_output_path input_path output_dir counter width)
                 (Z.of_nat j)).
Proof.
  unfold next_outfile.
  set (initial := initial_output_path input_path output_dir counter width).
  destruct (some_name_free fs (path_splitext initial).1
              (path_splitext initial).2) as (k0 & Hk0 & Hfree).
  destruct (next_outfile_loop_finds initial fs (S k0) (S (S (size fs))) 0)
    as (i & Hi & Hnone & Hbelow & Hloop); [lia | |].
  - replace (Z.of_nat (0 + S k0)) with (Z.of_nat k0 + 1) by lia.
    rewrite candidate_succ.
    by replace (Z.of_nat k0 + 1) with (Z.of_nat (S k0)) by lia.
  - exists i, (candidate initial (Z.of_nat i)). cbn in *.
    repeat split; done.
Qed.

End Allocator.

(** ** The scanner against quote parity *)

Lemma quoted_app (q : bool) (l1 l2 : list byte) :
  quoted q (l1 ++ l2) = quoted (quoted q l1) l2.
Proof. revert q. induction l1 as [|c l1 IH]; intros q; cbn; [done | apply IH]. Qed.

Lemma terminators_app (q : bool) (l1 l2 : list byte) :
  terminators q (l1 ++ l2) = terminators q l1 + terminators (quoted q l1) l2.
Proof.
  revert q. induction l1 as [|c l1 IH]; intros q; cbn; [done|].
  rewrite IH. lia.
Qed.

Lemma terminators_nonneg (q : bool) (l : list byte) : 0 <= terminators q l.
Proof.
  revert q. induction l as [|c l IH]; intros q; cbn; [done|].
  specialize (IH (xorb q (Byte.eqb c QUOTE))).
  destruct (negb q && Byte.eqb c LF); lia.
Qed.

Lemma terminators_one (q : bool) (c : byte) :
  terminators q [c] = if negb q && Byte.eqb c LF then 1 else 0.
Proof. cbn. lia. Qed.

(** From a settled stack the state machine never fails, ends settled,
    counts the line feeds outside quotes and tracks the parity. *)
Lemma scan_bytes_settled (l : list byte) :
  forall state : list st,
    settled state ->
    exists s',
      scan_bytes state l = Some (s', terminators (open_quote state) l) /\
      settled s' /\
      open_quote s' = quoted (open_quote state) l.
Proof.
  induction l as [|c l IH]; intros state Hs; cbn.
  - by exists state.
  - destruct (scan_settled state c Hs)
      as (s1 & s & _ & _ & Hscan & Hs' & Hpar & _).
    rewrite Hscan.
    destruct (IH s Hs') as (s' & Hrest & Hset & Hq).
    rewrite Hrest, Hpar. exists s'. split; [|by rewrite <- Hpar].
    by rewrite <- Hpar.
Qed.

Lemma whole_records_closed (k : Z) (l : list byte) :
  whole_records k l -> quoted false l = false.
Proof.
  intros [_ (l' & -> & Hq)]. rewrite quoted_app, Hq. reflexivity.
Qed.

Lemma whole_records_concat (k : Z) (ls : list (list byte)) :
  Forall (whole_records k) ls ->
  quoted false (concat ls) = false /\
  terminators false (concat ls) = k * Z.of_nat (length ls).
Proof.
  induction 1 as [|l ls Hl _ [IHq IHt]]; cbn [concat length].
  - split; [done | cbn; lia].
  - rewrite quoted_app, terminators_app, (whole_records_closed k l Hl).
    split; [done|]. destruct Hl as [-> _]. lia.
Qed.

(** When the counter reaches a multiple of [n]. *)
Lemma boundary_iff (n len r : Z) :
  n <> 0 -> 0 <= r < Z.abs n ->
  ((Z.abs n * len + r + 1) mod n = 0 <-> r + 1 = Z.abs n).
Proof.
  intros Hn Hr.
  rewrite Z.mod_divide by done.
  rewrite <- Z.divide_abs_l.
  replace (Z.abs n * len + r + 1) with (len * Z.abs n + (r + 1)) by lia.
  split.
  - intros Hd.
    apply Z.divide_add_cancel_r in Hd; [|apply Z.divide_factor_r].
    destruct Hd as [z Hz].
    assert (z = 1) by nia. lia.
  - intros ->. apply Z.divide_add_r; [apply Z.divide_factor_r|].
    apply Z.divide_refl.
Qed.

(** ** Steps that keep the invariant *)

Lemma core_decompose n fs pre olds cur m :
  core n fs pre olds cur m ->
  quoted false (content m cur ++ outbuf m) = quoted false pre /\
  terminators false pre
  = Z.abs n * Z.of_nat (length olds)
    + terminators false (content m cur ++ outbuf m).
Proof.
  intros I.
  pose proof (core_concat _ _ _ _ _ _ I) as Hc.
  rewrite (core_outputs _ _ _ _ _ _ I), fmap_app, concat_app in Hc.
  cbn in Hc. rewrite app_nil_r, <- app_assoc in Hc.
  destruct (whole_records_concat (Z.abs n) (content m <$> olds)) as [Hq Ht].
  { apply Forall_fmap. exact (core_blocks _ _ _ _ _ _ I). }
  rewrite length_fmap in Ht.
  subst pre. rewrite (quoted_app _ (concat _)), (terminators_app _ (concat _)), Hq, Ht. done.
Qed.

(** Reading the contents of files after a write elsewhere. *)
Lemma content_insert_eq m p v q :
  p = q -> content (set_files (<[p := v]> (files m)) m) q = v.
Proof. intros ->. destruct m. apply lookup_total_insert_eq. Qed.

Lemma content_insert_ne m p v q :
  p <> q -> content (set_files (<[p := v]> (files m)) m) q = content m q.
Proof. intros Hne. destruct m. by apply lookup_total_insert_ne. Qed.

Lemma fmap_content_ext (m m' : machine) (l : list string) :
  (forall p, p ∈ l -> content m' p = content m p) ->
  content m' <$> l = content m <$> l.
Proof.
  intros Hext. apply Forall_fmap_ext, Forall_forall. exact Hext.
Qed.

(** The first half of a byte: it goes to the buffer, the stack moves
    on, and the counter takes the record end, if it is one. *)
Lemma append_core n fs pre olds cur m c s' e :
  core n fs pre olds cur m ->
  scan (state m) c = Some (s', e) ->
  core n fs (pre ++ [c]) olds cur
    (set_record_num (record_num m + (if e then 1 else 0))
       (set_state s' (set_outbuf (outbuf m ++ [c]) m))) /\
  e = negb (quoted false pre) && Byte.eqb c LF.
Proof.
  intros I Hscan.
  destruct (scan_settled (state m) c (core_state _ _ _ _ _ _ I))
    as (s1 & s2 & _ & _ & Hscan' & Hset & Hpar & _).
  rewrite Hscan in Hscan'. injection Hscan' as -> ->.
  destruct m, I; cbn in *. split; [|congruence].
  constructor; cbn; try done.
  - rewrite quoted_app, Hpar. cbn. congruence.
  - rewrite terminators_app, terminators_one, core_count0, core_parity0.
    reflexivity.
  - rewrite app_assoc. f_equal. exact core_concat0.
Qed.

(** Writing an index entry leaves the split files as they are. *)
Lemma index_write_core n fs pre olds cur m ip data :
  core n fs pre olds cur m ->
  indexfh m = Some ip ->
  exists m',
    fh_write (indexfh m) data m = Ok m' /\
    core n fs pre olds cur m' /\
    content m' cur = content m cur /\ outbuf m' = outbuf m /\
    same_input m m'.
Proof.
  intros I Hip. rewrite Hip. unfold fh_write.
  destruct (core_index _ _ _ _ _ _ I ip Hip) as (Hex & Hout & Hfs).
  assert (Hnold : ip ∉ olds).
  { intros Hin. apply Hout. rewrite (core_outputs _ _ _ _ _ _ I).
    apply elem_of_app. by left. }
  rewrite bool_decide_eq_false_2
    by (by rewrite (core_closed _ _ _ _ _ _ I)).
  eexists. split; [reflexivity|].
  assert (Hsame : forall p, p ∈ outputs m ->
            content (set_files (<[ip:=content m ip ++ data]> (files m)) m) p
            = content m p).
  { intros p Hp. apply content_insert_ne. intros ->. by apply Hout. }
  assert (Hcur : cur ∈ outputs m).
  { rewrite (core_outputs _ _ _ _ _ _ I). apply elem_of_app. right.
    by apply list_elem_of_singleton. }
  split; [|split; [by apply Hsame | by destruct m]].
  destruct I. constructor; try (destruct m; cbn in *; done).
  - intros p Hp. destruct m; cbn in *.
    rewrite lookup_insert_ne by (intros ->; by apply Hout). by apply core_exist0.
  - intros ip' Hip'. destruct m; cbn in *.
    assert (ip' = ip) as -> by congruence.
    rewrite lookup_insert_eq. by split.
  - intros p Hp. destruct m; cbn in *.
    rewrite lookup_insert_ne; [by apply core_keeps0|].
    intros ->. rewrite Hfs in Hp. by destruct Hp.
  - rewrite (fmap_content_ext m) by (destruct m; exact Hsame).
    by destruct m.
  - apply Forall_forall. intros p Hp.
    rewrite content_insert_ne by (intros ->; done).
    by eapply Forall_forall in core_blocks0.
Qed.

(** The rotation: the file being written, now [n] records long, joins
    the finished ones, and a new, empty file takes its place. *)
Lemma switch_file_inv `{OsPath} a fs pre olds cur m :
  num_per_split a <> 0 ->
  core (num_per_split a) fs pre olds cur m ->
  whole_records (Z.abs (num_per_split a)) (content m cur ++ outbuf m) ->
  exists m' new,
    switch_file a m = Ok m' /\
    inv (num_per_split a) fs pre (olds ++ [cur]) new m' /\
    same_input m m' /\
    outbuf m' = [] /\
    content m' cur = content m cur ++ outbuf m /\
    files m !! new = None /\
    content m' new = [] /\
    cur ∈ closed m' /\
    output_filenum m' = output_filenum m + 1.
Proof.
  intros Hn I Hwhole.
  destruct m as [rn ofn ofh ifh ib ob stk rest tell fl cl outs so].
  destruct I as [Hst Hpar Hcnt Houts Hofh Hnum Hnd Hex Hfr Hcl Hix Hkeep Hcat Hbl].
  unfold content in *. cbn in *. subst ofh outs.
  assert (Hcur_new : cur ∉ olds).
  { apply NoDup_app in Hnd as (_ & Hdisj & _). intros Hin.
    apply (Hdisj cur Hin). by apply list_elem_of_singleton. }
  assert (Hcur_open : cur ∉ cl) by (by rewrite Hcl).
  unfold switch_file, fh_write, fh_flush, fh_close, call_next_outfile.
  machine_simpl. rewrite bool_decide_eq_false_2 by done. machine_simpl.
  rewrite bool_decide_eq_false_2 by done. machine_simpl.
  destruct (next_outfile_creates (input_csv a) (output_dir a) (ofn + 1) 6
              (<[cur:=fl !!! cur ++ ob]> fl))
    as (k & new & Hnext & _ & Hnone & _).
  rewrite Hnext. machine_simpl.
  assert (Hnc : new <> cur).
  { intros ->. by rewrite lookup_insert_eq in Hnone. }
  rewrite lookup_insert_ne in Hnone by done.
  assert (Hnew_out : new ∉ olds ++ [cur]).
  { intros Hin. apply Hex in Hin. rewrite Hnone in Hin. by destruct Hin. }
  assert (Hnew_fs : fs !! new = None).
  { destruct (fs !! new) eqn:Hfs; [|done].
    rewrite <- Hnone, <- Hfs. symmetry. apply Hkeep. by rewrite Hfs. }
  assert (Hcur_fs : fs !! cur = None).
  { apply Hfr, elem_of_app. right. by apply list_elem_of_singleton. }
  eexists _, new. split; [reflexivity|].
  unfold inv, same_input, content. cbn.
  rewrite lookup_total_insert_eq.
  rewrite lookup_total_insert_ne, lookup_total_insert_eq by done.
  repeat split; unfold content; cbn; try done; try lia.
  - rewrite !length_app in *. cbn in *. lia.
  - apply NoDup_app. split; [done|]. split; [|apply NoDup_singleton].
    intros p Hp Hq. apply list_elem_of_singleton in Hq as ->. done.
  - intros p Hp. apply elem_of_app in Hp as [Hp|Hp].
    + destruct (decide (p = new)) as [->|?];
        [by rewrite lookup_insert_eq|rewrite lookup_insert_ne by done].
      destruct (decide (p = cur)) as [->|?];
        [by rewrite lookup_insert_eq|rewrite lookup_insert_ne by done].
      by apply Hex.
    + apply list_elem_of_singleton in Hp as ->. by rewrite lookup_insert_eq.
  - intros p Hp. apply elem_of_app in Hp as [Hp|Hp]; [by apply Hfr|].
    by apply list_elem_of_singleton in Hp as ->.
  - intros Hp. apply elem_of_union in Hp as [Hp|Hp].
    + apply elem_of_singleton in Hp as ->. apply elem_of_app. right.
      by apply list_elem_of_singleton.
    + apply elem_of_app. left. by apply Hcl.
  - intros Hp. apply elem_of_app in Hp as [Hp|Hp].
    + apply elem_of_union. right. by apply Hcl.
    + apply list_elem_of_singleton in Hp as ->. apply elem_of_union. left.
      by apply elem_of_singleton.
  - destruct (Hix ip) as (Hip & _ & _); [done|].
    destruct (decide (ip = new)) as [->|?];
      [by rewrite lookup_insert_eq|rewrite lookup_insert_ne by done].
    destruct (decide (ip = cur)) as [->|?];
      [by rewrite lookup_insert_eq|by rewrite lookup_insert_ne].
  - destruct (Hix ip) as (Hip & Hout & _); [done|].
    intros Hin. apply elem_of_app in Hin as [Hin|Hin]; [done|].
    apply list_elem_of_singleton in Hin as ->.
    rewrite Hnone in Hip. by destruct Hip.
  - by destruct (Hix ip) as (_ & _ & ?).
  - intros p Hp.
    rewrite lookup_insert_ne by (intros ->; rewrite Hnew_fs in Hp; by destruct Hp).
    rewrite lookup_insert_ne by (intros ->; rewrite Hcur_fs in Hp; by destruct Hp).
    by apply Hkeep.
  - rewrite app_nil_r, !fmap_app, !concat_app. cbn.
    rewrite lookup_total_insert_eq.
    rewrite lookup_total_insert_ne, lookup_total_insert_eq by done.
    rewrite !app_nil_r. rewrite <- Hcat.
    rewrite fmap_app, concat_app. cbn. rewrite app_nil_r, <- app_assoc.
    f_equal. f_equal. apply Forall_fmap_ext, Forall_forall.
    intros p Hp.
    rewrite lookup_total_insert_ne by (intros ->; apply Hnew_out, elem_of_app; by left).
    by rewrite lookup_total_insert_ne by (intros ->; done).
  - apply Forall_app. split.
    + apply Forall_forall. intros p Hp.
      rewrite lookup_total_insert_ne by (intros ->; apply Hnew_out, elem_of_app; by left).
      rewrite lookup_total_insert_ne by (intros ->; done).
      by eapply Forall_forall in Hbl.
    + apply Forall_singleton.
      by rewrite lookup_total_insert_ne, lookup_total_insert_eq by done.
  - apply elem_of_union. left. by apply elem_of_singleton.
Qed.

(** ** The main loop keeps the invariant *)

Section Loop.

Context `{OsPath}.
Variable chunk_size : Z.
Variable a : args.
Variable fs : gmap string (list byte).
Hypothesis n_nonzero : num_per_split a <> 0.

Lemma process_byte_unfold index c m s' e :
  scan (state m) c = Some (s', e) ->
  process_byte chunk_size a index c m
  = if e then
      if num_per_split a =? 0 then Raise ZeroDivisionError (appended c s' e m)
      else if record_num (appended c s' e m) mod num_per_split a =? 0
           then rotate chunk_size a index (appended c s' e m)
           else Ok (appended c s' e m)
    else Ok (appended c s' e m).
Proof.
  intros Hscan. unfold process_byte, appended.
  destruct m. cbn in *. rewrite Hscan.
  destruct e; cbn; rewrite ?Z.add_0_r; reflexivity.
Qed.

Lemma same_input_appended c s' e m : same_input m (appended c s' e m).
Proof. by destruct m. Qed.

Lemma same_input_refl m : same_input m m.
Proof. by repeat split. Qed.

Lemma same_input_trans m1 m2 m3 :
  same_input m1 m2 -> same_input m2 m3 -> same_input m1 m3.
Proof. unfold same_input. intros (?&?&?&?) (?&?&?&?). repeat split; congruence. Qed.

Lemma rotate_inv pre olds cur index m :
  core (num_per_split a) fs pre olds cur m ->
  whole_records (Z.abs (num_per_split a)) (content m cur ++ outbuf m) ->
  exists m' new,
    rotate chunk_size a index m = Ok m' /\
    inv (num_per_split a) fs pre (olds ++ [cur]) new m' /\
    same_input m m' /\
    outbuf m' = [] /\
    content m' cur = content m cur ++ outbuf m /\
    files m !! new = None /\
    content m' new = [] /\
    cur ∈ closed m' /\
    output_filenum m' = output_filenum m + 1.
Proof.
  intros I Hwhole. unfold rotate.
  destruct (indexfh m) as [ip|] eqn:Hip.
  - destruct (index_write_core _ _ _ _ _ m ip
                (index_line (record_num m)
                   (infh_tell m - chunk_size + index + 1)) I Hip)
      as (m2 & Hw & I2 & Hcur & Hob & Hsame).
    rewrite Hip in Hw. rewrite Hw. cbn.
    destruct (switch_file_inv a fs pre olds cur m2 n_nonzero I2)
      as (m' & new & Hsw & I' & Hsame' & Hob' & Hcur' & Hnew & Hnew' & Hcl & Hnum);
      [by rewrite Hcur, Hob|].
    exists m', new. rewrite Hsw, Hcur', Hcur, Hob, Hnum.
    assert (Hm2 : output_filenum m2 = output_filenum m /\
                  (files m2 !! new = None -> files m !! new = None)).
    { revert Hw. unfold fh_write. case_bool_decide; [done|].
      intros [= <-]. clear. destruct m. cbn. split; [done|].
      destruct (decide (ip = new)) as [->|?];
        [by rewrite lookup_insert_eq | by rewrite lookup_insert_ne]. }
    destruct Hm2 as [-> Hnew2].
    split; [done|]. split; [done|].
    split; [by eapply same_input_trans|].
    split; [done|]. split; [done|]. split; [by apply Hnew2|]. done.
  - cbn. apply switch_file_inv; done.
Qed.

Lemma process_byte_inv pre olds cur index c m :
  inv (num_per_split a) fs pre olds cur m ->
  exists m' olds' cur',
    process_byte chunk_size a index c m = Ok m' /\
    inv (num_per_split a) fs (pre ++ [c]) olds' cur' m' /\
    same_input m m'.
Proof.
  intros [I Hlt].
  destruct (scan_settled (state m) c (core_state _ _ _ _ _ _ I))
    as (s1 & s' & _ & _ & Hscan & _).
  destruct (append_core _ _ _ _ _ _ c _ _ I Hscan) as [I1 He].
  fold (appended c s' (negb (open_quote (state m)) && Byte.eqb c LF) m) in I1.
  rewrite (process_byte_unfold _ _ _ _ _ Hscan).
  destruct (core_decompose _ _ _ _ _ _ I) as [Hq Ht].
  pose proof (terminators_nonneg false (content m cur ++ outbuf m)) as Hge.
  set (e := negb (open_quote (state m)) && Byte.eqb c LF) in *.
  assert (Hcur1 : content (appended c s' e m) cur ++ outbuf (appended c s' e m)
                  = (content m cur ++ outbuf m) ++ [c]).
  { destruct m. unfold content. cbn. by rewrite app_assoc. }
  assert (Hterm : terminators false ((content m cur ++ outbuf m) ++ [c])
                  = terminators false (content m cur ++ outbuf m)
                    + (if e then 1 else 0)).
  { rewrite terminators_app, terminators_one, Hq, <- He. done. }
  destruct e eqn:Ee.
  - destruct (Z.eqb_spec (num_per_split a) 0) as [?|_]; [done|].
    assert (Hrn : record_num (appended c s' true m)
                  = Z.abs (num_per_split a) * Z.of_nat (length olds)
                    + terminators false (content m cur ++ outbuf m) + 1).
    { pose proof (core_count _ _ _ _ _ _ I) as Hc.
      destruct m. cbn in *. lia. }
    rewrite Hrn.
    destruct (Z.eqb_spec
                ((Z.abs (num_per_split a) * Z.of_nat (length olds)
                  + terminators false (content m cur ++ outbuf m) + 1)
                 mod num_per_split a) 0) as [Hmod|Hmod].
    + apply boundary_iff in Hmod; [|done|lia].
      destruct (rotate_inv (pre ++ [c]) olds cur index (appended c s' true m) I1)
        as (m' & new & Hrot & I' & Hsame & _).
      { rewrite Hcur1. split; [rewrite Hterm; lia|].
        exists (content m cur ++ outbuf m). split; [|].
        - f_equal. f_equal. symmetry in He.
          apply andb_true_iff in He as [_ He]. by apply eqb_LF in He.
        - symmetry in He. apply andb_true_iff in He as [He _].
          rewrite Hq. by apply negb_true_iff in He. }
      exists m', (olds ++ [cur]), new. split; [done|]. split; [done|].
      eapply same_input_trans; [apply same_input_appended | done].
    + exists (appended c s' true m), olds, cur.
      split; [done|]. split; [|apply same_input_appended].
      split; [done|]. rewrite Hcur1, Hterm.
      assert (terminators false (content m cur ++ outbuf m) + 1
              <> Z.abs (num_per_split a)).
      { intros Heq. apply Hmod. apply boundary_iff; [done|lia|done]. }
      lia.
  - exists (appended c s' false m), olds, cur.
    split; [done|]. split; [|apply same_input_appended].
    split; [done|]. rewrite Hcur1, Hterm. lia.
Qed.

Lemma for_each_byte_inv l :
  forall pre olds cur index m,
    inv (num_per_split a) fs pre olds cur m ->
    exists m' olds' cur',
      for_each_byte chunk_size a index l m = Ok m' /\
      inv (num_per_split a) fs (pre ++ l) olds' cur' m' /\
      same_input m m'.
Proof.
  induction l as [|c l IH]; intros pre olds cur index m I; cbn.
  - exists m, olds, cur. rewrite app_nil_r.
    split; [done|]. split; [done|]. apply same_input_refl.
  - destruct (process_byte_inv pre olds cur index c m I)
      as (m1 & olds1 & cur1 & Hstep & I1 & Hsame1).
    rewrite Hstep. cbn.
    destruct (IH (pre ++ [c]) olds1 cur1 (index + 1) m1 I1)
      as (m' & olds' & cur' & Hrest & I' & Hsame').
    exists m', olds', cur'. rewrite <- app_assoc in I'.
    split; [done|]. split; [done|]. by eapply same_input_trans.
Qed.

(** Lines 140-141: the buffer goes to the file being written. *)
Lemma flush_inv pre olds cur m :
  inv (num_per_split a) fs pre olds cur m ->
  exists m',
    fh_write (outfh m) (outbuf m) m = Ok m' /\
    inv (num_per_split a) fs pre olds cur (set_outbuf [] m') /\
    same_input m m' /\
    (outbuf m = [] -> m' = m).
Proof.
  intros [I Hlt].
  destruct m as [rn ofn ofh ifh ib ob stk rest tell fl cl outs so].
  destruct I as [Hst Hpar Hcnt Houts Hofh Hnum Hnd Hex Hfr Hcl Hix Hkeep Hcat Hbl].
  unfold content in *. cbn in *. subst ofh outs.
  assert (Hcur_new : cur ∉ olds).
  { apply NoDup_app in Hnd as (_ & Hdisj & _). intros Hin.
    apply (Hdisj cur Hin). by apply list_elem_of_singleton. }
  assert (Hcur_open : cur ∉ cl) by (by rewrite Hcl).
  assert (Hcur_in : cur ∈ olds ++ [cur]).
  { apply elem_of_app. right. by apply list_elem_of_singleton. }
  unfold fh_write. machine_simpl.
  rewrite bool_decide_eq_false_2 by done.
  eexists. split; [reflexivity|]. split; [|split; [done|]].
  - unfold inv, content. cbn. rewrite lookup_total_insert_eq, app_nil_r.
    split; [|done].
    constructor; unfold content; cbn; try done.
    + intros p Hp. destruct (decide (p = cur)) as [->|?];
        [by rewrite lookup_insert_eq | rewrite lookup_insert_ne by done].
      by apply Hex.
    + intros ip Hip. destruct (Hix ip Hip) as (Hs & Hout & Hf).
      split; [|done].
      rewrite lookup_insert_ne; [done|]. by intros ->.
    + intros p Hp. rewrite lookup_insert_ne; [by apply Hkeep|].
      intros <-. rewrite (Hfr cur Hcur_in) in Hp. by destruct Hp.
    + rewrite app_nil_r, fmap_app, concat_app. cbn.
      rewrite lookup_total_insert_eq, app_nil_r. rewrite <- Hcat.
      rewrite fmap_app, concat_app. cbn. rewrite app_nil_r, <- app_assoc.
      f_equal. f_equal. apply Forall_fmap_ext, Forall_forall.
      intros p Hp. by rewrite lookup_total_insert_ne by (intros ->; done).
    + apply Forall_forall. intros p Hp.
      rewrite lookup_total_insert_ne by (intros ->; done).
      by eapply Forall_forall in Hbl.
  - intros ->. rewrite app_nil_r. f_equal.
    apply insert_id. destruct (Hex cur Hcur_in) as [v Hv].
    by rewrite (lookup_total_correct _ _ _ Hv).
Qed.

(** Reading the next chunk does not touch what the invariant is
    about. *)
Lemma infh_read_inv pre olds cur m :
  inv (num_per_split a) fs pre olds cur m ->
  inv (num_per_split a) fs pre olds cur (infh_read chunk_size m).
Proof.
  intros [I Hlt]. destruct m, I. unfold inv, infh_read, content in *.
  machine_simpl. split; [|done]. by constructor.
Qed.

Hypothesis chunk_positive : 0 < chunk_size.

Lemma infh_read_drained m :
  inbuf (infh_read chunk_size m) = [] ->
  infh_rest (infh_read chunk_size m) = [].
Proof.
  destruct m as [rn ofn ofh ifh ib ob stk rest tell fl cl outs so].
  unfold infh_read. machine_simpl.
  destruct (Z.to_nat chunk_size) as [|k] eqn:Hk; [lia|].
  by destruct rest.
Qed.

Lemma infh_read_split m :
  inbuf (infh_read chunk_size m) ++ infh_rest (infh_read chunk_size m)
  = infh_rest m.
Proof. destruct m. unfold infh_read. machine_simpl. apply take_drop. Qed.

Lemma infh_read_shrinks m :
  inbuf (infh_read chunk_size m) <> [] ->
  (length (infh_rest (infh_read chunk_size m)) < length (infh_rest m))%nat.
Proof.
  destruct m as [rn ofn ofh ifh ib ob stk rest tell fl cl outs so].
  unfold infh_read. machine_simpl. rewrite length_drop.
  destruct (Z.to_nat chunk_size) as [|k] eqn:Hk; [lia|].
  destruct rest; [done|]. cbn. lia.
Qed.

(** The [while] loop returns, having consumed the rest of the input,
    with the invariant and an empty buffer. *)
Lemma while_inbuf_completes fuel :
  forall pre olds cur m,
    inv (num_per_split a) fs pre olds cur m ->
    outbuf m = [] ->
    (inbuf m = [] -> infh_rest m = []) ->
    (inbuf m = [] \/ (length (infh_rest m) < fuel)%nat) ->
    exists m' olds' cur',
      while_inbuf chunk_size fuel a m = Ok m' /\
      inv (num_per_split a) fs (pre ++ inbuf m ++ infh_rest m) olds' cur' m' /\
      outbuf m' = [] /\ indexfh m' = indexfh m.
Proof.
  induction fuel as [|fuel IH]; intros pre olds cur m I Hob Hdr Hfuel.
  - destruct Hfuel as [Hnil|?]; [|lia]. cbn. rewrite Hnil, (Hdr Hnil).
    exists m, olds, cur. rewrite !app_nil_r. done.
  - cbn [while_inbuf].
    destruct (inbuf m) as [|c chunk] eqn:Hin.
    + rewrite (Hdr eq_refl). exists m, olds, cur. rewrite !app_nil_r. done.
    + destruct (for_each_byte_inv (c :: chunk) pre olds cur 0 m I)
        as (m1 & olds1 & cur1 & Hfor & I1 & Hs1).
      rewrite Hfor. cbn [and_then].
      destruct (flush_inv _ _ _ _ I1) as (m2 & Hw & I2 & Hs2 & _).
      rewrite Hw. cbn [and_then].
      apply infh_read_inv in I2.
      set (m3 := infh_read chunk_size (set_outbuf [] m2)) in *.
      assert (Hrest2 : infh_rest (set_outbuf [] m2) = infh_rest m).
      { destruct Hs1 as (_ & Hr1 & _), Hs2 as (_ & Hr2 & _).
        destruct m2. cbn in *. congruence. }
      assert (Hix2 : indexfh m3 = indexfh m).
      { destruct Hs1 as (_ & _ & _ & Hi1), Hs2 as (_ & _ & _ & Hi2).
        unfold m3. destruct m2. cbn in *. congruence. }
      destruct (IH (pre ++ c :: chunk) olds1 cur1 m3 I2)
        as (m' & olds' & cur' & Hloop & I' & Hob' & Hix').
      * unfold m3. by destruct m2.
      * apply infh_read_drained.
      * destruct (decide (inbuf m3 = [])) as [?|Hne]; [by left|right].
        apply infh_read_shrinks in Hne. rewrite Hrest2 in Hne.
        fold m3 in Hne. destruct Hfuel as [?|?]; [done|lia].
      * exists m', olds', cur'. split; [done|].
        split; [|split; [done|congruence]].
        rewrite <- app_assoc in I'.
        unfold m3 in I'. rewrite infh_read_split, Hrest2 in I'. done.
Qed.

End Loop.

(** ** The whole run *)

Section Run.

Context `{OsPath}.
Variable chunk_size : Z.
Variable a : args.
Variable fs : gmap string (list byte).
Variable data : list byte.
Hypothesis n_nonzero : num_per_split a <> 0.
Hypothesis chunk_positive : 0 < chunk_size.
Hypothesis input_there : fs !! input_csv a = Some data.
Hypothesis index_ok : index_taken a fs = false.

Lemma first_file_inv m :
  record_num m = 0 -> output_filenum m = 1 ->
  outputs m = [] -> closed m = ∅ ->
  (forall p, is_Some (fs !! p) -> files m !! p = fs !! p) ->
  (forall ip, indexfh m = Some ip ->
     is_Some (files m !! ip) /\ fs !! ip = None) ->
  exists m' new,
    call_next_outfile a m = Ok m' /\
    inv (num_per_split a) fs [] [] new
      (set_state [start] (set_outbuf [] (print "Reading... " m'))) /\
    same_input m m'.
Proof.
  destruct m as [rn ofn ofh ifh ib ob stk rest tell fl cl outs so].
  cbn. intros -> -> -> -> Hkeep Hix.
  unfold call_next_outfile. cbn.
  destruct (next_outfile_creates (input_csv a) (output_dir a) 1 6 fl)
    as (k & new & Hnext & _ & Hnone & _).
  rewrite Hnext.
  assert (Hnew_fs : fs !! new = None).
  { destruct (fs !! new) eqn:Hfs; [|done].
    rewrite <- Hnone, <- Hfs. symmetry. apply Hkeep. by rewrite Hfs. }
  eexists _, new. split; [reflexivity|]. split; [|done].
  unfold inv. machine_simpl. rewrite lookup_total_insert_eq.
  split; [|cbn; lia].
  constructor; unfold content; cbn; try done.
  - constructor.
  - apply NoDup_singleton.
  - intros p Hp. apply list_elem_of_singleton in Hp as ->.
    by rewrite lookup_insert_eq.
  - intros p Hp. by apply list_elem_of_singleton in Hp as ->.
  - intros p. split; intros Hp; [by apply not_elem_of_empty in Hp|].
    by apply not_elem_of_nil in Hp.
  - intros ip Hip. destruct (Hix ip Hip) as [Hs Hf].
    assert (ip <> new) by (intros ->; rewrite Hnone in Hs; by destruct Hs).
    rewrite lookup_insert_ne by done. split; [done|]. split; [|done].
    intros Hin. by apply list_elem_of_singleton in Hin.
  - intros p Hp. rewrite lookup_insert_ne; [by apply Hkeep|].
    intros <-. rewrite Hnew_fs in Hp. by destruct Hp.
  - by rewrite lookup_total_insert_eq.
Qed.

(** The run returns normally.  On an empty input it creates nothing;
    otherwise the main loop ends with the invariant for the whole
    input and an empty buffer, and only the summary and the closing
    of the handles follow. *)
Lemma run_completes :
  exists m',
    run chunk_size a fs = Ok m' /\
    ((data = [] /\ outputs m' = [] /\ files m' = fs /\
      record_num m' = 0 /\ output_filenum m' = 1 /\
      stdout m' = summary 0 1)
     \/
     (data <> [] /\
      exists olds cur, finished (num_per_split a) fs data olds cur m')).
Proof.
  unfold run. rewrite input_there. unfold body.
  set (m1 := infh_read chunk_size (set_infh data 0 (boot fs))).
  assert (Hsplit : inbuf m1 ++ infh_rest m1 = data)
    by apply (infh_read_split chunk_size).
  assert (Hdr : inbuf m1 = [] -> infh_rest m1 = [])
    by apply (infh_read_drained chunk_size chunk_positive).
  assert (Hm1 : record_num m1 = 0 /\ output_filenum m1 = 1 /\
                outfh m1 = None /\ indexfh m1 = None /\ outputs m1 = [] /\
                closed m1 = ∅ /\ files m1 = fs /\ stdout m1 = "")
    by (by repeat split).
  clearbody m1.
  destruct m1 as [rn ofn ofh ifh ib ob stk rest tell fl cl outs so].
  cbn in Hsplit, Hdr, Hm1.
  destruct Hm1 as (-> & -> & -> & -> & -> & -> & -> & ->).
  destruct ib as [|c chunk].
  - rewrite (Hdr eq_refl) in *. cbn in Hsplit. subst data. cbn.
    eexists. split; [reflexivity|]. left. by repeat split.
  - assert (Hne : data <> []) by (by rewrite <- Hsplit).
    cbn [inbuf].
    set (m1 := Machine 0 1 None None (c :: chunk) ob stk rest tell fs ∅ [] "").
    (* the index file *)
    assert (Hidx : exists m2,
      match generate_index a with
      | Some path =>
          if given (generate_index a) then
            match open_x path (files m1) with
            | Some fs' => Ok (set_indexfh (Some path) (set_files fs' m1))
            | None => Raise FileExistsError m1
            end
          else Ok m1
      | None => Ok m1
      end = Ok m2 /\
      record_num m2 = 0 /\ output_filenum m2 = 1 /\
      outputs m2 = [] /\ closed m2 = ∅ /\
      (forall p, is_Some (fs !! p) -> files m2 !! p = fs !! p) /\
      (forall ip, indexfh m2 = Some ip ->
         is_Some (files m2 !! ip) /\ fs !! ip = None) /\
      inbuf m2 = c :: chunk /\ infh_rest m2 = rest).
    { pose proof index_ok as Hfree. unfold index_taken in Hfree.
      destruct (generate_index a) as [path|] eqn:Hgi.
      - destruct (given (Some path)) eqn:Hg.
        + cbn in Hfree. apply bool_decide_eq_false in Hfree.
          apply eq_None_not_Some in Hfree.
          unfold open_x. cbn. rewrite Hfree.
          eexists. split; [reflexivity|]. cbn.
          split; [done|]. split; [done|]. split; [done|]. split; [done|].
          split; [|split; [|done]].
          * intros p Hp. rewrite lookup_insert_ne; [done|].
            intros <-. rewrite Hfree in Hp. by destruct Hp.
          * intros ip [= <-]. by rewrite lookup_insert_eq.
        + exists m1. by repeat split.
      - exists m1. by repeat split. }
    destruct Hidx as (m2 & Hopen & Hrn & Hofn & Houts & Hcl & Hkeep & Hix
                      & Hib2 & Hrest2).
    rewrite Hopen. clearbody m1. cbn [and_then].
    destruct (first_file_inv m2 Hrn Hofn Houts Hcl Hkeep Hix)
      as (m3 & new & Hcall & I3 & Hs3).
    rewrite Hcall. cbn [and_then].
    set (m4 := set_state [start] (set_outbuf [] (print "Reading... " m3))) in *.
    assert (Hs4 : inbuf m4 = c :: chunk /\ infh_rest m4 = rest /\
                  outbuf m4 = []).
    { destruct Hs3 as (Hib3 & Hrest3 & _). rewrite <- Hib2, <- Hrest2.
      subst m4. destruct m3. cbn in *. by rewrite Hib3, Hrest3. }
    destruct Hs4 as (Hib4 & Hrest4 & Hob4).
    destruct (while_inbuf_completes chunk_size a fs n_nonzero chunk_positive
                (S (length (infh_rest m4))) [] [] new m4 I3 Hob4)
      as (mid & olds & cur & Hloop & Imid & Hob & _).
    { by rewrite Hib4. }
    { right. lia. }
    rewrite Hloop. cbn [and_then].
    rewrite Hib4, Hrest4, Hsplit in Imid. cbn [app] in Imid.
    rewrite Hob. cbn [last].
    destruct Imid as [Icore Hlt].
    pose proof (core_outfh _ _ _ _ _ _ Icore) as Hofh.
    rewrite Hofh.
    destruct (flush_inv a fs data olds cur mid (conj Icore Hlt))
      as (mid' & Hw & _ & _ & Hsame).
    rewrite Hofh in Hw. rewrite Hw, (Hsame Hob). cbn [and_then].
    (* the finally block *)
    assert (Hcur_open : cur ∉ closed mid).
    { rewrite (core_closed _ _ _ _ _ _ Icore). intros Hin_olds.
      pose proof (core_nodup _ _ _ _ _ _ Icore) as Hnd.
      rewrite (core_outputs _ _ _ _ _ _ Icore) in Hnd.
      apply NoDup_app in Hnd as (_ & Hdisj & _).
      apply (Hdisj cur Hin_olds). by apply list_elem_of_singleton. }
    assert (Hix_open : forall ip, indexfh mid = Some ip ->
                         (ip ∉ closed mid) /\ ip <> cur).
    { intros ip Hip.
      destruct (core_index _ _ _ _ _ _ Icore ip Hip) as (_ & Hout & _).
      rewrite (core_outputs _ _ _ _ _ _ Icore) in Hout. split.
      - rewrite (core_closed _ _ _ _ _ _ Icore). intros Hin_olds.
        apply Hout, elem_of_app. by left.
      - intros ->. apply Hout, elem_of_app. right.
        by apply list_elem_of_singleton. }
    assert (Hfin : exists closed',
              finally (Ok (print (summary (record_num mid) (output_filenum mid))
                             mid)) (cleanup)
              = Ok (set_closed closed'
                      (print (summary (record_num mid) (output_filenum mid))
                         mid)) /\
              forall p, outfh mid = Some p \/ p ∈ closed mid -> p ∈ closed').
    { clear Hw Hsame Hloop I3 Icore Hlt.
      destruct mid as [rn ofn ofh ifh ib ob' stk' rest' tell' fl cl outs so].
      cbn in Hofh, Hcur_open, Hix_open. subst ofh.
      unfold cleanup, fh_flush, fh_close, print. cbn.
      destruct ifh as [ip|].
      - destruct (Hix_open ip eq_refl) as [Hip_open Hne'].
        rewrite bool_decide_eq_false_2 by done. cbn.
        rewrite bool_decide_eq_false_2; cbn.
        * eexists. split; [reflexivity|].
          intros p [[= <-]|Hp]; apply elem_of_union;
            [left; by apply elem_of_singleton|right].
          apply elem_of_union. by right.
        * intros [Hx%elem_of_singleton|Hx]%elem_of_union; [congruence|done].
      - cbn. rewrite bool_decide_eq_false_2 by done. cbn.
        eexists. split; [reflexivity|].
        intros p [[= <-]|Hp]; apply elem_of_union;
          [left; by apply elem_of_singleton|by right]. }
    destruct Hfin as (closed' & Hfin & Hclosed').
    rewrite Hfin.
    eexists. split; [reflexivity|]. right. split; [done|].
    exists olds, cur, mid. split; [exact (conj Icore Hlt)|].
    split; [done|]. by exists closed'.
Qed.

End Run.

(** What a finished run on a non-empty input leaves behind. *)
Lemma finished_facts n fs data olds cur m' :
  finished n fs data olds cur m' ->
  record_num m' = terminators false data /\
  outputs m' = olds ++ [cur] /\
  output_filenum m' = Z.of_nat (length olds) + 1 /\
  NoDup (outputs m') /\
  (forall p, p ∈ outputs m' ->
     is_Some (files m' !! p) /\ fs !! p = None /\ p ∈ closed m') /\
  (forall p, is_Some (fs !! p) -> files m' !! p = fs !! p) /\
  concat (content m' <$> outputs m') = data /\
  Forall (fun p => whole_records (Z.abs n) (content m' p)) olds /\
  terminators false (content m' cur) < Z.abs n /\
  terminators false data
  = Z.abs n * Z.of_nat (length olds) + terminators false (content m' cur) /\
  quoted false (content m' cur) = quoted false data /\
  exists printed,
    stdout m' = printed +:+ summary (record_num m') (output_filenum m').
Proof.
  intros (mid & [I Hlt] & Hob & (closed' & -> & Hcl)).
  destruct (core_decompose _ _ _ _ _ _ I) as [Hq Ht].
  destruct I as [Hst Hpar Hcnt Houts Hofh Hnum Hnd Hex Hfr Hclo Hix Hkeep Hcat Hbl].
  destruct mid as [rn ofn ofh ifh ib ob stk rest tell fl cl outs so].
  unfold content in *. cbn in *. subst ob ofh outs.
  rewrite app_nil_r in *.
  split; [done|]. split; [done|].
  split; [rewrite Hnum, length_app; cbn; lia|].
  split; [done|]. split.
  { intros p Hp. split; [by apply Hex|]. split; [by apply Hfr|].
    apply elem_of_app in Hp as [Hp|Hp].
    - apply Hcl. right. by apply Hclo.
    - apply list_elem_of_singleton in Hp as ->. apply Hcl. by left. }
  split; [done|]. split; [done|]. split; [done|]. split; [done|].
  split; [done|]. split; [done|]. by eexists.
Qed.

Lemma read_size_positive : 0 < read_size.
Proof. reflexivity. Qed.

(** The program itself, with its chunks of [read_size] bytes. *)
Lemma run_as_script_completes `{OsPath} (a : args)
    (fs : gmap string (list byte)) (data : list byte) :
  num_per_split a <> 0 ->
  fs !! input_csv a = Some data ->
  index_taken a fs = false ->
  exists m',
    run_as_script a fs = Ok m' /\
    ((data = [] /\ outputs m' = [] /\ files m' = fs /\
      record_num m' = 0 /\ output_filenum m' = 1 /\
      stdout m' = summary 0 1)
     \/
     (data <> [] /\
      exists olds cur, finished (num_per_split a) fs data olds cur m')).
Proof.
  intros Hn Hin Hidx. unfold run_as_script.
  apply run_completes; auto using read_size_positive.
Qed.

(** In every run the counter that is reported is the number of line
    feeds outside quotes: the branch at line 144 that should count an
    unterminated last record finds the buffer empty. *)
Lemma reported_count `{OsPath} (a : args) (fs : gmap string (list byte))
    (data : list byte) :
  num_per_split a <> 0 ->
  fs !! input_csv a = Some data ->
  index_taken a fs = false ->
  exists m' printed,
    run_as_script a fs = Ok m' /\
    record_num m' = terminators false data /\
    stdout m' = printed +:+ summary (record_num m') (output_filenum m').
Proof.
  intros Hn Hin Hidx.
  destruct (run_as_script_completes a fs data Hn Hin Hidx)
    as (m' & Hrun & [(-> & _ & _ & Hrn & Hofn & Hso)|(_ & olds & cur & Hfin)]).
  - exists m', "". rewrite Hrn, Hofn. by repeat split.
  - apply finished_facts in Hfin
      as (Hrn & _ & _ & _ & _ & _ & _ & _ & _ & _ & _ & printed & Hso).
    by exists m', printed.
Qed.

(** Nothing that existed before the run is changed by it. *)
Lemma run_keeps_files `{OsPath} (a : args) (fs : gmap string (list byte))
    (data : list byte) :
  num_per_split a <> 0 ->
  fs !! input_csv a = Some data ->
  index_taken a fs = false ->
  exists m',
    run_as_script a fs = Ok m' /\
    forall p, is_Some (fs !! p) -> files m' !! p = fs !! p.
Proof.
  intros Hn Hin Hidx.
  destruct (run_as_script_completes a fs data Hn Hin Hidx)
    as (m' & Hrun & [(_ & _ & Hfiles & _)|(_ & olds & cur & Hfin)]).
  - exists m'. by rewrite Hfiles.
  - apply finished_facts in Hfin as (_ & _ & _ & _ & _ & Hkeep & _).
    by exists m'.
Qed.

(** ** Reconstruction *)

(** C1.  Whenever the input can be read, the split size is not zero
    and no index path is in the way, the program returns normally and
    the split files it created, concatenated in the order of their
    creation, are the input, byte for byte.  The files are pairwise
    distinct and new: none of them existed before the run. *)
Theorem split_files_concatenate_to_input `{OsPath} (a : args)
    (fs : gmap string (list byte)) (data : list byte) :
  num_per_split a <> 0 ->
  fs !! input_csv a = Some data ->
  index_taken a fs = false ->
  exists m',
    run_as_script a fs = Ok m' /\
    concat (content m' <$> outputs m') = data /\
    NoDup (outputs m') /\
    forall p, p ∈ outputs m' -> fs !! p = None /\ is_Some (files m' !! p).
Proof.
  intros Hn Hin Hidx.
  destruct (run_as_script_completes a fs data Hn Hin Hidx)
    as (m' & Hrun & [(-> & Houts & _)|(_ & olds & cur & Hfin)]).
  - exists m'. rewrite Houts. split; [done|]. split; [done|].
    split; [apply NoDup_nil_2|]. intros p Hp. by apply not_elem_of_nil in Hp.
  - apply finished_facts in Hfin
      as (_ & _ & _ & Hnd & Hnew & _ & Hcat & _).
    exists m'. repeat split; try done; by apply Hnew.
Qed.

Lemma split_files_concatenate_to_input_witness :
  exists m',
    run_as_script (Sample.plain 1) (Sample.only Sample.two_records) = Ok m' /\
    concat (content m' <$> outputs m') = Sample.two_records /\
    NoDup (outputs m') /\
    forall p, p ∈ outputs m' ->
      Sample.only Sample.two_records !! p = None /\ is_Some (files m' !! p).
Proof.
  apply (split_files_concatenate_to_input (Sample.plain 1)
           (Sample.only Sample.two_records) Sample.two_records);
    [discriminate | reflexivity | reflexivity].
Defined.

(** ** The record counter *)

(** C2.  On the one-byte input [a], which does not end with a line
    feed, the program reports zero records: the unterminated record is
    not counted.  When line 144 tests it, [outbuf] has just been
    emptied by line 141 (or never filled), whatever the input
    ([reported_count]). *)
Theorem unterminated_record_not_counted :
  exists m',
    run_as_script (Sample.plain 100000) (Sample.only Sample.unterminated)
    = Ok m' /\
    last Sample.unterminated = Some x61 /\
    terminators false Sample.unterminated = 0 /\
    record_num m' = 0 /\
    stdout m' = "Reading... " +:+ summary 0 1.
Proof.
  eexists. split; [vm_compute; reflexivity|]. by vm_compute.
Qed.

(** ** The index *)

(** C3.  On the two-byte input [a], line feed, split by one with an
    index, the only index entry is for record 1 with the offset
    -1048572, while the byte after the line feed is at offset 2: the
    chunk is [read_size - 2] bytes short of [read_size], and line 129
    takes [read_size] off [infh.tell()] all the same. *)
Theorem index_offset_wrong_in_short_chunk :
  exists m',
    run_as_script (Sample.indexed 1) (Sample.only Sample.one_record) = Ok m' /\
    Sample.one_record !! 1%nat = Some LF /\
    content m' "in.idx" = index_line 1 (2 - (read_size - 2)) /\
    2 - (read_size - 2) = -1048572 /\
    content m' "in.idx" <> index_line 1 2.
Proof.
  eexists. split; [vm_compute; reflexivity|]. by vm_compute.
Qed.

(** With chunks of three bytes on an eight-byte input of four records:
    the entry for record 2, written in the full second chunk, is the
    offset 4 of the byte after its line feed; the entry for record 4,
    written in the last chunk of two bytes, is 7, one short of 8. *)
Example index_offset_by_chunk :
  exists m',
    run 3 (Sample.indexed 2)
      (Sample.only (Sample.bytes ("a" +:+ NL +:+ "b" +:+ NL +:+ "c" +:+ NL
                                  +:+ "d" +:+ NL)))
    = Ok m' /\
    content m' "in.idx" = index_line 2 4 ++ index_line 4 7.
Proof. eexists. split; [vm_compute; reflexivity|]. by vm_compute. Qed.

(** ** Quote escaping *)

(** C5.  The seven bytes of the quoted field with an escaped quote,
    read from the initial stack, give one record end, at the line
    feed; the first quote of the pair leaves ["endquote"] pending and
    the second puts the scanner back inside the field; the stack after
    the line feed is the initial one.  The program reports one
    record. *)
Theorem escaped_quote_is_one_record :
  scan_trace [start] Sample.escaped
  = Some [([start; inquote], false);
          ([start; inquote], false);
          ([start; inquote; endquote], false);
          ([start; inquote], false);
          ([start; inquote], false);
          ([start; inquote; endquote], false);
          ([start], true)] /\
  scan_bytes [start] Sample.escaped = Some ([start], 1) /\
  exists m',
    run_as_script (Sample.plain 100000) (Sample.only Sample.escaped) = Ok m' /\
    record_num m' = 1 /\ state m' = [start].
Proof.
  split; [reflexivity|]. split; [reflexivity|].
  eexists. split; [vm_compute; reflexivity|]. by vm_compute.
Qed.

(** ** Safety of the stack *)

Lemma settled_well_formed s : settled s -> well_formed s.
Proof.
  destruct 1; repeat split; cbn; try lia; try discriminate; congruence.
Qed.

Lemma resolved_well_formed s : resolved s -> well_formed s.
Proof.
  destruct 1; repeat split; cbn; try lia; try discriminate; congruence.
Qed.

(** C9.  After any bytes [pre] read from the initial stack, and for
    any next byte, every read of the top and every pop is defined:
    the two halves of the step return, and the stack before, between
    and after them is well formed (not empty, ["start"] at the bottom,
    at most three deep, ["endquote"] only directly above
    ["inquote"]).  When ["endquote"] is on top there are two elements
    to pop, the second being ["inquote"], which leaves a well-formed
    stack. *)
Theorem stack_never_underflows (pre : list byte) (char : byte) :
  exists s k s1 s' e,
    scan_bytes [start] pre = Some (s, k) /\ well_formed s /\
    resolve s char = Some s1 /\ well_formed s1 /\
    classify s1 char = Some (s', e) /\ well_formed s' /\
    (Stack.top s = Some endquote ->
     exists s2 s3,
       Stack.pop s = Some s2 /\ Stack.top s2 = Some inquote /\
       Stack.pop s2 = Some s3 /\ well_formed s3).
Proof.
  destruct (scan_bytes_settled pre [start] settled_start)
    as (s & Hscan & Hs & _).
  destruct (scan_settled s char Hs) as (s1 & s' & Hres & Hs1 & Hstep & Hs' & _).
  exists s, (terminators false pre), s1, s',
    (negb (open_quote s) && Byte.eqb char LF).
  split; [exact Hscan|]. split; [by apply settled_well_formed|].
  split; [exact Hres|]. split; [by apply resolved_well_formed|].
  split; [|split; [by apply settled_well_formed|]].
  - unfold scan in Hstep. by rewrite Hres in Hstep.
  - destruct Hs; cbn; try discriminate. intros _.
    exists [start; inquote], [start].
    repeat split; cbn; try lia; try discriminate; congruence.
Qed.

(** ** No overwrite *)

(** C7.  For every input path, output directory, sequence number and
    file system, [next_outfile] returns: the handle is a path that did
    not exist, created empty, and every file that existed is left as
    it was.  The path is the first free one among the initial path and
    the names with the retry count 1, 2, ... put before the extension
    of the initial path.  The initial path is the base of the input
    path, an underscore, the number padded to six digits and the
    extension, beside the input or, with the base of the file name,
    in the output directory. *)
Theorem next_outfile_never_overwrites `{OsPath} (input_path : string)
    (output_dir : option string) (counter : Z)
    (fs : gmap string (list byte)) :
  exists (k : nat) (path : string) (fs' : gmap string (list byte)),
    next_outfile input_path output_dir counter 6 fs = Some (path, fs') /\
    fs !! path = None /\
    fs' = <[path := []]> fs /\
    (forall q, is_Some (fs !! q) -> fs' !! q = fs !! q) /\
    path = candidate (initial_output_path input_path output_dir counter 6)
             (Z.of_nat k) /\
    (forall j : nat, (j < k)%nat ->
       is_Some (fs !! candidate
                  (initial_output_path input_path output_dir counter 6)
                  (Z.of_nat j))) /\
    (forall initial, candidate initial 0 = initial) /\
    (forall initial (j : nat),
       candidate initial (Z.of_nat (S j))
       = (path_splitext initial).1 +:+ "_" +:+ pretty (Z.of_nat (S j))
         +:+ (path_splitext initial).2) /\
    (given output_dir = false ->
     initial_output_path input_path output_dir counter 6
     = (path_splitext input_path).1 +:+ "_" +:+ zero_padded counter 6
       +:+ (path_splitext input_path).2) /\
    (forall dir, output_dir = Some dir -> given output_dir = true ->
     initial_output_path input_path output_dir counter 6
     = path_join dir
         ((path_splitext (path_split input_path).2).1 +:+ "_"
          +:+ zero_padded counter 6
          +:+ (path_splitext (path_split input_path).2).2)).
Proof.
  destruct (next_outfile_creates input_path output_dir counter 6 fs)
    as (k & path & Hnext & Hpath & Hnone & Hbelow).
  exists k, path, (<[path := []]> fs).
  split; [done|]. split; [done|]. split; [done|]. split.
  { intros q Hq. rewrite lookup_insert_ne; [done|].
    intros <-. rewrite Hnone in Hq. by destruct Hq. }
  split; [done|]. split; [done|]. split; [done|]. split.
  - intros initial j. replace (Z.of_nat (S j)) with (Z.of_nat j + 1) by lia.
    by rewrite candidate_succ.
  - split.
    + intros Hg. unfold initial_output_path. rewrite Hg.
      destruct (path_splitext input_path); by destruct output_dir.
    + intros dir -> Hg. unfold initial_output_path. rewrite Hg.
      destruct (path_split input_path) as [d f]. cbn.
      by destruct (path_splitext f).
Qed.

Example zero_padded_to_six :
  zero_padded 1 6 = "000001" /\ zero_padded 123456 6 = "123456" /\
  zero_padded 1234567 6 = "1234567".
Proof. by vm_compute. Qed.

Example next_outfile_skips_taken_names :
  fst <$> next_outfile "dir/data.csv" (Some "out") 7 6
            (<["out/data_000007.csv" := []]>
               (<["out/data_000007_1.csv" := [x61]]> ∅))
  = Some "out/data_000007_2.csv".
Proof. reflexivity. Qed.

(** ** The index path is taken *)

(** C8.  On a non-empty input, when an index is asked for at a path
    where a file exists, the run ends with [FileExistsError]; no split
    file has been created, nothing has been written or printed, and
    the file system, the file at the index path included, is as it
    was. *)
Theorem existing_index_aborts_run `{OsPath} (a : args)
    (fs : gmap string (list byte)) (data : list byte) :
  fs !! input_csv a = Some data ->
  data <> [] ->
  index_taken a fs = true ->
  exists m',
    run_as_script a fs = Raise FileExistsError m' /\
    files m' = fs /\ outputs m' = [] /\ outfh m' = None /\
    indexfh m' = None /\ stdout m' = "".
Proof.
  intros Hin Hne Hidx. unfold run_as_script, run, body. rewrite Hin.
  destruct data as [|c data]; [done|].
  assert (Hk : exists k, Z.to_nat read_size = S k).
  { exists (Z.to_nat read_size - 1)%nat. pose proof read_size_positive. lia. }
  destruct Hk as [k Hk].
  unfold infh_read, boot. machine_simpl. rewrite Hk. cbn.
  unfold index_taken in Hidx.
  destruct (generate_index a) as [path|]; [|done].
  apply andb_true_iff in Hidx as [Hg Htaken]. rewrite Hg.
  apply bool_decide_eq_true in Htaken. destruct Htaken as [old Hold].
  unfold open_x. rewrite Hold. cbn.
  eexists. split; [reflexivity|]. done.
Qed.

Lemma existing_index_aborts_run_witness :
  exists m',
    run_as_script (Sample.indexed 2)
      (<["in.idx" := Sample.bytes "old"]> (Sample.only Sample.two_records))
    = Raise FileExistsError m' /\
    files m'
    = <["in.idx" := Sample.bytes "old"]> (Sample.only Sample.two_records) /\
    outputs m' = [] /\ outfh m' = None /\ indexfh m' = None /\ stdout m' = "".
Proof.
  apply (existing_index_aborts_run (Sample.indexed 2)
           (<["in.idx" := Sample.bytes "old"]>
              (Sample.only Sample.two_records))
           Sample.two_records);
    [reflexivity | discriminate | reflexivity].
Defined.

(** ** Record ends and quoting *)

Lemma scan_bytes_app (l1 l2 : list byte) :
  forall s,
    scan_bytes s (l1 ++ l2)
    = match scan_bytes s l1 with
      | Some (s1, k1) =>
          match scan_bytes s1 l2 with
          | Some (s2, k2) => Some (s2, k1 + k2)
          | None => None
          end
      | None => None
      end.
Proof.
  induction l1 as [|c l1 IH]; intros s; cbn.
  - destruct (scan_bytes s l2) as [[s2 k2]|]; [|done]. by rewrite Z.add_0_l.
  - destruct (scan s c) as [[s1 e]|]; [|done]. rewrite IH.
    destruct (scan_bytes s1 l1) as [[s1' k1]|]; [|done].
    destruct (scan_bytes s1' l2) as [[s2 k2]|]; [|done].
    by rewrite Z.add_assoc.
Qed.

(** A whole number of records, read from the initial stack, ends on
    the initial stack. *)
Lemma whole_records_end_at_start (k : Z) (l : list byte) :
  whole_records k l -> scan_bytes [start] l = Some ([start], k).
Proof.
  intros [Hk (l' & -> & Hq)].
  rewrite scan_bytes_app.
  destruct (scan_bytes_settled l' [start] settled_start) as (s & -> & Hs & Hpar).
  change (open_quote [start]) with false in *. rewrite Hq in Hpar.
  rewrite terminators_app, Hq in Hk. cbn in Hk.
  destruct Hs; [| discriminate |]; cbn; do 2 f_equal; lia.
Qed.

Lemma and_then_Ok o k m' :
  and_then o k = Ok m' -> exists m1, o = Ok m1 /\ k m1 = Ok m'.
Proof. destruct o as [m1|e m1]; [|done]. intros Hk. by exists m1. Qed.

Lemma fh_write_count fh data m m' :
  fh_write fh data m = Ok m' -> record_num m' = record_num m.
Proof.
  unfold fh_write. destruct fh; [|done]. case_bool_decide; [done|].
  intros [= <-]. by destruct m.
Qed.

Lemma rotate_count `{OsPath} chunk_size a index m m' :
  rotate chunk_size a index m = Ok m' -> record_num m' = record_num m.
Proof.
  unfold rotate, switch_file. intros Hrot.
  apply and_then_Ok in Hrot as (m1 & Hix & Hrot).
  assert (record_num m1 = record_num m) as <-.
  { destruct (indexfh m); [by eapply fh_write_count | by injection Hix as <-]. }
  apply and_then_Ok in Hrot as (m2 & Hw & Hrot).
  apply fh_write_count in Hw as <-.
  apply and_then_Ok in Hrot as (m3 & Hfl & Hrot).
  apply and_then_Ok in Hrot as (m4 & Hcl & Hrot).
  revert Hfl Hcl Hrot. unfold fh_flush, fh_close, call_next_outfile.
  destruct m2 as [rn ofn [cur|] ifh ib ob stk rest tell fl cl outs so];
    machine_simpl; [|done].
  case_bool_decide; [done|]. intros [= <-] [= <-]. cbn.
  destruct (next_outfile _ _ _ _ _) as [[path fs']|]; [|done].
  by intros [= <-].
Qed.

(** If [process_byte] returns, the counter has moved by one exactly
    when the state machine flagged a record end. *)
Lemma process_byte_count `{OsPath} chunk_size a index c m m' :
  process_byte chunk_size a index c m = Ok m' ->
  exists s' e,
    scan (state m) c = Some (s', e) /\
    record_num m' = record_num m + (if e then 1 else 0).
Proof.
  destruct (scan (state m) c) as [[s' e]|] eqn:Hscan.
  - rewrite (process_byte_unfold _ _ _ _ _ _ _ Hscan).
    intros Hstep. exists s', e. split; [done|].
    destruct e.
    + destruct (num_per_split a =? 0); [done|].
      destruct (_ =? 0).
      * apply rotate_count in Hstep. rewrite Hstep. by destruct m.
      * injection Hstep as <-. by destruct m.
    + injection Hstep as <-. by destruct m.
  - unfold process_byte. destruct m. cbn in *. by rewrite Hscan.
Qed.

(** A line feed inside a quoted field that straddles two chunks of
    three bytes is not a record end: one record, in one file. *)
Example quoted_line_feed_across_chunks :
  exists m',
    run 3 (Sample.plain 1)
      (Sample.only [x22; x61; x0a; x62; x22; x0a]) = Ok m' /\
    record_num m' = 1 /\
    content m' "in_000001.csv" = [x22; x61; x0a; x62; x22; x0a] /\
    outputs m' = ["in_000001.csv"; "in_000002.csv"].
Proof. eexists. split; [vm_compute; reflexivity|]. by vm_compute. Qed.

(** C4.  (1) After any bytes read from the initial stack, the state
    machine flags the next byte as a record end if and only if it is a
    line feed and ["start"] is on top of the stack once a pending
    ["endquote"] has been resolved.  (2) A step of the main loop that
    returns has added one to the record counter if the byte was
    flagged and left it alone otherwise.  (3) The run completes, and
    the record counter it ends with is the number of bytes the state
    machine flags when it reads the whole input from the initial
    stack, which is the number of line feeds outside quotes of the
    input; a non-empty input gives at least one split file; every
    split file but the last, read alone from the initial stack, ends
    on the initial stack and holds an even number of double quotes,
    and so does the input up to any split boundary. *)
Theorem record_ends_only_outside_quotes `{OsPath} (a : args)
    (fs : gmap string (list byte)) (data : list byte) :
  num_per_split a <> 0 ->
  fs !! input_csv a = Some data ->
  index_taken a fs = false ->
  (forall pre c,
     exists s k s1 s' e,
       scan_bytes [start] pre = Some (s, k) /\
       resolve s c = Some s1 /\
       scan s c = Some (s', e) /\
       (e = true <-> c = LF /\ Stack.top s1 = Some start)) /\
  (forall index c m m',
     process_byte read_size a index c m = Ok m' ->
     exists s' e,
       scan (state m) c = Some (s', e) /\
       record_num m' = record_num m + (if e then 1 else 0)) /\
  exists m',
    run_as_script a fs = Ok m' /\
    record_num m' = terminators false data /\
    (exists s, scan_bytes [start] data = Some (s, record_num m')) /\
    (data <> [] -> exists olds cur, outputs m' = olds ++ [cur]) /\
    forall olds cur,
      outputs m' = olds ++ [cur] ->
      Forall (fun p =>
                (exists k, scan_bytes [start] (content m' p) = Some ([start], k))
                /\ quoted false (content m' p) = false) olds /\
      forall i : nat,
        exists rest,
          data = concat (content m' <$> take i olds) ++ rest /\
          quoted false (concat (content m' <$> take i olds)) = false.
Proof.
  intros Hn Hin Hidx. split; [|split].
  - intros pre c.
    destruct (scan_bytes_settled pre [start] settled_start)
      as (s & Hscan & Hs & _).
    destruct (scan_settled s c Hs) as (s1 & s' & Hres & _ & Hstep & _ & _ & Hiff).
    by exists s, (terminators false pre), s1, s',
         (negb (open_quote s) && Byte.eqb c LF).
  - intros index c m m'. apply process_byte_count.
  - destruct (scan_bytes_settled data [start] settled_start)
      as (s & Hscan & _).
    change (open_quote [start]) with false in Hscan.
    destruct (run_as_script_completes a fs data Hn Hin Hidx)
      as (m' & Hrun & [(-> & Houts & _ & Hrn & _)|(_ & olds0 & cur0 & Hfin)]).
    + exists m'. split; [done|]. split; [done|].
      split; [exists s; by rewrite Hrn|]. split; [done|].
      intros olds cur Ho. rewrite Houts in Ho.
      by destruct olds.
    + apply finished_facts in Hfin
        as (Hrn & Houts & _ & _ & _ & _ & Hcat & Hbl & _).
      exists m'. split; [done|]. split; [done|].
      split; [exists s; by rewrite Hrn|].
      split; [intros _; by exists olds0, cur0|].
      intros olds cur Ho.
      rewrite Houts in Ho. apply app_inj_tail in Ho as [<- <-].
      split.
      * eapply Forall_impl; [exact Hbl|]. cbn. intros p Hp. split.
        -- eexists. by apply whole_records_end_at_start.
        -- by eapply whole_records_closed.
      * intros i.
        exists (concat (content m' <$> drop i olds0) ++ content m' cur0).
        split.
        -- rewrite <- Hcat, Houts, app_assoc, <- concat_app, <- fmap_app,
             take_drop, fmap_app, concat_app. cbn. by rewrite app_nil_r.
        -- eapply whole_records_concat, Forall_fmap, Forall_take. exact Hbl.
Qed.

Lemma record_ends_only_outside_quotes_witness :
  (forall pre c,
     exists s k s1 s' e,
       scan_bytes [start] pre = Some (s, k) /\
       resolve s c = Some s1 /\
       scan s c = Some (s', e) /\
       (e = true <-> c = LF /\ Stack.top s1 = Some start)) /\
  (forall index c m m',
     process_byte read_size (Sample.plain 1) index c m = Ok m' ->
     exists s' e,
       scan (state m) c = Some (s', e) /\
       record_num m' = record_num m + (if e then 1 else 0)) /\
  exists m',
    run_as_script (Sample.plain 1) (Sample.only Sample.two_records) = Ok m' /\
    record_num m' = terminators false Sample.two_records /\
    (exists s, scan_bytes [start] Sample.two_records
               = Some (s, record_num m')) /\
    (Sample.two_records <> [] ->
     exists olds cur, outputs m' = olds ++ [cur]) /\
    forall olds cur,
      outputs m' = olds ++ [cur] ->
      Forall (fun p =>
                (exists k, scan_bytes [start] (content m' p) = Some ([start], k))
                /\ quoted false (content m' p) = false) olds /\
      forall i : nat,
        exists rest,
          Sample.two_records = concat (content m' <$> take i olds) ++ rest /\
          quoted false (concat (content m' <$> take i olds)) = false.
Proof.
  apply (record_ends_only_outside_quotes (Sample.plain 1)
           (Sample.only Sample.two_records) Sample.two_records);
    [discriminate | reflexivity | reflexivity].
Defined.

(** ** Rotation *)

(** What lines 131-139 do to an open file. *)
Lemma switch_file_does `{OsPath} a m cur :
  outfh m = Some cur ->
  cur ∉ closed m ->
  exists m' new,
    switch_file a m = Ok m' /\
    outbuf m' = [] /\
    content m' cur = content m cur ++ outbuf m /\
    cur ∈ closed m' /\
    outfh m' = Some new /\
    new <> cur /\
    files m !! new = None /\
    files m' !! new = Some [] /\
    outputs m' = outputs m ++ [new] /\
    output_filenum m' = output_filenum m + 1.
Proof.
  intros Hofh Hopen.
  destruct m as [rn ofn ofh ifh ib ob stk rest tell fl cl outs so].
  cbn in Hofh, Hopen. subst ofh.
  unfold switch_file, fh_write, fh_flush, fh_close, call_next_outfile.
  machine_simpl.
  rewrite bool_decide_eq_false_2 by done. cbn.
  rewrite bool_decide_eq_false_2 by done. cbn.
  destruct (next_outfile_creates (input_csv a) (output_dir a) (ofn + 1) 6
              (<[cur:=fl !!! cur ++ ob]> fl))
    as (k & new & Hnext & _ & Hnone & _).
  rewrite Hnext.
  assert (Hnc : new <> cur).
  { intros ->. by rewrite lookup_insert_eq in Hnone. }
  rewrite lookup_insert_ne in Hnone by done.
  eexists _, new. split; [reflexivity|]. cbn.
  rewrite lookup_total_insert_ne, lookup_total_insert_eq by done.
  rewrite lookup_insert_eq.
  split; [done|]. split; [done|]. split.
  { apply elem_of_union. left. by apply elem_of_singleton. }
  done.
Qed.

(** The step for a byte that ends the last record of a split file: on
    return the buffer has gone to the file and is empty, the file is
    closed, and a file that did not exist is open and empty. *)
Lemma process_byte_rotates `{OsPath} chunk_size a index c m cur s' :
  num_per_split a <> 0 ->
  scan (state m) c = Some (s', true) ->
  (record_num m + 1) mod num_per_split a = 0 ->
  outfh m = Some cur ->
  cur ∉ closed m ->
  (forall ip, indexfh m = Some ip -> (ip ∉ closed m) /\ ip <> cur) ->
  exists m' new,
    process_byte chunk_size a index c m = Ok m' /\
    outbuf m' = [] /\
    content m' cur = content m cur ++ outbuf m ++ [c] /\
    cur ∈ closed m' /\
    outfh m' = Some new /\
    new <> cur /\
    files m !! new = None /\
    files m' !! new = Some [] /\
    outputs m' = outputs m ++ [new] /\
    output_filenum m' = output_filenum m + 1.
Proof.
  intros Hn Hscan Hmod Hofh Hopen Hix.
  rewrite (process_byte_unfold _ _ _ _ _ _ _ Hscan). clear Hscan.
  destruct (Z.eqb_spec (num_per_split a) 0) as [?|_]; [done|].
  destruct m as [rn ofn ofh ifh ib ob stk rest tell fl cl outs so].
  cbn in Hmod, Hofh, Hopen, Hix. subst ofh.
  unfold appended, rotate. cbn. rewrite Hmod. cbn.
  destruct ifh as [ip|].
  - destruct (Hix ip eq_refl) as [Hip Hne].
    unfold fh_write at 1. cbn.
    rewrite bool_decide_eq_false_2 by done. cbn [and_then].
    edestruct (switch_file_does a) with (cur := cur)
      as (m' & new & Hsw & Hob & Hcur & Hcl & Hofh & Hnc & Hnone & Hnew
          & Houts & Hofn); [| |rewrite Hsw].
    + reflexivity.
    + done.
    + unfold content in *. cbn in *.
      rewrite lookup_total_insert_ne in Hcur by done.
      exists m', new. split; [done|]. split; [done|].
      split; [by rewrite Hcur|]. split; [done|]. split; [done|].
      split; [done|]. split; [|done].
      destruct (decide (ip = new)) as [->|?];
        [by rewrite lookup_insert_eq in Hnone
        |by rewrite lookup_insert_ne in Hnone].
  - cbn [and_then].
    edestruct (switch_file_does a) with (cur := cur)
      as (m' & new & Hsw & Hob & Hcur & Hcl & Hofh & Hnc & Hnone & Hnew
          & Houts & Hofn); [| |rewrite Hsw].
    + reflexivity.
    + done.
    + exists m', new. done.
Qed.

(** C6.  For a positive split size, when the run completes: every
    split file but the last is closed and is exactly [num_per_split]
    whole records (as many line feeds outside quotes, the last byte
    being one of them); the last file holds fewer than [num_per_split]
    line feeds outside quotes and is the rest of the input after the
    last boundary, at which no quoted field is open; an empty input
    gives no file, and a non-empty input gives at least one, so that
    all of this is said of files the run did create.  And the step
    for a byte that ends the last record
    of a split file returns only when the rotation is done: the
    buffer, this byte included, is in the file and empty, the file is
    closed, the next file is created, empty and open, and the file
    number is one up. *)
Theorem split_files_hold_whole_records `{OsPath} (a : args)
    (fs : gmap string (list byte)) (data : list byte) :
  0 < num_per_split a ->
  fs !! input_csv a = Some data ->
  index_taken a fs = false ->
  (exists m',
     run_as_script a fs = Ok m' /\
     (data = [] -> outputs m' = []) /\
     (data <> [] -> exists olds cur, outputs m' = olds ++ [cur]) /\
     forall olds cur,
       outputs m' = olds ++ [cur] ->
       Forall (fun p => whole_records (num_per_split a) (content m' p)
                        /\ p ∈ closed m') olds /\
       0 <= terminators false (content m' cur) < num_per_split a /\
       data = concat (content m' <$> olds) ++ content m' cur /\
       quoted false (concat (content m' <$> olds)) = false) /\
  (forall index c m cur s',
     scan (state m) c = Some (s', true) ->
     (record_num m + 1) mod num_per_split a = 0 ->
     outfh m = Some cur ->
     cur ∉ closed m ->
     (forall ip, indexfh m = Some ip -> (ip ∉ closed m) /\ ip <> cur) ->
     exists m' new,
       process_byte read_size a index c m = Ok m' /\
       outbuf m' = [] /\
       content m' cur = content m cur ++ outbuf m ++ [c] /\
       cur ∈ closed m' /\
       outfh m' = Some new /\
       new <> cur /\
       files m !! new = None /\
       files m' !! new = Some [] /\
       outputs m' = outputs m ++ [new] /\
       output_filenum m' = output_filenum m + 1).
Proof.
  intros Hn Hin Hidx.
  assert (Hn0 : num_per_split a <> 0) by lia.
  split; [|intros index c m cur s'; by apply process_byte_rotates].
  destruct (run_as_script_completes a fs data Hn0 Hin Hidx)
    as (m' & Hrun & [(-> & Houts & _)|(Hne & olds0 & cur0 & Hfin)]).
  - exists m'. split; [done|]. split; [done|]. split; [done|].
    intros olds cur Ho.
    rewrite Houts in Ho. by destruct olds.
  - apply finished_facts in Hfin
      as (_ & Houts & _ & _ & Hnew & _ & Hcat & Hbl & Hlt & _).
    rewrite Z.abs_eq in * by lia.
    exists m'. split; [done|]. split; [done|].
    split; [intros _; by exists olds0, cur0|].
    intros olds cur Ho.
    rewrite Houts in Ho. apply app_inj_tail in Ho as [<- <-].
    split; [|split; [|split]].
    + apply Forall_forall. intros p Hp. split.
      * by eapply Forall_forall in Hbl.
      * apply Hnew. rewrite Houts. apply elem_of_app. by left.
    + pose proof (terminators_nonneg false (content m' cur0)). lia.
    + rewrite <- Hcat, Houts, fmap_app, concat_app. cbn.
      by rewrite app_nil_r.
    + eapply whole_records_concat, Forall_fmap. exact Hbl.
Qed.

Lemma split_files_hold_whole_records_witness :
  0 < num_per_split (Sample.plain 1) /\
  exists m',
    run_as_script (Sample.plain 1) (Sample.only Sample.two_records) = Ok m' /\
    (exists olds cur, outputs m' = olds ++ [cur]) /\
    forall olds cur,
      outputs m' = olds ++ [cur] ->
      Forall (fun p => whole_records 1 (content m' p) /\ p ∈ closed m') olds /\
      0 <= terminators false (content m' cur) < 1.
Proof.
  split; [reflexivity|].
  destruct (split_files_hold_whole_records (Sample.plain 1)
              (Sample.only Sample.two_records) Sample.two_records)
    as [(m' & Hrun & _ & Hsome & Hfiles) _];
    [reflexivity | reflexivity | reflexivity |].
  exists m'. split; [exact Hrun|].
  split; [apply Hsome; discriminate|]. intros olds cur Ho.
  destruct (Hfiles olds cur Ho) as (Hbl & Hlt & _). by split.
Defined.

(** The premises of the rotation step hold at [Sample.midway], and the
    step there does what the theorem says. *)
Example rotation_at_midway :
  scan (state Sample.midway) LF = Some ([start], true) /\
  (record_num Sample.midway + 1) mod num_per_split (Sample.plain 1) = 0 /\
  exists m',
    process_byte read_size (Sample.plain 1) 3 LF Sample.midway = Ok m' /\
    outbuf m' = [] /\
    content m' "in_000001.csv" = Sample.bytes ("a,b" +:+ NL) /\
    elements (closed m') = ["in_000001.csv"] /\
    outfh m' = Some "in_000002.csv" /\
    content m' "in_000002.csv" = [] /\
    output_filenum m' = 2.
Proof.
  split; [reflexivity|]. split; [reflexivity|].
  eexists. split; [vm_compute; reflexivity|]. by vm_compute.
Qed.

(** ** The empty last file *)

(** C10.  For a positive split size and an input that ends with a line
    feed outside quotes and whose number of such line feeds is a
    multiple of [num_per_split]: the run completes, one split file per
    [num_per_split] records is followed by one more, which did not
    exist before, and is empty at the end; the file count that is
    reported includes it. *)
Theorem empty_file_after_last_rotation `{OsPath} (a : args)
    (fs : gmap string (list byte)) (data body : list byte) :
  0 < num_per_split a ->
  fs !! input_csv a = Some data ->
  index_taken a fs = false ->
  data = body ++ [LF] ->
  quoted false body = false ->
  terminators false data mod num_per_split a = 0 ->
  exists m' olds extra printed,
    run_as_script a fs = Ok m' /\
    outputs m' = olds ++ [extra] /\
    Z.of_nat (length olds) = terminators false data / num_per_split a /\
    0 < Z.of_nat (length olds) /\
    fs !! extra = None /\
    files m' !! extra = Some [] /\
    output_filenum m' = Z.of_nat (length olds) + 1 /\
    stdout m' = printed +:+ summary (record_num m') (output_filenum m').
Proof.
  intros Hn Hin Hidx Hdata Hq Hmod.
  assert (Hn0 : num_per_split a <> 0) by lia.
  destruct (run_as_script_completes a fs data Hn0 Hin Hidx)
    as (m' & Hrun & [(-> & _)|(Hne & olds & cur & Hfin)]).
  { by destruct body. }
  apply finished_facts in Hfin
    as (Hrn & Houts & Hofn & _ & Hnew & _ & Hcat & Hbl & Hlt & Ht & _ & printed & Hso).
  rewrite Z.abs_eq in * by lia.
  pose proof (terminators_nonneg false (content m' cur)) as Hge.
  assert (Hr : terminators false (content m' cur) = 0).
  { rewrite Ht in Hmod.
    rewrite Z.add_comm, Z.mul_comm, Z.mod_add in Hmod by done.
    rewrite Z.mod_small in Hmod by lia. done. }
  assert (Hlen : Z.of_nat (length olds)
                 = terminators false data / num_per_split a).
  { rewrite Ht, Hr, Z.add_0_r, Z.mul_comm, Z.div_mul by done. done. }
  assert (Hempty : content m' cur = []).
  { destruct (decide (content m' cur = [])) as [?|Hnonempty]; [done|].
    exfalso. destruct (exists_last Hnonempty) as (l0 & c0 & Hc).
    rewrite Houts, fmap_app, concat_app in Hcat. cbn in Hcat.
    rewrite Hc, app_nil_r, Hdata, app_assoc in Hcat.
    apply app_inj_tail in Hcat as [Hbody ->].
    destruct (whole_records_concat (num_per_split a) (content m' <$> olds))
      as [Hqo _]; [by apply Forall_fmap|].
    rewrite <- Hbody, quoted_app, Hqo in Hq.
    rewrite Hc, terminators_app, Hq in Hr. cbn in Hr.
    pose proof (terminators_nonneg false l0). lia. }
  assert (Hcur : cur ∈ outputs m').
  { rewrite Houts. apply elem_of_app. right. by apply list_elem_of_singleton. }
  destruct (Hnew cur Hcur) as ([v Hv] & Hfs & _).
  exists m', olds, cur, printed.
  split; [done|]. split; [done|]. split; [done|]. split.
  { rewrite Hlen. apply Z.div_str_pos. split; [lia|].
    rewrite Hdata, terminators_app, Hq. cbn.
    pose proof (terminators_nonneg false body).
    assert (num_per_split a <= terminators false (body ++ [LF])); [|
      by rewrite terminators_app, Hq in *].
    rewrite <- Hdata. apply Z.divide_pos_le.
    - rewrite Hdata, terminators_app, Hq. cbn. lia.
    - by apply Z.mod_divide. }
  split; [done|]. split.
  { rewrite Hv. f_equal. unfold content in Hempty.
    by rewrite (lookup_total_correct _ _ _ Hv) in Hempty. }
  split; [done|]. done.
Qed.

Lemma empty_file_after_last_rotation_witness :
  exists m' olds extra printed,
    run_as_script (Sample.plain 2) (Sample.only Sample.two_records) = Ok m' /\
    outputs m' = olds ++ [extra] /\
    Z.of_nat (length olds) = terminators false Sample.two_records / 2 /\
    0 < Z.of_nat (length olds) /\
    Sample.only Sample.two_records !! extra = None /\
    files m' !! extra = Some [] /\
    output_filenum m' = Z.of_nat (length olds) + 1 /\
    stdout m' = printed +:+ summary (record_num m') (output_filenum m').
Proof.
  apply (empty_file_after_last_rotation (Sample.plain 2)
           (Sample.only Sample.two_records) Sample.two_records
           (Sample.bytes ("a,b" +:+ NL +:+ "c,d")));
    reflexivity.
Defined.

(** * Further properties *)

(** ** The empty input *)

Lemma run_on_empty `{OsPath} (chunk_size : Z) (a : args)
    (fs : gmap string (list byte)) :
  fs !! input_csv a = Some [] ->
  exists m',
    run chunk_size a fs = Ok m' /\
    files m' = fs /\ outputs m' = [] /\ closed m' = ∅ /\
    outfh m' = None /\ indexfh m' = None /\
    record_num m' = 0 /\ output_filenum m' = 1 /\
    stdout m' = summary 0 1.
Proof.
  intros Hin. unfold run, body. rewrite Hin.
  unfold infh_read, boot. machine_simpl. rewrite take_nil, drop_nil. cbn.
  eexists. split; [reflexivity|]. by repeat split.
Qed.

(** X1.  On an empty input the program returns normally whatever the
    other arguments are (a split size of zero, an index path that is
    taken): it opens no index and no split file, leaves the file
    system as it was, and prints that it processed 0 records into 1
    files. *)
Theorem empty_input_creates_nothing `{OsPath} (a : args)
    (fs : gmap string (list byte)) :
  fs !! input_csv a = Some [] ->
  exists m',
    run_as_script a fs = Ok m' /\
    files m' = fs /\ outputs m' = [] /\ closed m' = ∅ /\
    outfh m' = None /\ indexfh m' = None /\
    record_num m' = 0 /\ output_filenum m' = 1 /\
    stdout m' = summary 0 1.
Proof. apply run_on_empty. Qed.

Lemma empty_input_creates_nothing_witness :
  exists m',
    run_as_script (Args "in.csv" 0 None (Some "in.csv")) (Sample.only [])
    = Ok m' /\
    files m' = Sample.only [] /\ outputs m' = [] /\ closed m' = ∅ /\
    outfh m' = None /\ indexfh m' = None /\
    record_num m' = 0 /\ output_filenum m' = 1 /\
    stdout m' = summary 0 1.
Proof.
  apply (empty_input_creates_nothing (Args "in.csv" 0 None (Some "in.csv"))
           (Sample.only [])).
  reflexivity.
Defined.

(** ** The scanner is quote parity *)

Lemma quoted_parity (q : bool) (l : list byte) :
  quoted q l = xorb q (Nat.odd (count_quotes l)).
Proof.
  revert q. induction l as [|c l IH]; intros q; cbn.
  - by rewrite xorb_false_r.
  - rewrite IH. unfold count_quotes. cbn.
    destruct (Byte.eqb c QUOTE); cbn [length].
    + rewrite Nat.odd_succ, <- Nat.negb_odd.
      by destruct q, (Nat.odd (length (List.filter _ l))).
    + by rewrite xorb_false_r.
Qed.

Lemma scan_trace_settled (l : list byte) :
  forall s0,
    settled s0 ->
    exists t,
      scan_trace s0 l = Some t /\ length t = length l /\
      forall (i : nat) c,
        l !! i = Some c ->
        exists s,
          t !! i
          = Some (s, negb (quoted (open_quote s0) (take i l)) && Byte.eqb c LF) /\
          settled s /\
          open_quote s = quoted (open_quote s0) (take (S i) l).
Proof.
  induction l as [|c0 l IH]; intros s0 Hs0; cbn.
  - exists []. by repeat split.
  - destruct (scan_settled s0 c0 Hs0) as (s1 & s & _ & _ & Hscan & Hs & Hpar & _).
    rewrite Hscan. destruct (IH s Hs) as (t & Ht & Hlen & Hall). rewrite Ht.
    eexists. split; [reflexivity|]. split; [cbn; by rewrite Hlen|].
    intros [|i] c Hc; cbn in *.
    + injection Hc as <-. exists s. rewrite take_0. cbn. by rewrite <- Hpar.
    + destruct (Hall i c Hc) as (s' & Hi & Hs' & Hq).
      exists s'. by rewrite <- Hpar.
Qed.

(** X2.  The stack machine is a parity rule: run from the initial
    stack over any bytes it never fails, it flags a byte as a record
    end exactly when the byte is a line feed with an even number of
    double quotes before it, and after each byte it is inside a quoted
    field exactly when the number of double quotes read so far is
    odd. *)
Theorem scanner_is_quote_parity (l : list byte) :
  exists t,
    scan_trace [start] l = Some t /\ length t = length l /\
    forall (i : nat) s e,
      t !! i = Some (s, e) ->
      (e = true <->
       l !! i = Some LF /\ Nat.even (count_quotes (take i l)) = true) /\
      open_quote s = Nat.odd (count_quotes (take (S i) l)).
Proof.
  destruct (scan_trace_settled l [start] settled_start) as (t & Ht & Hlen & Hall).
  exists t. split; [done|]. split; [done|]. intros i s e Hi.
  assert (Hlt : (i < length l)%nat).
  { rewrite <- Hlen. by eapply lookup_lt_Some. }
  destruct (lookup_lt_is_Some_2 l i Hlt) as [c Hc].
  destruct (Hall i c Hc) as (s' & Hi' & _ & Hq).
  rewrite Hi in Hi'. injection Hi' as -> ->.
  change (open_quote [start]) with false in *.
  rewrite quoted_parity in *. cbn [xorb] in *. split; [|done].
  rewrite Hc, <- Nat.negb_odd, andb_true_iff, eqb_LF. split.
  - intros [? ->]. done.
  - intros [[= ->] ?]. done.
Qed.

(** ** The split files are the reference split *)

Lemma reference_split_no_cut (k : Z) (l : list byte) :
  forall q r cur rest,
    r + terminators q l < k ->
    reference_split k q r cur (l ++ rest)
    = reference_split k (quoted q l) (r + terminators q l) (cur ++ l) rest.
Proof.
  induction l as [|c l IH]; intros q r cur rest Hlt; cbn in *.
  - by rewrite Z.add_0_r, app_nil_r.
  - pose proof (terminators_nonneg (xorb q (Byte.eqb c QUOTE)) l) as Hge.
    destruct (negb q && Byte.eqb c LF) eqn:He; cbn [andb].
    + destruct (Z.eqb_spec (r + 1) k) as [?|_]; [lia|].
      rewrite IH by lia. rewrite <- app_assoc. cbn. by rewrite Z.add_assoc.
    + rewrite IH by lia. rewrite <- app_assoc. cbn. by rewrite Z.add_assoc.
Qed.

Lemma reference_split_block (k : Z) (b rest : list byte) :
  whole_records k b ->
  reference_split k false 0 [] (b ++ rest)
  = b :: reference_split k false 0 [] rest.
Proof.
  intros [Hk (l' & -> & Hq)].
  rewrite terminators_app, Hq in Hk. cbn in Hk.
  rewrite <- app_assoc, reference_split_no_cut by lia.
  rewrite Hq. cbn.
  destruct (Z.eqb_spec (0 + terminators false l' + 1) k) as [_|?]; [done|lia].
Qed.

Lemma reference_split_blocks (k : Z) (bs : list (list byte)) (last : list byte) :
  Forall (whole_records k) bs ->
  terminators false last < k ->
  reference_split k false 0 [] (concat bs ++ last) = bs ++ [last].
Proof.
  intros Hbs Hlast. induction Hbs as [|b bs Hb _ IH]; cbn.
  - rewrite <- (app_nil_r last) at 1.
    by rewrite reference_split_no_cut by lia.
  - by rewrite <- app_assoc, reference_split_block, IH.
Qed.

(** X3.  For a split size other than zero and whatever the chunk size,
    the contents of the split files of a non-empty input, in the order
    of their creation, are the input cut after every [|num_per_split|]-th
    line feed outside quotes: where the chunks end has no effect on
    where the files are cut, and a negative split size cuts like its
    absolute value. *)
Theorem split_files_are_reference_split `{OsPath} (chunk_size : Z) (a : args)
    (fs : gmap string (list byte)) (data : list byte) :
  0 < chunk_size ->
  num_per_split a <> 0 ->
  fs !! input_csv a = Some data ->
  index_taken a fs = false ->
  data <> [] ->
  exists m',
    run chunk_size a fs = Ok m' /\
    content m' <$> outputs m'
    = reference_split (Z.abs (num_per_split a)) false 0 [] data.
Proof.
  intros Hcs Hn Hin Hidx Hne.
  destruct (run_completes chunk_size a fs data Hn Hcs Hin Hidx)
    as (m' & Hrun & [(-> & _)|(_ & olds & cur & Hfin)]); [done|].
  apply finished_facts in Hfin
    as (_ & Houts & _ & _ & _ & _ & Hcat & Hbl & Hlt & _).
  exists m'. split; [done|].
  rewrite <- Hcat, Houts, fmap_app, concat_app. cbn.
  rewrite app_nil_r. symmetry. apply reference_split_blocks; [|done].
  by apply Forall_fmap.
Qed.

Lemma split_files_are_reference_split_witness :
  exists m',
    run 3 (Sample.plain (-1)) (Sample.only Sample.two_records) = Ok m' /\
    content m' <$> outputs m'
    = reference_split 1 false 0 [] Sample.two_records.
Proof.
  apply (split_files_are_reference_split 3 (Sample.plain (-1))
           (Sample.only Sample.two_records) Sample.two_records);
    [reflexivity | discriminate | reflexivity | reflexivity | discriminate].
Defined.

Example reference_split_two_records :
  reference_split 1 false 0 [] Sample.two_records
  = [Sample.bytes ("a,b" +:+ NL); Sample.bytes ("c,d" +:+ NL); []].
Proof. reflexivity. Qed.

(** ** Counting files and records *)

Lemma total_app (l1 l2 : list Z) : total (l1 ++ l2) = total l1 + total l2.
Proof.
  unfold total. induction l1 as [|x l1 IH]; cbn; [done|]. rewrite IH. lia.
Qed.

Lemma total_whole_records (k : Z) (ls : list (list byte)) :
  Forall (whole_records k) ls ->
  total (terminators false <$> ls) = k * Z.of_nat (length ls).
Proof.
  unfold total. induction 1 as [|l ls [Hl _] _ IH]; cbn.
  - lia.
  - rewrite IH, Hl. lia.
Qed.

(** X4.  For a split size other than zero and a non-empty input with
    [t] line feeds outside quotes, the program creates
    [t / |num_per_split| + 1] split files, whatever the chunk size, and
    this is the file count it prints, next to the record count [t]. *)
Theorem file_count `{OsPath} (chunk_size : Z) (a : args)
    (fs : gmap string (list byte)) (data : list byte) :
  0 < chunk_size ->
  num_per_split a <> 0 ->
  fs !! input_csv a = Some data ->
  index_taken a fs = false ->
  data <> [] ->
  exists m' printed,
    run chunk_size a fs = Ok m' /\
    Z.of_nat (length (outputs m'))
    = terminators false data / Z.abs (num_per_split a) + 1 /\
    stdout m'
    = printed
      +:+ summary (terminators false data)
            (terminators false data / Z.abs (num_per_split a) + 1).
Proof.
  intros Hcs Hn Hin Hidx Hne.
  destruct (run_completes chunk_size a fs data Hn Hcs Hin Hidx)
    as (m' & Hrun & [(-> & _)|(_ & olds & cur & Hfin)]); [done|].
  apply finished_facts in Hfin
    as (Hrn & Houts & Hofn & _ & _ & _ & _ & _ & Hlt & Ht & _ & printed & Hso).
  pose proof (terminators_nonneg false (content m' cur)) as Hge.
  assert (Hdiv : terminators false data / Z.abs (num_per_split a)
                 = Z.of_nat (length olds)).
  { symmetry. apply (Z.div_unique_pos _ _ _ (terminators false (content m' cur)));
      [lia | exact Ht]. }
  exists m', printed. split; [done|]. rewrite Hdiv. split.
  - rewrite Houts, length_app. cbn. lia.
  - by rewrite Hso, Hrn, Hofn.
Qed.

Lemma file_count_witness :
  exists m' printed,
    run 3 (Sample.plain 2) (Sample.only Sample.two_records) = Ok m' /\
    Z.of_nat (length (outputs m'))
    = terminators false Sample.two_records / Z.abs 2 + 1 /\
    stdout m'
    = printed
      +:+ summary (terminators false Sample.two_records)
            (terminators false Sample.two_records / Z.abs 2 + 1).
Proof.
  apply (file_count 3 (Sample.plain 2) (Sample.only Sample.two_records)
           Sample.two_records);
    [reflexivity | discriminate | reflexivity | reflexivity | discriminate].
Defined.

(** X5.  For a split size other than zero, the record count the
    program arrives at is the number of line feeds outside quotes in
    the input, and it is what counting them in each split file on its
    own adds up to: no line feed inside a quoted field is counted, no
    record is counted twice or lost at a file boundary, and an
    unterminated last record adds nothing. *)
Theorem record_count_adds_up `{OsPath} (chunk_size : Z) (a : args)
    (fs : gmap string (list byte)) (data : list byte) :
  0 < chunk_size ->
  num_per_split a <> 0 ->
  fs !! input_csv a = Some data ->
  index_taken a fs = false ->
  exists m',
    run chunk_size a fs = Ok m' /\
    record_num m' = terminators false data /\
    record_num m'
    = total ((fun p => terminators false (content m' p)) <$> outputs m').
Proof.
  intros Hcs Hn Hin Hidx.
  destruct (run_completes chunk_size a fs data Hn Hcs Hin Hidx)
    as (m' & Hrun & [(-> & Houts & _ & Hrn & _)|(_ & olds & cur & Hfin)]).
  - exists m'. rewrite Houts, Hrn. by repeat split.
  - apply finished_facts in Hfin
      as (Hrn & Houts & _ & _ & _ & _ & _ & Hbl & _ & Ht & _).
    exists m'. split; [done|]. split; [done|].
    rewrite Hrn, Ht, Houts, fmap_app, total_app. cbn.
    rewrite (list_fmap_compose (content m') (terminators false)).
    rewrite (total_whole_records (Z.abs (num_per_split a)))
      by (by apply Forall_fmap).
    rewrite length_fmap. lia.
Qed.

Lemma record_count_adds_up_witness :
  exists m',
    run 3 (Sample.plain 1) (Sample.only Sample.two_records) = Ok m' /\
    record_num m' = terminators false Sample.two_records /\
    record_num m'
    = total ((fun p => terminators false (content m' p)) <$> outputs m').
Proof.
  apply (record_count_adds_up 3 (Sample.plain 1)
           (Sample.only Sample.two_records) Sample.two_records);
    [reflexivity | discriminate | reflexivity | reflexivity].
Defined.

(** ** The ways out of a run *)

Lemma same_world_refl m : same_world m m.
Proof. by repeat split. Qed.

Lemma same_world_trans m1 m2 m3 :
  same_world m1 m2 -> same_world m2 m3 -> same_world m1 m3.
Proof.
  unfold same_world. intros (?&?&?&?&?) (?&?&?&?&?). repeat split; congruence.
Qed.

Lemma same_world_appended c s' e m : same_world m (appended c s' e m).
Proof. by destruct m. Qed.

(** Before the first rotation the invariant does not depend on the
    split size. *)
Lemma inv_at_start n n' fs cur m :
  n' <> 0 -> inv n fs [] [] cur m -> inv n' fs [] [] cur m.
Proof.
  intros Hn [I Hlt].
  pose proof (core_concat _ _ _ _ _ _ I) as Hc.
  rewrite (core_outputs _ _ _ _ _ _ I) in Hc. cbn in Hc.
  rewrite app_nil_r in Hc.
  split; [|rewrite Hc; cbn; lia].
  destruct I. by constructor.
Qed.

(** The handles the invariant knows are open, and the index is not a
    split file. *)
Lemma handles_open n fs pre olds cur m :
  core n fs pre olds cur m ->
  (forall p, outfh m = Some p -> p ∉ closed m) /\
  (forall ip, indexfh m = Some ip -> ip ∉ closed m) /\
  (forall ip p, indexfh m = Some ip -> outfh m = Some p -> ip <> p).
Proof.
  intros I.
  pose proof (core_nodup _ _ _ _ _ _ I) as Hnd.
  rewrite (core_outputs _ _ _ _ _ _ I) in Hnd.
  apply NoDup_app in Hnd as (_ & Hdisj & _).
  rewrite (core_outfh _ _ _ _ _ _ I).
  split; [|split].
  - intros p [= <-]. rewrite (core_closed _ _ _ _ _ _ I). intros Hin.
    apply (Hdisj cur Hin). by apply list_elem_of_singleton.
  - intros ip Hip.
    destruct (core_index _ _ _ _ _ _ I ip Hip) as (_ & Hout & _).
    rewrite (core_outputs _ _ _ _ _ _ I) in Hout.
    rewrite (core_closed _ _ _ _ _ _ I). intros Hin.
    apply Hout, elem_of_app. by left.
  - intros ip p Hip [= <-] ->.
    destruct (core_index _ _ _ _ _ _ I cur Hip) as (_ & Hout & _).
    rewrite (core_outputs _ _ _ _ _ _ I) in Hout.
    apply Hout, elem_of_app. right. by apply list_elem_of_singleton.
Qed.

(** The [finally] block closes the handles that are open and raises
    nothing. *)
Lemma cleanup_closes m :
  (forall p, outfh m = Some p -> p ∉ closed m) ->
  (forall ip, indexfh m = Some ip -> ip ∉ closed m) ->
  (forall ip p, indexfh m = Some ip -> outfh m = Some p -> ip <> p) ->
  exists closed',
    cleanup m = Ok (set_closed closed' m) /\
    forall p, p ∈ closed' <->
              p ∈ closed m \/ outfh m = Some p \/ indexfh m = Some p.
Proof.
  destruct m as [rn ofn ofh ifh ib ob stk rest tell fl cl outs so].
  cbn. intros Hout Hidx Hne.
  unfold cleanup, fh_flush, fh_close. cbn.
  destruct ifh as [ip|], ofh as [p|]; cbn.
  - rewrite bool_decide_eq_false_2 by (by apply Hidx). cbn.
    rewrite bool_decide_eq_false_2; cbn.
    + eexists. split; [reflexivity|]. intros q.
      rewrite !elem_of_union, !elem_of_singleton. intuition congruence.
    + intros [Hx%elem_of_singleton|Hx]%elem_of_union.
      * by apply (Hne ip p).
      * by apply (Hout p).
  - rewrite bool_decide_eq_false_2 by (by apply Hidx). cbn.
    eexists. split; [reflexivity|]. intros q.
    rewrite !elem_of_union, !elem_of_singleton. intuition congruence.
  - rewrite bool_decide_eq_false_2 by (by apply Hout). cbn.
    eexists. split; [reflexivity|]. intros q.
    rewrite !elem_of_union, !elem_of_singleton. intuition congruence.
  - exists cl. split; [reflexivity|]. intuition congruence.
Qed.

Lemma call_next_outfile_stdout `{OsPath} a m m' :
  call_next_outfile a m = Ok m' -> stdout m' = stdout m.
Proof.
  unfold call_next_outfile.
  destruct (next_outfile _ _ _ _ _) as [[path fs']|]; [|done].
  intros [= <-]. by destruct m.
Qed.

Lemma call_next_outfile_frame `{OsPath} a m m' :
  call_next_outfile a m = Ok m' ->
  forall p, is_Some (files m !! p) -> files m' !! p = files m !! p.
Proof.
  unfold call_next_outfile.
  destruct (next_outfile_creates (input_csv a) (output_dir a)
              (output_filenum m) 6 (files m))
    as (k & new & -> & _ & Hnone & _).
  intros [= <-] p Hp. destruct m. cbn in *.
  rewrite lookup_insert_ne; [done|].
  intros <-. rewrite Hnone in Hp. by destruct Hp.
Qed.

Lemma call_next_outfile_path `{OsPath} a m m' :
  call_next_outfile a m = Ok m' ->
  exists k : nat,
    outputs m'
    = outputs m
      ++ [candidate
            (initial_output_path (input_csv a) (output_dir a)
               (output_filenum m) 6)
            (Z.of_nat k)].
Proof.
  unfold call_next_outfile.
  destruct (next_outfile_creates (input_csv a) (output_dir a)
              (output_filenum m) 6 (files m))
    as (k & new & -> & -> & _).
  intros [= <-]. exists k. by destruct m.
Qed.

Lemma fh_write_stdout fh data m m' :
  fh_write fh data m = Ok m' -> stdout m' = stdout m.
Proof.
  unfold fh_write. destruct fh as [p|]; [|done].
  case_bool_decide; [done|]. intros [= <-]. by destruct m.
Qed.

Section Exits.

Context `{OsPath}.
Variable chunk_size : Z.
Variable a : args.
Variable fs : gmap string (list byte).
Variable data : list byte.
Hypothesis chunk_positive : 0 < chunk_size.
Hypothesis input_there : fs !! input_csv a = Some data.
Hypothesis index_ok : index_taken a fs = false.
Hypothesis data_there : data <> [].

Lemma infh_read_chunk m :
  inbuf (infh_read chunk_size m) = take (Z.to_nat chunk_size) (infh_rest m).
Proof. by destruct m. Qed.

(** Up to the main loop: the index and the first split file are
    created, and the loop starts on the first chunk with the
    invariant. *)
Lemma run_starts :
  exists m0 new,
    run chunk_size a fs
    = finally (do m <- while_inbuf chunk_size (S (length (infh_rest m0))) a m0;
               after_loop m) cleanup /\
    inv 1 fs [] [] new m0 /\ outbuf m0 = [] /\
    inbuf m0 <> [] /\ inbuf m0 ++ infh_rest m0 = data /\
    inbuf m0 = take (Z.to_nat chunk_size) data /\
    indexfh m0 = index_path a /\
    stdout m0 = "Reading... " /\
    infh_tell m0 = Z.of_nat (length (inbuf m0)) /\
    (forall ip, indexfh m0 = Some ip -> files m0 !! ip = Some []) /\
    numbered_in_order a (outputs m0).
Proof.
  unfold run. rewrite input_there. unfold body.
  set (m1 := infh_read chunk_size (set_infh data 0 (boot fs))).
  assert (Hsplit : inbuf m1 ++ infh_rest m1 = data)
    by apply (infh_read_split chunk_size).
  assert (Hdr : inbuf m1 = [] -> infh_rest m1 = [])
    by apply (infh_read_drained chunk_size chunk_positive).
  assert (Hchunk : inbuf m1 = take (Z.to_nat chunk_size) data)
    by apply infh_read_chunk.
  assert (Htell : infh_tell m1 = Z.of_nat (length (inbuf m1)))
    by reflexivity.
  assert (Hm1 : record_num m1 = 0 /\ output_filenum m1 = 1 /\
                outfh m1 = None /\ indexfh m1 = None /\ outputs m1 = [] /\
                closed m1 = ∅ /\ files m1 = fs /\ stdout m1 = "")
    by (by repeat split).
  clearbody m1.
  destruct m1 as [rn ofn ofh ifh ib ob stk rest tell fl cl outs so].
  cbn in Hsplit, Hdr, Hm1, Hchunk, Htell.
  destruct Hm1 as (-> & -> & -> & -> & -> & -> & -> & ->).
  destruct ib as [|c chunk].
  { rewrite (Hdr eq_refl) in Hsplit. by subst data. }
  cbn [inbuf].
  set (m1 := Machine 0 1 None None (c :: chunk) ob stk rest tell fs ∅ [] "").
  assert (Hidx : exists m2,
    match generate_index a with
    | Some path =>
        if given (generate_index a) then
          match open_x path (files m1) with
          | Some fs' => Ok (set_indexfh (Some path) (set_files fs' m1))
          | None => Raise FileExistsError m1
          end
        else Ok m1
    | None => Ok m1
    end = Ok m2 /\
    record_num m2 = 0 /\ output_filenum m2 = 1 /\
    outputs m2 = [] /\ closed m2 = ∅ /\
    (forall p, is_Some (fs !! p) -> files m2 !! p = fs !! p) /\
    (forall ip, indexfh m2 = Some ip ->
       is_Some (files m2 !! ip) /\ fs !! ip = None) /\
    inbuf m2 = c :: chunk /\ infh_rest m2 = rest /\
    indexfh m2 = index_path a /\ stdout m2 = "" /\ infh_tell m2 = tell /\
    forall ip, indexfh m2 = Some ip -> files m2 !! ip = Some []).
  { pose proof index_ok as Hfree. unfold index_taken in Hfree.
    unfold index_path.
    destruct (generate_index a) as [path|] eqn:Hgi.
    - destruct (given (Some path)) eqn:Hg.
      + cbn in Hfree. apply bool_decide_eq_false in Hfree.
        apply eq_None_not_Some in Hfree.
        unfold open_x. cbn. rewrite Hfree.
        eexists. split; [reflexivity|]. cbn.
        split; [done|]. split; [done|]. split; [done|]. split; [done|].
        split; [|split; [|split; [done|]]].
        * intros p Hp. rewrite lookup_insert_ne; [done|].
          intros <-. rewrite Hfree in Hp. by destruct Hp.
        * intros ip [= <-]. by rewrite lookup_insert_eq.
        * split; [done|]. split; [done|]. split; [done|]. split; [done|].
          intros ip [= <-]. by rewrite lookup_insert_eq.
      + exists m1. by repeat split.
    - exists m1. by repeat split. }
  destruct Hidx as (m2 & Hopen & Hrn & Hofn & Houts & Hcl & Hkeep & Hix
                    & Hib2 & Hrest2 & Hifh2 & Hso2 & Htell2 & Hempty2).
  rewrite Hopen. clearbody m1. cbn [and_then].
  destruct (first_file_inv (with_split_size 1 a) fs ltac:(done) m2
              Hrn Hofn Houts Hcl Hkeep Hix)
    as (m3 & new & Hcall & I3 & Hs3).
  change (call_next_outfile a m2 = Ok m3) in Hcall.
  rewrite Hcall. cbn [and_then].
  pose proof (call_next_outfile_stdout _ _ _ Hcall) as Hso3.
  pose proof (call_next_outfile_frame _ _ _ Hcall) as Hfr3.
  assert (Hnames : numbered_in_order a (outputs m3)).
  { destruct (call_next_outfile_path _ _ _ Hcall) as (k & Hpath).
    rewrite Hpath, Houts, Hofn. intros [|i] p; [|done].
    intros [= <-]. by exists k. }
  set (m4 := set_state [start] (set_outbuf [] (print "Reading... " m3))) in *.
  exists m4, new. split; [reflexivity|]. split; [exact I3|].
  destruct Hs3 as (Hib3 & Hrest3 & Htell3 & Hifh3).
  subst m4. destruct m3. cbn in *.
  rewrite Hib3, Hrest3, Hib2, Hrest2, Hifh3, Hso3, Hso2, Htell3, Htell2.
  split; [done|]. split; [done|]. split; [done|]. split; [done|].
  split; [done|]. split; [done|]. split; [done|].
  split; [|done].
  intros ip Hip. rewrite Hfr3; [by apply Hempty2|].
  rewrite (Hempty2 ip Hip). by eexists.
Qed.

(** From the end of the main loop on: the summary is printed and the
    handles are closed. *)
Lemma run_ends n pre olds cur mid :
  inv n fs pre olds cur mid -> outbuf mid = [] ->
  exists closed',
    finally (after_loop mid) cleanup
    = Ok (set_closed closed'
            (print (summary (record_num mid) (output_filenum mid)) mid)) /\
    forall p, p ∈ closed' <->
              p ∈ closed mid \/ outfh mid = Some p \/ indexfh mid = Some p.
Proof.
  intros [I Hlt] Hob.
  assert (Hafter : after_loop mid
                   = Ok (print (summary (record_num mid) (output_filenum mid))
                           mid)).
  { unfold after_loop. rewrite Hob. cbn [last].
    pose proof (core_outfh _ _ _ _ _ _ I) as Hofh. rewrite Hofh.
    destruct (flush_inv (with_split_size n a) fs pre olds cur mid (conj I Hlt))
      as (mid' & Hw & _ & _ & Hsame).
    rewrite Hofh in Hw. by rewrite Hw, (Hsame Hob). }
  rewrite Hafter. cbn [finally].
  destruct (handles_open _ _ _ _ _ _ I) as (Ho & Hi & Hne).
  destruct (cleanup_closes
              (print (summary (record_num mid) (output_filenum mid)) mid))
    as (closed' & Hc & Hiff);
    [destruct mid; exact Ho | destruct mid; exact Hi
    | destruct mid; exact Hne |].
  exists closed'. split; [done|]. destruct mid. exact Hiff.
Qed.

(** With a split size other than zero the run returns, and the state
    it returns is the state at the end of the main loop, with the
    summary printed and the handles closed. *)
Lemma run_returns :
  num_per_split a <> 0 ->
  exists m' olds cur mid closed',
    run chunk_size a fs = Ok m' /\
    inv (num_per_split a) fs data olds cur mid /\ outbuf mid = [] /\
    indexfh mid = index_path a /\
    m' = set_closed closed'
           (print (summary (record_num mid) (output_filenum mid)) mid) /\
    forall p, p ∈ closed' <->
              p ∈ closed mid \/ outfh mid = Some p \/ indexfh mid = Some p.
Proof.
  intros Hn.
  destruct run_starts
    as (m0 & new & -> & I0 & Hob0 & Hne0 & Hsplit & _ & Hifh0 & _).
  apply (inv_at_start 1 (num_per_split a)) in I0; [|done].
  destruct (while_inbuf_completes chunk_size a fs Hn chunk_positive
              (S (length (infh_rest m0))) [] [] new m0 I0 Hob0)
    as (mid & olds & cur & Hloop & Imid & Hob & Hifh); [done|right; lia|].
  rewrite Hloop. cbn [and_then].
  rewrite Hsplit in Imid. cbn [app] in Imid.
  destruct (run_ends _ _ _ _ _ Imid Hob) as (closed' & Hfin & Hiff).
  rewrite Hfin. eexists _, olds, cur, mid, closed'.
  split; [reflexivity|]. split; [done|]. split; [done|].
  split; [congruence|]. done.
Qed.

(** *** A split size of zero *)

(** A byte that ends no record is buffered; the first byte that ends
    one raises [ZeroDivisionError] at line 126, the counter being 1. *)
Lemma process_byte_zero pre cur index c m :
  num_per_split a = 0 ->
  inv 1 fs pre [] cur m ->
  exists s',
    if negb (quoted false pre) && Byte.eqb c LF
    then process_byte chunk_size a index c m
         = Raise ZeroDivisionError (appended c s' true m) /\
         record_num (appended c s' true m) = 1
    else process_byte chunk_size a index c m = Ok (appended c s' false m) /\
         inv 1 fs (pre ++ [c]) [] cur (appended c s' false m).
Proof.
  intros Hn [I Hlt].
  destruct (scan_settled (state m) c (core_state _ _ _ _ _ _ I))
    as (s1 & s' & _ & _ & Hscan & _).
  destruct (append_core _ _ _ _ _ _ c _ _ I Hscan) as [I1 He].
  fold (appended c s' (negb (open_quote (state m)) && Byte.eqb c LF) m) in I1.
  rewrite He in Hscan, I1. clear He.
  exists s'. rewrite (process_byte_unfold chunk_size a index c m s' _ Hscan).
  destruct (core_decompose _ _ _ _ _ _ I) as [Hq Ht].
  pose proof (terminators_nonneg false (content m cur ++ outbuf m)) as Hge.
  pose proof (core_count _ _ _ _ _ _ I) as Hc.
  destruct (negb (quoted false pre) && Byte.eqb c LF) eqn:Ee.
  - rewrite Hn. cbn [Z.eqb]. split; [done|].
    clear Hscan I1. destruct m. cbn in *. lia.
  - split; [done|]. split; [done|].
    assert (Hcur1 : content (appended c s' false m) cur
                    ++ outbuf (appended c s' false m)
                    = (content m cur ++ outbuf m) ++ [c]).
    { clear. destruct m. unfold content. cbn. by rewrite app_assoc. }
    rewrite Hcur1, terminators_app, terminators_one, Hq, Ee. lia.
Qed.

Lemma for_each_byte_zero cur l :
  num_per_split a = 0 ->
  forall pre index m,
    inv 1 fs pre [] cur m ->
    if terminators (quoted false pre) l =? 0
    then exists m',
           for_each_byte chunk_size a index l m = Ok m' /\
           inv 1 fs (pre ++ l) [] cur m' /\
           same_input m m' /\ stdout m' = stdout m
    else exists m',
           for_each_byte chunk_size a index l m = Raise ZeroDivisionError m' /\
           same_world m m' /\ record_num m' = 1 /\ stdout m' = stdout m.
Proof.
  intros Hn.
  induction l as [|c l IH]; intros pre index m I; cbn [terminators for_each_byte].
  - cbn. exists m. rewrite app_nil_r. split; [done|]. split; [done|].
    split; [apply same_input_refl|done].
  - destruct (process_byte_zero pre cur index c m Hn I) as [s' Hstep].
    pose proof (terminators_nonneg (xorb (quoted false pre) (Byte.eqb c QUOTE)) l)
      as Hge.
    destruct (negb (quoted false pre) && Byte.eqb c LF) eqn:Ee.
    + destruct Hstep as [Hpb Hrn]. rewrite Hpb. cbn [and_then].
      destruct (Z.eqb_spec
                  (1 + terminators (xorb (quoted false pre) (Byte.eqb c QUOTE)) l)
                  0) as [?|_]; [lia|].
      eexists. split; [reflexivity|]. split; [apply same_world_appended|].
      split; [done|]. by destruct m.
    + destruct Hstep as [Hpb I1]. rewrite Hpb. cbn [and_then].
      specialize (IH (pre ++ [c]) (index + 1) _ I1).
      rewrite quoted_app in IH. cbn [quoted] in IH. rewrite Z.add_0_l.
      destruct (Z.eqb_spec
                  (terminators (xorb (quoted false pre) (Byte.eqb c QUOTE)) l) 0)
        as [Hz|Hnz].
      * destruct IH as (m' & Hrest & I' & Hs' & Hso').
        exists m'. rewrite <- app_assoc in I'.
        split; [done|]. split; [done|]. split.
        -- eapply same_input_trans; [apply same_input_appended | done].
        -- rewrite Hso'. by destruct m.
      * destruct IH as (m' & Hrest & Hw' & Hrn' & Hso').
        exists m'. split; [done|]. split.
        -- eapply same_world_trans; [apply same_world_appended | done].
        -- split; [done|]. rewrite Hso'. by destruct m.
Qed.

(** The main loop with a split size of zero: it copies whole chunks
    until one holds the end of a record, and raises there, before that
    chunk is written. *)
Lemma while_inbuf_zero cur fuel :
  num_per_split a = 0 ->
  forall pre m,
    inv 1 fs pre [] cur m ->
    outbuf m = [] ->
    (inbuf m = [] -> infh_rest m = []) ->
    (inbuf m = [] \/ (length (infh_rest m) < fuel)%nat) ->
    inbuf m = take (Z.to_nat chunk_size) (inbuf m ++ infh_rest m) ->
    (inbuf m = [] \/ Z.of_nat (length pre) mod chunk_size = 0) ->
    if terminators (quoted false pre) (inbuf m ++ infh_rest m) =? 0
    then exists m',
           while_inbuf chunk_size fuel a m = Ok m' /\
           inv 1 fs (pre ++ inbuf m ++ infh_rest m) [] cur m' /\
           outbuf m' = [] /\ indexfh m' = indexfh m /\ stdout m' = stdout m
    else exists m' mc pre' chunk rest,
           while_inbuf chunk_size fuel a m = Raise ZeroDivisionError m' /\
           inv 1 fs pre' [] cur mc /\ outbuf mc = [] /\
           same_world mc m' /\ record_num m' = 1 /\
           indexfh mc = indexfh m /\ stdout m' = stdout m /\
           pre ++ inbuf m ++ infh_rest m = pre' ++ chunk ++ rest /\
           chunk = take (Z.to_nat chunk_size) (chunk ++ rest) /\
           Z.of_nat (length pre') mod chunk_size = 0 /\
           terminators (quoted false pre') chunk <> 0.
Proof.
  intros Hn.
  induction fuel as [|fuel IH]; intros pre m I Hob Hdr Hfuel Hchunk Halign.
  - destruct Hfuel as [Hnil|?]; [|lia]. cbn. rewrite Hnil, (Hdr Hnil).
    cbn. exists m. rewrite !app_nil_r. done.
  - cbn [while_inbuf].
    destruct (inbuf m) as [|c chunk] eqn:Hin.
    { rewrite (Hdr eq_refl). cbn. exists m. rewrite !app_nil_r. done. }
    rewrite terminators_app.
    pose proof (for_each_byte_zero cur (c :: chunk) Hn pre 0 m I) as Hfor.
    pose proof (terminators_nonneg (quoted false pre) (c :: chunk)) as Hge1.
    pose proof (terminators_nonneg (quoted (quoted false pre) (c :: chunk))
                  (infh_rest m)) as Hge2.
    destruct (Z.eqb_spec (terminators (quoted false pre) (c :: chunk)) 0)
      as [Hz|Hnz].
    + destruct Hfor as (m1 & Hfor & I1 & Hs1 & Hso1).
      rewrite Hfor, Hz, Z.add_0_l. cbn [and_then].
      destruct (flush_inv (with_split_size 1 a) fs _ _ _ _ I1)
        as (m2 & Hw & I2 & Hs2 & _).
      rewrite Hw. cbn [and_then].
      pose proof (fh_write_stdout _ _ _ _ Hw) as Hso2.
      apply (infh_read_inv chunk_size (with_split_size 1 a)) in I2.
      set (m3 := infh_read chunk_size (set_outbuf [] m2)) in *.
      assert (Hrest2 : infh_rest (set_outbuf [] m2) = infh_rest m).
      { destruct Hs1 as (_ & Hr1 & _), Hs2 as (_ & Hr2 & _).
        destruct m2. cbn in *. congruence. }
      assert (Hix3 : indexfh m3 = indexfh m).
      { destruct Hs1 as (_ & _ & _ & Hi1), Hs2 as (_ & _ & _ & Hi2).
        unfold m3. destruct m2. cbn in *. congruence. }
      assert (Hso3 : stdout m3 = stdout m).
      { unfold m3. destruct m2. cbn in *. congruence. }
      assert (Hsplit3 : inbuf m3 ++ infh_rest m3 = infh_rest m).
      { unfold m3. by rewrite infh_read_split. }
      assert (Hchunk3 : inbuf m3 = take (Z.to_nat chunk_size) (infh_rest m)).
      { unfold m3. by rewrite infh_read_chunk, Hrest2. }
      specialize (IH (pre ++ c :: chunk) m3 I2).
      rewrite quoted_app, Hsplit3, Hix3, Hso3 in IH.
      assert (IH' := fun H1 H2 H3 H4 H5 => IH H1 H2 H3 H4 H5).
      clear IH. rename IH' into IH.
      assert (Hstep :
        if terminators (quoted (quoted false pre) (c :: chunk)) (infh_rest m) =? 0
        then exists m',
               while_inbuf chunk_size fuel a m3 = Ok m' /\
               inv 1 fs ((pre ++ c :: chunk) ++ infh_rest m) [] cur m' /\
               outbuf m' = [] /\ indexfh m' = indexfh m /\ stdout m' = stdout m
        else exists m' mc pre' chunk' rest,
               while_inbuf chunk_size fuel a m3 = Raise ZeroDivisionError m' /\
               inv 1 fs pre' [] cur mc /\ outbuf mc = [] /\
               same_world mc m' /\ record_num m' = 1 /\
               indexfh mc = indexfh m /\ stdout m' = stdout m /\
               (pre ++ c :: chunk) ++ infh_rest m = pre' ++ chunk' ++ rest /\
               chunk' = take (Z.to_nat chunk_size) (chunk' ++ rest) /\
               Z.of_nat (length pre') mod chunk_size = 0 /\
               terminators (quoted false pre') chunk' <> 0).
      { apply IH.
        - unfold m3. by destruct m2.
        - apply (infh_read_drained chunk_size chunk_positive).
        - destruct (decide (inbuf m3 = [])) as [?|Hne]; [by left|right].
          apply (infh_read_shrinks chunk_size chunk_positive) in Hne.
          rewrite Hrest2 in Hne. fold m3 in Hne.
          destruct Hfuel as [?|?]; [done|lia].
        - exact Hchunk3.
        - destruct (decide (length (c :: chunk) = Z.to_nat chunk_size))
            as [Hfull|Hshort].
          + right. destruct Halign as [?|Halign]; [done|].
            rewrite length_app, Nat2Z.inj_add, Hfull, Z2Nat.id by lia.
            rewrite <- (Z.mul_1_l chunk_size) at 1.
            by rewrite Z_mod_plus_full.
          + left. rewrite Hchunk3.
            assert (Hlen : (length (c :: chunk)
                            = Z.to_nat chunk_size `min`
                                length ((c :: chunk) ++ infh_rest m))%nat)
              by (by rewrite Hchunk at 1; rewrite length_take).
            rewrite length_app in Hlen.
            destruct (infh_rest m); [by rewrite take_nil|].
            cbn [length] in *. lia. }
      clear IH.
      destruct (Z.eqb_spec
                  (terminators (quoted (quoted false pre) (c :: chunk))
                     (infh_rest m)) 0) as [Hz'|Hnz'].
      * destruct Hstep as (m' & Hloop & I' & Hob' & Hix' & Hso').
        exists m'. rewrite <- app_assoc in I'. done.
      * destruct Hstep as (m' & mc & pre' & chunk' & rest & Hloop & Imc & Hobc
                           & Hw' & Hrn & Hixc & Hso' & Hcat & Hrest).
        exists m', mc, pre', chunk', rest. rewrite <- app_assoc in Hcat. done.
    + destruct Hfor as (m' & Hfor & Hw' & Hrn & Hso').
      rewrite Hfor. cbn [and_then].
      destruct (Z.eqb_spec
                  (terminators (quoted false pre) (c :: chunk)
                   + terminators (quoted (quoted false pre) (c :: chunk))
                       (infh_rest m)) 0) as [?|_]; [lia|].
      exists m', m, pre, (c :: chunk), (infh_rest m).
      split; [done|]. split; [done|]. split; [done|]. split; [done|].
      split; [done|]. split; [done|]. split; [done|]. split; [done|].
      split; [done|]. split; [|done].
      by destruct Halign.
Qed.

(** The whole run with a split size of zero. *)
Lemma run_zero :
  num_per_split a = 0 ->
  exists new,
    numbered_in_order a [new] /\
    if terminators false data =? 0
    then exists mid closed',
           run chunk_size a fs
           = Ok (set_closed closed'
                   (print (summary (record_num mid) (output_filenum mid)) mid)) /\
           inv 1 fs data [] new mid /\ outbuf mid = [] /\
           indexfh mid = index_path a /\ stdout mid = "Reading... " /\
           forall p, p ∈ closed' <->
                     p ∈ closed mid \/ outfh mid = Some p \/ indexfh mid = Some p
    else exists mc mr closed' pre chunk rest,
           run chunk_size a fs = Raise ZeroDivisionError (set_closed closed' mr) /\
           inv 1 fs pre [] new mc /\ outbuf mc = [] /\
           same_world mc mr /\ record_num mr = 1 /\
           indexfh mc = index_path a /\ stdout mr = "Reading... " /\
           data = pre ++ chunk ++ rest /\
           chunk = take (Z.to_nat chunk_size) (chunk ++ rest) /\
           Z.of_nat (length pre) mod chunk_size = 0 /\
           terminators (quoted false pre) chunk <> 0 /\
           forall p, p ∈ closed' <->
                     p ∈ closed mc \/ outfh mc = Some p \/ indexfh mc = Some p.
Proof.
  intros Hn.
  destruct run_starts
    as (m0 & new & -> & I0 & Hob0 & Hne0 & Hsplit & Hchunk & Hifh0 & Hso0 & _
        & _ & Hnames).
  exists new. split.
  { destruct I0 as [I0 _]. by rewrite (core_outputs _ _ _ _ _ _ I0) in Hnames. }
  pose proof (while_inbuf_zero new (S (length (infh_rest m0))) Hn [] m0 I0 Hob0)
    as Hloop.
  cbn [app quoted length] in Hloop. rewrite Hsplit in Hloop.
  specialize (Hloop ltac:(done) ltac:(right; lia) Hchunk ltac:(by right)).
  destruct (Z.eqb_spec (terminators false data) 0) as [Hz|Hnz].
  - destruct Hloop as (mid & -> & Imid & Hob & Hifh & Hso). cbn [and_then].
    destruct (run_ends _ _ _ _ _ Imid Hob) as (closed' & -> & Hiff).
    exists mid, closed'. split; [done|]. split; [done|]. split; [done|].
    split; [congruence|]. split; [congruence|]. done.
  - destruct Hloop as (mr & mc & pre & chunk & rest & -> & Imc & Hobc & Hw
                       & Hrn & Hifh & Hso & Hcat & Hchunk' & Hal & Hterm).
    cbn [and_then finally].
    destruct Imc as [Ic Hlt].
    destruct (handles_open _ _ _ _ _ _ Ic) as (Ho & Hi & Hne).
    destruct Hw as (Hf & Hou & Hcl & Hofh & Hix).
    destruct (cleanup_closes mr) as (closed' & -> & Hiff).
    { rewrite Hofh, Hcl. exact Ho. }
    { rewrite Hix, Hcl. exact Hi. }
    { rewrite Hofh, Hix. exact Hne. }
    exists mc, mr, closed', pre, chunk, rest.
    split; [done|]. split; [done|]. split; [done|]. split; [done|].
    split; [done|]. split; [congruence|]. split; [congruence|].
    split; [done|]. split; [done|]. split; [done|]. split; [done|].
    intros p. rewrite Hiff, Hcl, Hofh, Hix. done.
Qed.

End Exits.

Lemma run_without_input `{OsPath} chunk_size a fs :
  fs !! input_csv a = None ->
  run chunk_size a fs = Raise FileNotFoundError (boot fs).
Proof. intros Hin. unfold run. by rewrite Hin. Qed.

Lemma run_index_taken `{OsPath} chunk_size a fs data :
  0 < chunk_size ->
  fs !! input_csv a = Some data ->
  data <> [] ->
  index_taken a fs = true ->
  exists m',
    run chunk_size a fs = Raise FileExistsError m' /\
    files m' = fs /\ outputs m' = [] /\ closed m' = ∅ /\ outfh m' = None /\
    indexfh m' = None /\ stdout m' = "".
Proof.
  intros Hcs Hin Hne Hidx. unfold run, body. rewrite Hin.
  destruct data as [|c data]; [done|].
  assert (Hk : exists k, Z.to_nat chunk_size = S k).
  { exists (Z.to_nat chunk_size - 1)%nat. lia. }
  destruct Hk as [k Hk].
  unfold infh_read, boot. machine_simpl. rewrite Hk. cbn.
  unfold index_taken in Hidx.
  destruct (generate_index a) as [path|]; [|done].
  apply andb_true_iff in Hidx as [Hg Htaken]. rewrite Hg.
  apply bool_decide_eq_true in Htaken. destruct Htaken as [old Hold].
  unfold open_x. rewrite Hold. cbn.
  eexists. split; [reflexivity|]. done.
Qed.

(** What the invariant at the last point of the loop says of the
    state the run leaves, once the handles are closed. *)
Lemma exit_facts n fs pre olds cur mid mr closed' :
  core n fs pre olds cur mid ->
  same_world mid mr ->
  (forall p, p ∈ closed' <->
             p ∈ closed mid \/ outfh mid = Some p \/ indexfh mid = Some p) ->
  let m' := set_closed closed' mr in
  (forall p, is_Some (fs !! p) -> files m' !! p = fs !! p) /\
  (forall p, p ∈ closed m' <-> p ∈ outputs m' \/ indexfh m' = Some p) /\
  (forall p, p ∈ outputs m' -> fs !! p = None /\ is_Some (files m' !! p)) /\
  (forall ip, indexfh m' = Some ip ->
     fs !! ip = None /\ is_Some (files m' !! ip) /\ (ip ∉ outputs m')) /\
  outputs m' = olds ++ [cur] /\ outfh m' = Some cur /\
  indexfh m' = indexfh mid /\ files m' = files mid.
Proof.
  intros I (Hf & Hou & Hcl & Hofh & Hix) Hiff.
  destruct mr as [rn ofn ofh ifh ib ob stk rest tell fl cl outs so].
  cbn in Hf, Hou, Hcl, Hofh, Hix. subst fl outs cl ofh ifh. cbn.
  split; [exact (core_keeps _ _ _ _ _ _ I)|].
  split.
  { intros p. rewrite Hiff, (core_closed _ _ _ _ _ _ I),
      (core_outputs _ _ _ _ _ _ I), (core_outfh _ _ _ _ _ _ I), elem_of_app,
      list_elem_of_singleton.
    intuition congruence. }
  split.
  { intros p Hp. split; [by apply (core_fresh _ _ _ _ _ _ I)|].
    by apply (core_exist _ _ _ _ _ _ I). }
  split.
  { intros ip Hip. by destruct (core_index _ _ _ _ _ _ I ip Hip) as (?&?&?). }
  split; [exact (core_outputs _ _ _ _ _ _ I)|].
  split; [exact (core_outfh _ _ _ _ _ _ I)|]. done.
Qed.

Lemma same_world_print s m : same_world m (print s m).
Proof. by destruct m. Qed.

(** A run that opened nothing for writing. *)
Lemma nothing_opened (fs : gmap string (list byte)) m' :
  files m' = fs -> outputs m' = [] -> closed m' = ∅ ->
  outfh m' = None -> indexfh m' = None ->
  (forall p, is_Some (fs !! p) -> files m' !! p = fs !! p) /\
  (forall p, p ∈ closed m' <-> p ∈ outputs m' \/ indexfh m' = Some p) /\
  (forall p, p ∈ outputs m' -> fs !! p = None /\ is_Some (files m' !! p)) /\
  (forall ip, indexfh m' = Some ip ->
     fs !! ip = None /\ is_Some (files m' !! ip) /\ (ip ∉ outputs m')) /\
  outfh m' = last (outputs m').
Proof.
  intros -> -> -> -> ->. split; [done|]. split.
  { intros p. split; [intros Hp; by apply not_elem_of_empty in Hp|].
    intros [Hp|Hp]; [by apply not_elem_of_nil in Hp | done]. }
  split; [intros p Hp; by apply not_elem_of_nil in Hp|]. done.
Qed.

(** Every run, by the way it ends. *)
Lemma run_exits `{OsPath} chunk_size a fs :
  0 < chunk_size ->
  exists m',
    run chunk_size a fs
    = match predicted_exception a fs with
      | None => Ok m'
      | Some e => Raise e m'
      end /\
    (forall p, is_Some (fs !! p) -> files m' !! p = fs !! p) /\
    (forall p, p ∈ closed m' <-> p ∈ outputs m' \/ indexfh m' = Some p) /\
    (forall p, p ∈ outputs m' -> fs !! p = None /\ is_Some (files m' !! p)) /\
    (forall ip, indexfh m' = Some ip ->
       fs !! ip = None /\ is_Some (files m' !! ip) /\ (ip ∉ outputs m')) /\
    outfh m' = last (outputs m').
Proof.
  intros Hcs. unfold predicted_exception.
  destruct (fs !! input_csv a) as [data|] eqn:Hin.
  2:{ exists (boot fs). rewrite (run_without_input _ _ _ Hin).
      split; [done|]. by apply nothing_opened. }
  destruct data as [|c data].
  { destruct (run_on_empty chunk_size a fs Hin)
      as (m' & -> & Hf & Ho & Hc & Hofh & Hifh & _).
    exists m'. split; [done|]. by apply nothing_opened. }
  destruct (index_taken a fs) eqn:Hidx.
  { destruct (run_index_taken chunk_size a fs (c :: data) Hcs Hin ltac:(done) Hidx)
      as (m' & -> & Hf & Ho & Hc & Hofh & Hifh & _).
    exists m'. split; [done|]. by apply nothing_opened. }
  destruct (Z.eqb_spec (num_per_split a) 0) as [Hn|Hn]; cbn [andb].
  - destruct (run_zero chunk_size a fs (c :: data) Hcs Hin Hidx ltac:(done) Hn)
      as (new & _ & Hrun).
    pose proof (terminators_nonneg false (c :: data)) as Hge.
    destruct (Z.eqb_spec (terminators false (c :: data)) 0) as [Hz|Hnz].
    + destruct (Z.ltb_spec 0 (terminators false (c :: data))) as [?|_]; [lia|].
      destruct Hrun as (mid & closed' & -> & [I _] & _ & _ & _ & Hiff).
      eexists. split; [reflexivity|].
      destruct (exit_facts _ _ _ _ _ mid
                  (print (summary (record_num mid) (output_filenum mid)) mid)
                  closed' I (same_world_print _ mid) Hiff)
        as (H1 & H2 & H3 & H4 & H5 & H6 & _).
      split; [exact H1|]. split; [exact H2|]. split; [exact H3|].
      split; [exact H4|]. rewrite H6, H5. by rewrite last_snoc.
    + destruct (Z.ltb_spec 0 (terminators false (c :: data))) as [_|?]; [|lia].
      destruct Hrun as (mc & mr & closed' & pre & chunk & rest & -> & [I _] & _
                        & Hw & _ & _ & _ & _ & _ & _ & _ & Hiff).
      eexists. split; [reflexivity|].
      destruct (exit_facts _ _ _ _ _ mc mr closed' I Hw Hiff)
        as (H1 & H2 & H3 & H4 & H5 & H6 & _).
      split; [exact H1|]. split; [exact H2|]. split; [exact H3|].
      split; [exact H4|]. rewrite H6, H5. by rewrite last_snoc.
  - destruct (run_returns chunk_size a fs (c :: data) Hcs Hin Hidx ltac:(done) Hn)
      as (m' & olds & cur & mid & closed' & -> & [I _] & _ & _ & -> & Hiff).
    eexists. split; [reflexivity|].
    destruct (exit_facts _ _ _ _ _ mid
                  (print (summary (record_num mid) (output_filenum mid)) mid)
                  closed' I (same_world_print _ mid) Hiff)
      as (H1 & H2 & H3 & H4 & H5 & H6 & _).
    split; [exact H1|]. split; [exact H2|]. split; [exact H3|].
      split; [exact H4|]. rewrite H6, H5. by rewrite last_snoc.
Qed.

(** X6.  With a split size of zero and an input that holds no line
    feed outside quotes, the division at line 126 is never reached:
    the run returns normally, having copied the input to one split
    file, and reports 0 records in 1 files. *)
Theorem zero_split_size_copies_input `{OsPath} (chunk_size : Z) (a : args)
    (fs : gmap string (list byte)) (data : list byte) :
  0 < chunk_size ->
  num_per_split a = 0 ->
  fs !! input_csv a = Some data ->
  index_taken a fs = false ->
  data <> [] ->
  terminators false data = 0 ->
  exists m' cur,
    run chunk_size a fs = Ok m' /\
    outputs m' = [cur] /\ fs !! cur = None /\ (cur ∈ closed m') /\
    content m' cur = data /\
    record_num m' = 0 /\
    stdout m' = "Reading... " +:+ summary 0 1.
Proof.
  intros Hcs Hn Hin Hidx Hne Hterm.
  destruct (run_zero chunk_size a fs data Hcs Hin Hidx Hne Hn)
    as (new & _ & Hrun).
  rewrite Hterm in Hrun. cbn [Z.eqb] in Hrun.
  destruct Hrun as (mid & closed' & -> & [I Hlt] & Hob & _ & Hso & Hiff).
  destruct (exit_facts _ _ _ _ _ mid
              (print (summary (record_num mid) (output_filenum mid)) mid)
              closed' I (same_world_print _ mid) Hiff)
    as (_ & H2 & H3 & _ & H5 & _ & _ & H8).
  cbn [app] in H5.
  eexists _, new. split; [reflexivity|]. split; [exact H5|].
  split; [apply H3; rewrite H5; by apply list_elem_of_singleton|].
  split; [apply H2; left; rewrite H5; by apply list_elem_of_singleton|].
  pose proof (core_concat _ _ _ _ _ _ I) as Hcat.
  pose proof (core_count _ _ _ _ _ _ I) as Hcnt.
  pose proof (core_filenum _ _ _ _ _ _ I) as Hnum.
  rewrite (core_outputs _ _ _ _ _ _ I) in Hcat, Hnum.
  cbn in Hcat, Hnum. rewrite Hob, !app_nil_r in Hcat.
  split; [unfold content in *; by rewrite H8|].
  rewrite Hterm in Hcnt.
  clear -Hcnt Hnum Hso. destruct mid. cbn in *. by subst.
Qed.

Lemma zero_split_size_copies_input_witness :
  exists m' cur,
    run 3 (Sample.plain 0) (Sample.only Sample.unterminated) = Ok m' /\
    outputs m' = [cur] /\ Sample.only Sample.unterminated !! cur = None /\
    (cur ∈ closed m') /\
    content m' cur = Sample.unterminated /\
    record_num m' = 0 /\
    stdout m' = "Reading... " +:+ summary 0 1.
Proof.
  apply (zero_split_size_copies_input 3 (Sample.plain 0)
           (Sample.only Sample.unterminated) Sample.unterminated);
    [reflexivity | reflexivity | reflexivity | reflexivity | discriminate
    | reflexivity].
Defined.

(** X7.  With a split size of zero and an input that holds a line feed
    outside quotes, the run ends with [ZeroDivisionError], raised at
    the first such line feed.  The one split file it created holds the
    whole chunks read before the chunk of that line feed, and so no
    complete record; it is closed by the [finally] block, and no
    summary is printed. *)
Theorem zero_split_size_raises `{OsPath} (chunk_size : Z) (a : args)
    (fs : gmap string (list byte)) (data : list byte) :
  0 < chunk_size ->
  num_per_split a = 0 ->
  fs !! input_csv a = Some data ->
  index_taken a fs = false ->
  terminators false data <> 0 ->
  exists m' cur k,
    run chunk_size a fs = Raise ZeroDivisionError m' /\
    outputs m' = [cur] /\ fs !! cur = None /\ (cur ∈ closed m') /\
    0 <= k /\
    content m' cur = take (Z.to_nat (k * chunk_size)) data /\
    terminators false (take (Z.to_nat (k * chunk_size)) data) = 0 /\
    terminators false (take (Z.to_nat ((k + 1) * chunk_size)) data) <> 0 /\
    record_num m' = 1 /\
    stdout m' = "Reading... ".
Proof.
  intros Hcs Hn Hin Hidx Hterm.
  assert (Hne : data <> []) by (by intros ->).
  destruct (run_zero chunk_size a fs data Hcs Hin Hidx Hne Hn)
    as (new & _ & Hrun).
  destruct (Z.eqb_spec (terminators false data) 0) as [?|_]; [done|].
  destruct Hrun as (mc & mr & closed' & pre & chunk & rest & -> & [I Hlt] & Hob
                    & Hw & Hrn & _ & Hso & Hcat & Hchunk & Hal & Hchk & Hiff).
  destruct (exit_facts _ _ _ _ _ mc mr closed' I Hw Hiff)
    as (_ & H2 & H3 & _ & H5 & _ & _ & H8).
  cbn [app] in H5.
  assert (Hk : Z.of_nat (length pre)
               = Z.of_nat (length pre) / chunk_size * chunk_size).
  { apply Z.div_exact in Hal; lia. }
  assert (Hpre : content mc new = pre).
  { pose proof (core_concat _ _ _ _ _ _ I) as Hc.
    rewrite (core_outputs _ _ _ _ _ _ I) in Hc. cbn in Hc.
    by rewrite Hob, !app_nil_r in Hc. }
  assert (Hpre0 : terminators false pre = 0).
  { destruct (core_decompose _ _ _ _ _ _ I) as [_ Ht].
    pose proof (terminators_nonneg false (content mc new ++ outbuf mc)).
    cbn in Ht. lia. }
  eexists _, new, (Z.of_nat (length pre) / chunk_size).
  split; [reflexivity|]. split; [exact H5|].
  split; [apply H3; rewrite H5; by apply list_elem_of_singleton|].
  split; [apply H2; left; rewrite H5; by apply list_elem_of_singleton|].
  split; [apply Z.div_pos; lia|].
  assert (Htake : take (Z.to_nat (Z.of_nat (length pre) / chunk_size * chunk_size))
                    data = pre).
  { rewrite <- Hk, Nat2Z.id, Hcat. apply take_app_length. }
  rewrite Htake.
  split; [unfold content in *; by rewrite H8|].
  split; [done|]. split.
  { replace (Z.to_nat ((Z.of_nat (length pre) / chunk_size + 1) * chunk_size))
      with (length pre + Z.to_nat chunk_size)%nat by lia.
    rewrite Hcat, take_app_add, <- Hchunk, terminators_app, Hpre0. lia. }
  clear -Hrn Hso. destruct mr. cbn in *. by subst.
Qed.

Lemma zero_split_size_raises_witness :
  exists m' cur k,
    run 3 (Sample.plain 0) (Sample.only Sample.two_records)
    = Raise ZeroDivisionError m' /\
    outputs m' = [cur] /\ Sample.only Sample.two_records !! cur = None /\
    (cur ∈ closed m') /\
    0 <= k /\
    content m' cur = take (Z.to_nat (k * 3)) Sample.two_records /\
    terminators false (take (Z.to_nat (k * 3)) Sample.two_records) = 0 /\
    terminators false (take (Z.to_nat ((k + 1) * 3)) Sample.two_records) <> 0 /\
    record_num m' = 1 /\
    stdout m' = "Reading... ".
Proof.
  apply (zero_split_size_raises 3 (Sample.plain 0)
           (Sample.only Sample.two_records) Sample.two_records);
    [reflexivity | reflexivity | reflexivity | reflexivity
    | vm_compute; discriminate].
Defined.

(** X8.  How a run ends can be read off its arguments and the file
    system: [FileNotFoundError] when the input is missing, a normal
    return on an empty input, [FileExistsError] when the index path is
    taken, [ZeroDivisionError] when the split size is zero and the
    input holds a line feed outside quotes, and a normal return in
    every other case.  No other exception leaves the program; in
    particular the stack is never popped empty and no closed handle is
    written to. *)
Theorem exit_is_predicted `{OsPath} (chunk_size : Z) (a : args)
    (fs : gmap string (list byte)) :
  0 < chunk_size ->
  exists m',
    run chunk_size a fs
    = match predicted_exception a fs with
      | None => Ok m'
      | Some e => Raise e m'
      end.
Proof.
  intros Hcs.
  destruct (run_exits chunk_size a fs Hcs) as (m' & Hrun & _).
  by exists m'.
Qed.

Lemma exit_is_predicted_witness :
  exists m',
    run 3 (Sample.plain 0) (Sample.only Sample.two_records)
    = match predicted_exception (Sample.plain 0)
              (Sample.only Sample.two_records) with
      | None => Ok m'
      | Some e => Raise e m'
      end.
Proof.
  apply (exit_is_predicted 3 (Sample.plain 0)
           (Sample.only Sample.two_records)).
  reflexivity.
Defined.

Example predicted_exceptions :
  predicted_exception (Sample.plain 2) ∅ = Some FileNotFoundError /\
  predicted_exception (Sample.plain 0) (Sample.only []) = None /\
  predicted_exception (Sample.indexed 2)
    (<["in.idx" := []]> (Sample.only Sample.two_records))
  = Some FileExistsError /\
  predicted_exception (Sample.plain 0) (Sample.only Sample.two_records)
  = Some ZeroDivisionError /\
  predicted_exception (Sample.plain 0) (Sample.only Sample.unterminated)
  = None /\
  predicted_exception (Sample.indexed 2) (Sample.only Sample.two_records)
  = None.
Proof. by vm_compute. Qed.

(** X9.  However a run ends, every file that existed before it still
    has the contents it had: the program writes only to files it
    created. *)
Theorem existing_files_untouched `{OsPath} (chunk_size : Z) (a : args)
    (fs : gmap string (list byte)) (p : string) :
  0 < chunk_size ->
  is_Some (fs !! p) ->
  files (final (run chunk_size a fs)) !! p = fs !! p.
Proof.
  intros Hcs Hp.
  destruct (run_exits chunk_size a fs Hcs) as (m' & Hrun & Hkeep & _).
  rewrite Hrun. destruct (predicted_exception a fs); by apply Hkeep.
Qed.

Lemma existing_files_untouched_witness :
  files (final (run 3 (Sample.indexed 0) (Sample.only Sample.two_records)))
    !! "in.csv"
  = Sample.only Sample.two_records !! "in.csv".
Proof.
  apply (existing_files_untouched 3 (Sample.indexed 0)
           (Sample.only Sample.two_records) "in.csv");
    [reflexivity | by eexists].
Defined.

(** X10.  However a run ends, the handles that are closed at the exit
    are exactly the split files the run created and the index file if
    it was opened; the handle in [outfh] is the last split file, each
    of these files is new, and the index is none of the split files. *)
Theorem closed_what_was_opened `{OsPath} (chunk_size : Z) (a : args)
    (fs : gmap string (list byte)) :
  0 < chunk_size ->
  let m' := final (run chunk_size a fs) in
  (forall p, p ∈ closed m' <-> p ∈ outputs m' \/ indexfh m' = Some p) /\
  (forall p, p ∈ outputs m' -> fs !! p = None /\ is_Some (files m' !! p)) /\
  (forall ip, indexfh m' = Some ip ->
     fs !! ip = None /\ is_Some (files m' !! ip) /\ (ip ∉ outputs m')) /\
  outfh m' = last (outputs m').
Proof.
  intros Hcs.
  destruct (run_exits chunk_size a fs Hcs) as (m' & Hrun & _ & Hfacts).
  rewrite Hrun. by destruct (predicted_exception a fs).
Qed.

Lemma closed_what_was_opened_witness :
  let m' := final (run 3 (Sample.indexed 0)
                     (Sample.only Sample.two_records)) in
  (forall p, p ∈ closed m' <-> p ∈ outputs m' \/ indexfh m' = Some p) /\
  (forall p, p ∈ outputs m' ->
     Sample.only Sample.two_records !! p = None /\ is_Some (files m' !! p)) /\
  (forall ip, indexfh m' = Some ip ->
     Sample.only Sample.two_records !! ip = None /\
     is_Some (files m' !! ip) /\ (ip ∉ outputs m')) /\
  outfh m' = last (outputs m').
Proof.
  apply (closed_what_was_opened 3 (Sample.indexed 0)
           (Sample.only Sample.two_records)).
  reflexivity.
Defined.

(** ** The index file *)

Lemma index_entries_app n off q count pos l1 l2 :
  index_entries n off q count pos (l1 ++ l2)
  = index_entries n off q count pos l1
    ++ index_entries n off (quoted q l1) (count + terminators q l1)
         (pos + Z.of_nat (length l1)) l2.
Proof.
  revert q count pos.
  induction l1 as [|c l1 IH]; intros q count pos;
    cbn [index_entries app quoted terminators length].
  - by rewrite !Z.add_0_r.
  - rewrite IH, Nat2Z.inj_succ, Z.add_assoc.
    replace (pos + 1 + Z.of_nat (length l1)) with (pos + Z.succ (Z.of_nat (length l1)))
      by lia.
    by destruct (negb q && Byte.eqb c LF && _).
Qed.

Lemma index_entries_ext n off off' q count pos l :
  (forall j, 0 <= j < Z.of_nat (length l) -> off (pos + j) = off' (pos + j)) ->
  index_entries n off q count pos l = index_entries n off' q count pos l.
Proof.
  revert q count pos.
  induction l as [|c l IH]; intros q count pos Hoff; [done|].
  cbn [index_entries length] in *.
  rewrite (IH _ _ (pos + 1)).
  - specialize (Hoff 0). rewrite Z.add_0_r in Hoff. rewrite Hoff by lia. done.
  - intros j Hj. rewrite <- Z.add_assoc. apply Hoff. lia.
Qed.

Lemma index_lines_app es1 es2 :
  index_lines (es1 ++ es2) = index_lines es1 ++ index_lines es2.
Proof. unfold index_lines. by rewrite fmap_app, concat_app. Qed.

(** The offset written in a chunk of [L] bytes that starts at the
    chunk boundary [P] and is followed by [R] more bytes. *)
Lemma written_offset_in_chunk cs P L R j :
  0 < cs -> P mod cs = 0 -> 0 <= j < L -> L <= cs -> 0 <= R ->
  L = cs \/ R = 0 ->
  written_offset cs (P + L + R) (P + j) = P + L - cs + j + 1.
Proof.
  intros Hcs HP Hj HL HR Hfull. unfold written_offset.
  apply Z.div_exact in HP; [|lia].
  set (k := P / cs) in *.
  destruct (decide (L = cs)) as [->|Hshort].
  - assert (k + 1 <= (P + cs + R) / cs).
    { apply Z.div_le_lower_bound; [lia|]. nia. }
    destruct (Z.ltb_spec (P + j) ((P + cs + R) / cs * cs)); nia.
  - destruct Hfull as [? | ->]; [done|]. rewrite Z.add_0_r.
    assert (Hdiv : (P + L) / cs = k).
    { symmetry. apply (Z.div_unique _ _ _ L); lia. }
    assert (Hmod : (P + L) mod cs = L).
    { symmetry. apply (Z.mod_unique _ _ k); lia. }
    rewrite Hdiv, Hmod.
    destruct (Z.ltb_spec (P + j) (k * cs)); nia.
Qed.

Lemma fh_write_frame p data m m' q :
  fh_write (Some p) data m = Ok m' -> q <> p -> content m' q = content m q.
Proof.
  unfold fh_write. case_bool_decide; [done|]. intros [= <-] Hne.
  by apply content_insert_ne.
Qed.

(** Switching to the next split file leaves every other file that
    exists as it is. *)
Lemma switch_file_frame `{OsPath} a m cur :
  outfh m = Some cur ->
  cur ∉ closed m ->
  exists m',
    switch_file a m = Ok m' /\
    forall p, p <> cur -> is_Some (files m !! p) ->
              files m' !! p = files m !! p.
Proof.
  intros Hofh Hopen.
  destruct m as [rn ofn ofh ifh ib ob stk rest tell fl cl outs so].
  cbn in Hofh, Hopen. subst ofh.
  unfold switch_file, fh_write, fh_flush, fh_close, call_next_outfile.
  machine_simpl.
  rewrite bool_decide_eq_false_2 by done. cbn.
  rewrite bool_decide_eq_false_2 by done. cbn.
  destruct (next_outfile_creates (input_csv a) (output_dir a) (ofn + 1) 6
              (<[cur:=fl !!! cur ++ ob]> fl))
    as (k & new & Hnext & _ & Hnone & _).
  rewrite Hnext.
  eexists. split; [reflexivity|]. cbn. intros p Hne Hp.
  assert (Hnp : new <> p).
  { intros ->. rewrite lookup_insert_ne in Hnone by done.
    rewrite Hnone in Hp. by destruct Hp. }
  by rewrite !lookup_insert_ne.
Qed.

Section Index.

Context `{OsPath}.
Variable chunk_size : Z.
Variable a : args.
Variable fs : gmap string (list byte).
Hypothesis n_nonzero : num_per_split a <> 0.
Hypothesis chunk_positive : 0 < chunk_size.

(** What a byte adds to the index: a line when it ends a record whose
    number is a multiple of the split size, with the offset of line
    129. *)
Lemma process_byte_index pre olds cur index c m ip :
  inv (num_per_split a) fs pre olds cur m ->
  indexfh m = Some ip ->
  exists m',
    process_byte chunk_size a index c m = Ok m' /\
    content m' ip
    = content m ip
      ++ index_lines (index_entries (num_per_split a)
                        (fun _ => infh_tell m - chunk_size + index + 1)
                        (quoted false pre) (terminators false pre) 0 [c]).
Proof.
  intros [I Hlt] Hip.
  destruct (scan_settled (state m) c (core_state _ _ _ _ _ _ I))
    as (s1 & s' & _ & _ & Hscan & _).
  destruct (append_core _ _ _ _ _ _ c _ _ I Hscan) as [_ He].
  rewrite He in Hscan. clear He.
  rewrite (process_byte_unfold chunk_size a index c m s' _ Hscan). clear Hscan.
  cbn [index_entries].
  pose proof (core_count _ _ _ _ _ _ I) as Hc.
  pose proof (core_outfh _ _ _ _ _ _ I) as Hofh.
  destruct (handles_open _ _ _ _ _ _ I) as (Ho & Hi & Hne).
  specialize (Ho cur Hofh). specialize (Hi ip Hip). specialize (Hne ip cur Hip Hofh).
  destruct (core_index _ _ _ _ _ _ I ip Hip) as (Hex & _).
  rewrite <- Hc.
  assert (Hsame : forall e, content (appended c s' e m) ip = content m ip)
    by (intros e; by destruct m).
  assert (Hnil : index_lines [] = []) by done.
  destruct (negb (quoted false pre) && Byte.eqb c LF); cbn [andb].
  2:{ eexists. split; [reflexivity|]. by rewrite Hsame, Hnil, app_nil_r. }
  destruct (Z.eqb_spec (num_per_split a) 0) as [?|_]; [done|].
  assert (Hrn : record_num (appended c s' true m) = record_num m + 1)
    by (by destruct m).
  rewrite Hrn.
  destruct (Z.eqb_spec ((record_num m + 1) mod num_per_split a) 0) as [Hmod|Hmod].
  2:{ eexists. split; [reflexivity|]. by rewrite Hsame, Hnil, app_nil_r. }
  clear I Hlt Hc Hsame Hrn.
  destruct m as [rn ofn ofh ifh ib ob stk rest tell fl cl outs so].
  cbn in Hip, Hofh, Ho, Hi, Hex. subst ofh ifh.
  unfold appended, rotate. cbn.
  rewrite bool_decide_eq_false_2 by done. cbn [and_then].
  edestruct (switch_file_frame a) with (cur := cur) as (m' & Hsw & Hframe);
    [| |rewrite Hsw].
  - reflexivity.
  - done.
  - exists m'. split; [done|].
    unfold content, index_lines. cbn.
    rewrite !lookup_total_alt, Hframe; cbn.
    + by rewrite lookup_insert_eq, app_nil_r.
    + done.
    + rewrite lookup_insert_eq. by eexists.
Qed.

Lemma for_each_byte_index ip off l :
  forall pre olds cur index m,
    inv (num_per_split a) fs pre olds cur m ->
    indexfh m = Some ip ->
    (forall j, 0 <= j < Z.of_nat (length l) ->
       off (Z.of_nat (length pre) + j)
       = infh_tell m - chunk_size + (index + j) + 1) ->
    exists m',
      for_each_byte chunk_size a index l m = Ok m' /\
      content m' ip
      = content m ip
        ++ index_lines (index_entries (num_per_split a) off (quoted false pre)
                          (terminators false pre) (Z.of_nat (length pre)) l).
Proof.
  induction l as [|c l IH]; intros pre olds cur index m I Hip Hoff.
  - exists m. split; [done|]. cbn. by rewrite app_nil_r.
  - cbn [for_each_byte].
    destruct (process_byte_inv chunk_size a fs n_nonzero pre olds cur index c m I)
      as (m1 & olds1 & cur1 & Hstep & I1 & Hsame1).
    destruct (process_byte_index pre olds cur index c m ip I Hip)
      as (m1' & Hstep' & Hc1).
    rewrite Hstep in Hstep'. injection Hstep' as <-.
    rewrite Hstep. cbn [and_then].
    destruct Hsame1 as (_ & _ & Htell1 & Hix1).
    destruct (IH (pre ++ [c]) olds1 cur1 (index + 1) m1 I1) as (m' & Hrest & Hc').
    + congruence.
    + intros j Hj. rewrite length_app, Nat2Z.inj_add, Htell1. cbn [length].
      replace (Z.of_nat (length pre) + Z.of_nat 1 + j)
        with (Z.of_nat (length pre) + (j + 1)) by lia.
      rewrite Hoff by (cbn [length]; lia). lia.
    + exists m'. split; [done|].
      rewrite Hc', Hc1, <- app_assoc, <- index_lines_app. f_equal. f_equal.
      rewrite quoted_app, terminators_app, terminators_one, length_app,
        Nat2Z.inj_add.
      cbn [index_entries quoted length].
      specialize (Hoff 0 ltac:(cbn [length]; lia)).
      rewrite !Z.add_0_r in Hoff. rewrite Hoff.
      change (Z.of_nat 1) with 1.
      by destruct (negb (quoted false pre) && Byte.eqb c LF && _).
Qed.

(** The main loop writes to the index the entries of the rest of the
    input, with the offsets of [written_offset]. *)
Lemma while_inbuf_index ip total fuel :
  forall pre olds cur m,
    inv (num_per_split a) fs pre olds cur m ->
    outbuf m = [] ->
    (inbuf m = [] -> infh_rest m = []) ->
    (inbuf m = [] \/ (length (infh_rest m) < fuel)%nat) ->
    indexfh m = Some ip ->
    inbuf m = take (Z.to_nat chunk_size) (inbuf m ++ infh_rest m) ->
    (inbuf m = [] \/ Z.of_nat (length pre) mod chunk_size = 0) ->
    infh_tell m = Z.of_nat (length pre) + Z.of_nat (length (inbuf m)) ->
    total = Z.of_nat (length pre) + Z.of_nat (length (inbuf m))
            + Z.of_nat (length (infh_rest m)) ->
    exists m',
      while_inbuf chunk_size fuel a m = Ok m' /\
      content m' ip
      = content m ip
        ++ index_lines
             (index_entries (num_per_split a) (written_offset chunk_size total)
                (quoted false pre) (terminators false pre)
                (Z.of_nat (length pre)) (inbuf m ++ infh_rest m)).
Proof.
  induction fuel as [|fuel IH];
    intros pre olds cur m I Hob Hdr Hfuel Hip Hchunk Halign Htell Htotal.
  - destruct Hfuel as [Hnil|?]; [|lia]. cbn. rewrite Hnil, (Hdr Hnil).
    exists m. cbn. by rewrite app_nil_r.
  - cbn [while_inbuf].
    destruct (inbuf m) as [|c chunk] eqn:Hin.
    { rewrite (Hdr eq_refl). exists m. cbn. by rewrite app_nil_r. }
    destruct Halign as [?|Halign]; [done|].
    assert (Hlen : (length (c :: chunk)
                    = Z.to_nat chunk_size `min`
                        (length (c :: chunk) + length (infh_rest m)))%nat).
    { rewrite Hchunk at 1. by rewrite length_take, length_app. }
    destruct (for_each_byte_inv chunk_size a fs n_nonzero (c :: chunk)
                pre olds cur 0 m I) as (m1 & olds1 & cur1 & Hfor & I1 & Hs1).
    destruct (for_each_byte_index ip (written_offset chunk_size total) (c :: chunk)
                pre olds cur 0 m I Hip) as (m1' & Hfor' & Hc1).
    { intros j Hj. rewrite Htotal, Htell.
      rewrite written_offset_in_chunk; lia. }
    rewrite Hfor in Hfor'. injection Hfor' as <-.
    rewrite Hfor. cbn [and_then].
    destruct (flush_inv a fs _ _ _ _ I1) as (m2 & Hw & I2 & Hs2 & _).
    rewrite Hw. cbn [and_then].
    assert (Hip1 : indexfh m1 = Some ip).
    { destruct Hs1 as (_ & _ & _ & Hi1). congruence. }
    assert (Hc2 : content m2 ip = content m1 ip).
    { destruct I1 as [I1 _].
      pose proof (core_outfh _ _ _ _ _ _ I1) as Hofh1.
      destruct (handles_open _ _ _ _ _ _ I1) as (_ & _ & Hne1).
      rewrite Hofh1 in Hw.
      apply (fh_write_frame _ _ _ _ _ Hw). by apply Hne1. }
    apply (infh_read_inv chunk_size a) in I2.
    set (m3 := infh_read chunk_size (set_outbuf [] m2)) in *.
    assert (Hrest2 : infh_rest (set_outbuf [] m2) = infh_rest m).
    { destruct Hs1 as (_ & Hr1 & _), Hs2 as (_ & Hr2 & _).
      destruct m2. cbn in *. congruence. }
    assert (Hix3 : indexfh m3 = Some ip).
    { destruct Hs2 as (_ & _ & _ & Hi2).
      unfold m3. destruct m2. cbn in *. congruence. }
    assert (Hc3 : content m3 ip = content m2 ip).
    { unfold m3. by destruct m2. }
    assert (Hsplit3 : inbuf m3 ++ infh_rest m3 = infh_rest m).
    { unfold m3. by rewrite infh_read_split. }
    assert (Hchunk3 : inbuf m3 = take (Z.to_nat chunk_size) (infh_rest m)).
    { unfold m3. by rewrite infh_read_chunk, Hrest2. }
    assert (Htell3 : infh_tell m3
                     = infh_tell m + Z.of_nat (length (inbuf m3))).
    { destruct Hs1 as (_ & _ & Ht1 & _), Hs2 as (_ & _ & Ht2 & _).
      unfold m3. destruct m2. cbn in *. congruence. }
    destruct (IH (pre ++ c :: chunk) olds1 cur1 m3 I2) as (m' & Hloop & Hc').
    + unfold m3. by destruct m2.
    + apply (infh_read_drained chunk_size chunk_positive).
    + destruct (decide (inbuf m3 = [])) as [?|Hne]; [by left|right].
      apply (infh_read_shrinks chunk_size chunk_positive) in Hne.
      rewrite Hrest2 in Hne. fold m3 in Hne.
      destruct Hfuel as [?|?]; [done|lia].
    + done.
    + by rewrite Hsplit3.
    + destruct (decide (length (c :: chunk) = Z.to_nat chunk_size))
        as [Hfull|Hshort].
      * right. rewrite length_app, Nat2Z.inj_add, Hfull, Z2Nat.id by lia.
        rewrite <- (Z.mul_1_l chunk_size) at 1.
        by rewrite Z_mod_plus_full.
      * left. rewrite Hchunk3.
        destruct (infh_rest m); [by rewrite take_nil|].
        cbn [length] in *. lia.
    + rewrite Htell3, Htell, length_app. lia.
    + rewrite Htotal, length_app, <- Hsplit3, (length_app (inbuf m3)). lia.
    + exists m'. split; [done|].
      rewrite Hc', Hc3, Hc2, Hc1, <- app_assoc, <- index_lines_app.
      f_equal. f_equal.
      rewrite Hsplit3, index_entries_app, quoted_app, terminators_app,
        length_app, Nat2Z.inj_add.
      done.
Qed.

End Index.

(** A run that writes an index: what the index file holds at the
    end. *)
Lemma run_writes_index `{OsPath} (chunk_size : Z) (a : args)
    (fs : gmap string (list byte)) (data : list byte) (ip : string) :
  0 < chunk_size ->
  num_per_split a <> 0 ->
  fs !! input_csv a = Some data ->
  data <> [] ->
  generate_index a = Some ip ->
  ip <> "" ->
  fs !! ip = None ->
  exists m',
    run chunk_size a fs = Ok m' /\
    indexfh m' = Some ip /\ (ip ∈ closed m') /\
    content m' ip
    = index_lines (index_entries (num_per_split a)
                     (written_offset chunk_size (Z.of_nat (length data)))
                     false 0 0 data).
Proof.
  intros Hcs Hn Hin Hne Hgi Hnonempty Hfree.
  assert (Hpath : index_path a = Some ip).
  { unfold index_path. rewrite Hgi. cbn. by rewrite bool_decide_eq_true_2. }
  assert (Hidx : index_taken a fs = false).
  { unfold index_taken. rewrite Hgi, Hfree. apply andb_false_iff. right.
    apply bool_decide_eq_false. by intros [? ?]. }
  destruct (run_starts chunk_size a fs data Hcs Hin Hidx Hne)
    as (m0 & new & -> & I0 & Hob0 & Hne0 & Hsplit & Hchunk & Hifh0 & _
        & Htell0 & Hempty0 & _).
  rewrite Hpath in Hifh0.
  apply (inv_at_start 1 (num_per_split a)) in I0; [|done].
  destruct (while_inbuf_completes chunk_size a fs Hn Hcs
              (S (length (infh_rest m0))) [] [] new m0 I0 Hob0)
    as (mid & olds & cur & Hloop & Imid & Hob & Hifh); [done|right; lia|].
  destruct (while_inbuf_index chunk_size a fs Hn Hcs ip
              (Z.of_nat (length data)) (S (length (infh_rest m0)))
              [] [] new m0 I0 Hob0) as (mid' & Hloop' & Hc).
  { done. }
  { right. lia. }
  { done. }
  { by rewrite Hsplit. }
  { right. by rewrite Z.mod_0_l by lia. }
  { cbn [length]. lia. }
  { rewrite <- Hsplit, length_app. cbn [length]. lia. }
  rewrite Hloop in Hloop'. injection Hloop' as <-.
  rewrite Hloop. cbn [and_then].
  destruct (run_ends a fs _ _ _ _ _ Imid Hob)
    as (closed' & -> & Hiff).
  eexists. split; [reflexivity|].
  rewrite Hifh0 in Hifh.
  assert (Hc0 : content m0 ip = []).
  { unfold content. by rewrite lookup_total_alt, (Hempty0 ip Hifh0). }
  rewrite Hc0, Hsplit in Hc. cbn [app quoted terminators length] in Hc.
  split; [by destruct mid|]. split.
  { assert (Hin' : ip ∈ closed') by (apply Hiff; by right; right).
    by destruct mid. }
  transitivity (content mid ip); [by destruct mid | exact Hc].
Qed.

(** X11.  When an index is asked for, the run ends with an index file
    that holds one line for every line feed outside quotes at which
    the record count is a multiple of the split size: the record
    count, and the offset after the line feed when it lies in a whole
    chunk, that offset less the bytes the chunk is short of a whole
    one when it lies in a short last chunk. *)
Theorem index_file_contents `{OsPath} (chunk_size : Z) (a : args)
    (fs : gmap string (list byte)) (data : list byte) (ip : string) :
  0 < chunk_size ->
  num_per_split a <> 0 ->
  fs !! input_csv a = Some data ->
  data <> [] ->
  generate_index a = Some ip ->
  ip <> "" ->
  fs !! ip = None ->
  exists m',
    run chunk_size a fs = Ok m' /\
    indexfh m' = Some ip /\ (ip ∈ closed m') /\
    content m' ip
    = index_lines (index_entries (num_per_split a)
                     (written_offset chunk_size (Z.of_nat (length data)))
                     false 0 0 data).
Proof. apply run_writes_index. Qed.

Lemma index_file_contents_witness :
  exists m',
    run 3 (Sample.indexed 1) (Sample.only Sample.two_records) = Ok m' /\
    indexfh m' = Some "in.idx" /\ ("in.idx" ∈ closed m') /\
    content m' "in.idx"
    = index_lines (index_entries 1
                     (written_offset 3 (Z.of_nat (length Sample.two_records)))
                     false 0 0 Sample.two_records).
Proof.
  apply (index_file_contents 3 (Sample.indexed 1)
           (Sample.only Sample.two_records) Sample.two_records "in.idx");
    [reflexivity | discriminate | reflexivity | discriminate | reflexivity
    | discriminate | reflexivity].
Defined.

Example index_of_two_records :
  index_entries 1 (written_offset 3 8) false 0 0 Sample.two_records
  = [(1, 4); (2, 7)] /\
  index_entries 1 (written_offset 4 8) false 0 0 Sample.two_records
  = [(1, 4); (2, 8)].
Proof. by vm_compute. Qed.

(** X12.  When the length of the input is a multiple of the chunk
    size, every line of the index holds the offset of the byte after
    the record end, which is where the next split file starts in the
    input. *)
Theorem index_right_on_whole_chunks `{OsPath} (chunk_size : Z) (a : args)
    (fs : gmap string (list byte)) (data : list byte) (ip : string) :
  0 < chunk_size ->
  num_per_split a <> 0 ->
  fs !! input_csv a = Some data ->
  data <> [] ->
  generate_index a = Some ip ->
  ip <> "" ->
  fs !! ip = None ->
  Z.of_nat (length data) mod chunk_size = 0 ->
  exists m',
    run chunk_size a fs = Ok m' /\
    content m' ip
    = index_lines (index_entries (num_per_split a) Z.succ false 0 0 data).
Proof.
  intros Hcs Hn Hin Hne Hgi Hnonempty Hfree Hwhole.
  destruct (run_writes_index chunk_size a fs data ip Hcs Hn Hin Hne Hgi
              Hnonempty Hfree) as (m' & Hrun & _ & _ & Hc).
  exists m'. split; [done|]. rewrite Hc. f_equal.
  apply index_entries_ext. intros j Hj. unfold written_offset.
  apply Z.div_exact in Hwhole; [|lia].
  rewrite Z.mul_comm, <- Hwhole.
  destruct (Z.ltb_spec (0 + j) (Z.of_nat (length data))); lia.
Qed.

Lemma index_right_on_whole_chunks_witness :
  exists m',
    run 4 (Sample.indexed 1) (Sample.only Sample.two_records) = Ok m' /\
    content m' "in.idx"
    = index_lines (index_entries 1 Z.succ false 0 0 Sample.two_records).
Proof.
  apply (index_right_on_whole_chunks 4 (Sample.indexed 1)
           (Sample.only Sample.two_records) Sample.two_records "in.idx");
    [reflexivity | discriminate | reflexivity | discriminate | reflexivity
    | discriminate | reflexivity | reflexivity].
Defined.

(** ** The index and the split files *)

(** No entry while the count stays short of the next multiple of the
    split size. *)
Lemma index_entries_none n off q len r pos l :
  n <> 0 -> 0 <= r -> r + terminators q l < Z.abs n ->
  index_entries n off q (Z.abs n * len + r) pos l = [].
Proof.
  intros Hn. revert q r pos.
  induction l as [|c l IH]; intros q r pos Hr Hlt; [done|].
  cbn [index_entries terminators] in *.
  pose proof (terminators_nonneg (xorb q (Byte.eqb c QUOTE)) l) as Hge.
  rewrite <- Z.add_assoc.
  rewrite IH by (destruct (negb q && Byte.eqb c LF); lia).
  destruct (negb q && Byte.eqb c LF); [|done]. cbn [andb].
  destruct (Z.eqb_spec ((Z.abs n * len + (r + 1)) mod n) 0) as [Hmod|_]; [|done].
  rewrite Z.add_assoc in Hmod. apply boundary_iff in Hmod; lia.
Qed.

(** A split file of [n] whole records gives one entry, at its end. *)
Lemma index_entries_block n len pos b :
  n <> 0 -> whole_records (Z.abs n) b ->
  index_entries n Z.succ false (Z.abs n * len) pos b
  = [(Z.abs n * len + Z.abs n, pos + Z.of_nat (length b))].
Proof.
  intros Hn [Ht (b' & -> & Hq)].
  rewrite terminators_app, Hq in Ht. cbn in Ht.
  rewrite index_entries_app, Hq.
  rewrite <- (Z.add_0_r (Z.abs n * len)) at 1.
  rewrite index_entries_none by lia. cbn [app index_entries].
  replace (negb false && Byte.eqb LF LF) with true by done. cbn [andb].
  replace (Z.abs n * len + terminators false b' + 1)
    with (Z.abs n * len + Z.abs n) by lia.
  assert (Hmod : (Z.abs n * len + Z.abs n) mod n = 0).
  { replace (Z.abs n * len + Z.abs n)
      with (Z.abs n * len + (Z.abs n - 1) + 1) by lia.
    apply boundary_iff; lia. }
  rewrite Hmod. cbn [Z.eqb]. rewrite length_app. cbn [length].
  f_equal. f_equal. lia.
Qed.

Lemma index_entries_blocks n bs last :
  n <> 0 ->
  Forall (whole_records (Z.abs n)) bs ->
  terminators false last < Z.abs n ->
  forall len pos,
    index_entries n Z.succ false (Z.abs n * len) pos (concat bs ++ last)
    = file_starts (Z.abs n) (Z.abs n * len) pos bs.
Proof.
  intros Hn Hbs Hlast.
  induction Hbs as [|b bs Hb _ IH]; intros len pos; cbn [concat app file_starts].
  - rewrite <- (Z.add_0_r (Z.abs n * len)).
    apply index_entries_none; [done|lia|].
    pose proof (terminators_nonneg false last). lia.
  - rewrite <- app_assoc, index_entries_app.
    rewrite (index_entries_block n len pos b Hn Hb).
    rewrite (whole_records_closed _ _ Hb).
    destruct Hb as [-> _]. cbn [app]. f_equal.
    replace (Z.abs n * len + Z.abs n) with (Z.abs n * (len + 1)) by lia.
    apply IH.
Qed.

(** X13.  When the length of the input is a multiple of the chunk
    size, the index tells where the split files start: it holds one
    line for every split file but the last, with the number of records
    up to the end of that file, a multiple of the split size, and the
    offset in the input at which that file ends and the next one
    starts. *)
Theorem index_points_at_split_files `{OsPath} (chunk_size : Z) (a : args)
    (fs : gmap string (list byte)) (data : list byte) (ip : string) :
  0 < chunk_size ->
  num_per_split a <> 0 ->
  fs !! input_csv a = Some data ->
  data <> [] ->
  generate_index a = Some ip ->
  ip <> "" ->
  fs !! ip = None ->
  Z.of_nat (length data) mod chunk_size = 0 ->
  exists m' olds cur,
    run chunk_size a fs = Ok m' /\
    outputs m' = olds ++ [cur] /\
    content m' ip
    = index_lines (file_starts (Z.abs (num_per_split a)) 0 0
                     (content m' <$> olds)).
Proof.
  intros Hcs Hn Hin Hne Hgi Hnonempty Hfree Hwhole.
  destruct (run_writes_index chunk_size a fs data ip Hcs Hn Hin Hne Hgi
              Hnonempty Hfree) as (m' & Hrun & _ & _ & Hc).
  assert (Hidx : index_taken a fs = false).
  { unfold index_taken. rewrite Hgi, Hfree. apply andb_false_iff. right.
    apply bool_decide_eq_false. by intros [? ?]. }
  destruct (run_completes chunk_size a fs data Hn Hcs Hin Hidx)
    as (m'' & Hrun' & [(-> & _)|(_ & olds & cur & Hfin)]); [done|].
  rewrite Hrun in Hrun'. injection Hrun' as <-.
  apply finished_facts in Hfin
    as (_ & Houts & _ & _ & _ & _ & Hcat & Hbl & Hlt & _).
  exists m', olds, cur. split; [done|]. split; [done|].
  rewrite Hc. f_equal.
  rewrite (index_entries_ext _ _ Z.succ).
  - rewrite <- Hcat, Houts, fmap_app, concat_app. cbn [fmap list_fmap concat].
    rewrite app_nil_r.
    rewrite <- (Z.mul_0_r (Z.abs (num_per_split a))).
    apply index_entries_blocks; [done| |done].
    by apply Forall_fmap.
  - intros j Hj. unfold written_offset.
    apply Z.div_exact in Hwhole; [|lia].
    rewrite Z.mul_comm, <- Hwhole.
    destruct (Z.ltb_spec (0 + j) (Z.of_nat (length data))); lia.
Qed.

Lemma index_points_at_split_files_witness :
  exists m' olds cur,
    run 4 (Sample.indexed (-1)) (Sample.only Sample.two_records) = Ok m' /\
    outputs m' = olds ++ [cur] /\
    content m' "in.idx"
    = index_lines (file_starts 1 0 0 (content m' <$> olds)).
Proof.
  apply (index_points_at_split_files 4 (Sample.indexed (-1))
           (Sample.only Sample.two_records) Sample.two_records "in.idx");
    [reflexivity | discriminate | reflexivity | discriminate | reflexivity
    | discriminate | reflexivity | reflexivity].
Defined.

(** ** The names of the split files *)

Lemma numbered_in_order_snoc `{OsPath} a l (k : nat) :
  numbered_in_order a l ->
  numbered_in_order a
    (l ++ [candidate
             (initial_output_path (input_csv a) (output_dir a)
                (Z.of_nat (length l) + 1) 6)
             (Z.of_nat k)]).
Proof.
  intros Hl i p Hp.
  apply lookup_app_Some in Hp as [Hp|[Hi Hp]]; [by apply Hl|].
  apply list_lookup_singleton_Some in Hp as [Hz <-].
  exists k. do 3 f_equal. lia.
Qed.

(** Switching to the next split file appends a name for the next
    counter. *)
Lemma switch_file_path `{OsPath} a m cur :
  outfh m = Some cur ->
  cur ∉ closed m ->
  exists m' (k : nat),
    switch_file a m = Ok m' /\
    outputs m'
    = outputs m
      ++ [candidate
            (initial_output_path (input_csv a) (output_dir a)
               (output_filenum m + 1) 6)
            (Z.of_nat k)].
Proof.
  intros Hofh Hopen.
  destruct m as [rn ofn ofh ifh ib ob stk rest tell fl cl outs so].
  cbn in Hofh, Hopen. subst ofh.
  unfold switch_file, fh_write, fh_flush, fh_close, call_next_outfile.
  machine_simpl.
  rewrite bool_decide_eq_false_2 by done. cbn.
  rewrite bool_decide_eq_false_2 by done. cbn.
  destruct (next_outfile_creates (input_csv a) (output_dir a) (ofn + 1) 6
              (<[cur:=fl !!! cur ++ ob]> fl))
    as (k & new & Hnext & -> & _).
  rewrite Hnext.
  eexists _, k. split; [reflexivity|]. done.
Qed.

Section Names.

Context `{OsPath}.
Variable chunk_size : Z.
Variable a : args.
Variable fs : gmap string (list byte).
Hypothesis n_nonzero : num_per_split a <> 0.
Hypothesis chunk_positive : 0 < chunk_size.

Lemma process_byte_numbered pre olds cur index c m :
  inv (num_per_split a) fs pre olds cur m ->
  numbered_in_order a (outputs m) ->
  exists m',
    process_byte chunk_size a index c m = Ok m' /\
    numbered_in_order a (outputs m').
Proof.
  intros [I Hlt] Hnames.
  destruct (scan_settled (state m) c (core_state _ _ _ _ _ _ I))
    as (s1 & s' & _ & _ & Hscan & _).
  rewrite (process_byte_unfold chunk_size a index c m s' _ Hscan). clear Hscan.
  pose proof (core_outfh _ _ _ _ _ _ I) as Hofh.
  pose proof (core_filenum _ _ _ _ _ _ I) as Hnum.
  destruct (handles_open _ _ _ _ _ _ I) as (Ho & Hi & Hne).
  specialize (Ho cur Hofh).
  assert (Hsame : forall e, outputs (appended c s' e m) = outputs m)
    by (intros e; by destruct m).
  destruct (negb (open_quote (state m)) && Byte.eqb c LF).
  2:{ eexists. split; [reflexivity|]. by rewrite Hsame. }
  destruct (Z.eqb_spec (num_per_split a) 0) as [?|_]; [done|].
  destruct (_ mod _ =? 0).
  2:{ eexists. split; [reflexivity|]. by rewrite Hsame. }
  clear I Hlt Hsame.
  destruct m as [rn ofn ofh ifh ib ob stk rest tell fl cl outs so].
  cbn in Hofh, Ho, Hi, Hne, Hnum, Hnames. subst ofh.
  unfold appended, rotate. cbn.
  destruct ifh as [ip|].
  - specialize (Hi ip eq_refl). cbn.
    rewrite bool_decide_eq_false_2 by done. cbn [and_then].
    edestruct (switch_file_path a) with (cur := cur) as (m' & k & Hsw & Houts);
      [| |rewrite Hsw].
    + reflexivity.
    + done.
    + exists m'. split; [done|]. rewrite Houts. cbn. rewrite Hnum.
      by apply numbered_in_order_snoc.
  - cbn [and_then].
    edestruct (switch_file_path a) with (cur := cur) as (m' & k & Hsw & Houts);
      [| |rewrite Hsw].
    + reflexivity.
    + done.
    + exists m'. split; [done|]. rewrite Houts. cbn. rewrite Hnum.
      by apply numbered_in_order_snoc.
Qed.

Lemma for_each_byte_numbered l :
  forall pre olds cur index m,
    inv (num_per_split a) fs pre olds cur m ->
    numbered_in_order a (outputs m) ->
    exists m',
      for_each_byte chunk_size a index l m = Ok m' /\
      numbered_in_order a (outputs m').
Proof.
  induction l as [|c l IH]; intros pre olds cur index m I Hnames.
  - by exists m.
  - cbn [for_each_byte].
    destruct (process_byte_inv chunk_size a fs n_nonzero pre olds cur index c m I)
      as (m1 & olds1 & cur1 & Hstep & I1 & _).
    destruct (process_byte_numbered pre olds cur index c m I Hnames)
      as (m1' & Hstep' & Hnames1).
    rewrite Hstep in Hstep'. injection Hstep' as <-.
    rewrite Hstep. cbn [and_then].
    by apply (IH (pre ++ [c]) olds1 cur1).
Qed.

Lemma while_inbuf_numbered fuel :
  forall pre olds cur m,
    inv (num_per_split a) fs pre olds cur m ->
    outbuf m = [] ->
    (inbuf m = [] -> infh_rest m = []) ->
    (inbuf m = [] \/ (length (infh_rest m) < fuel)%nat) ->
    numbered_in_order a (outputs m) ->
    exists m',
      while_inbuf chunk_size fuel a m = Ok m' /\
      numbered_in_order a (outputs m').
Proof.
  induction fuel as [|fuel IH]; intros pre olds cur m I Hob Hdr Hfuel Hnames.
  - destruct Hfuel as [Hnil|?]; [|lia]. cbn. rewrite Hnil. by exists m.
  - cbn [while_inbuf].
    destruct (inbuf m) as [|c chunk] eqn:Hin; [by exists m|].
    destruct (for_each_byte_inv chunk_size a fs n_nonzero (c :: chunk)
                pre olds cur 0 m I) as (m1 & olds1 & cur1 & Hfor & I1 & Hs1).
    destruct (for_each_byte_numbered (c :: chunk) pre olds cur 0 m I Hnames)
      as (m1' & Hfor' & Hnames1).
    rewrite Hfor in Hfor'. injection Hfor' as <-.
    rewrite Hfor. cbn [and_then].
    destruct (flush_inv a fs _ _ _ _ I1) as (m2 & Hw & I2 & Hs2 & _).
    rewrite Hw. cbn [and_then].
    apply (infh_read_inv chunk_size a) in I2.
    set (m3 := infh_read chunk_size (set_outbuf [] m2)) in *.
    assert (Hrest2 : infh_rest (set_outbuf [] m2) = infh_rest m).
    { destruct Hs1 as (_ & Hr1 & _), Hs2 as (_ & Hr2 & _).
      destruct m2. cbn in *. congruence. }
    apply (IH (pre ++ c :: chunk) olds1 cur1 m3 I2).
    + unfold m3. by destruct m2.
    + apply (infh_read_drained chunk_size chunk_positive).
    + destruct (decide (inbuf m3 = [])) as [?|Hne]; [by left|right].
      apply (infh_read_shrinks chunk_size chunk_positive) in Hne.
      rewrite Hrest2 in Hne. fold m3 in Hne.
      destruct Hfuel as [?|?]; [done|lia].
    + destruct I1 as [I1 _], I2 as [I2 _].
      rewrite (core_outputs _ _ _ _ _ _ I2).
      by rewrite <- (core_outputs _ _ _ _ _ _ I1).
Qed.

End Names.

Lemma numbered_in_order_nil `{OsPath} a : numbered_in_order a [].
Proof. intros i p Hp. by rewrite lookup_nil in Hp. Qed.

(** X14.  However a run ends, the split files it created are numbered
    from 1 in the order of their creation: the [i]-th (from 0) is the
    name [next_outfile] builds for the counter [i + 1], as it is or
    with a retry number when that name was taken. *)
Theorem split_files_numbered_in_order `{OsPath} (chunk_size : Z) (a : args)
    (fs : gmap string (list byte)) :
  0 < chunk_size ->
  numbered_in_order a (outputs (final (run chunk_size a fs))).
Proof.
  intros Hcs.
  destruct (fs !! input_csv a) as [data|] eqn:Hin.
  2:{ rewrite (run_without_input _ _ _ Hin). apply numbered_in_order_nil. }
  destruct data as [|c data].
  { destruct (run_on_empty chunk_size a fs Hin) as (m' & -> & _ & Ho & _).
    cbn [final]. rewrite Ho. apply numbered_in_order_nil. }
  destruct (index_taken a fs) eqn:Hidx.
  { destruct (run_index_taken chunk_size a fs (c :: data) Hcs Hin ltac:(done) Hidx)
      as (m' & -> & _ & Ho & _).
    cbn [final]. rewrite Ho. apply numbered_in_order_nil. }
  destruct (decide (num_per_split a = 0)) as [Hn|Hn].
  - destruct (run_zero chunk_size a fs (c :: data) Hcs Hin Hidx ltac:(done) Hn)
      as (new & Hnames & Hrun).
    destruct (terminators false (c :: data) =? 0).
    + destruct Hrun as (mid & closed' & -> & [I _] & _).
      pose proof (core_outputs _ _ _ _ _ _ I) as Houts.
      cbn [final]. clear I. destruct mid. cbn in *. by subst.
    + destruct Hrun as (mc & mr & closed' & pre & chunk & rest & -> & [I _] & _
                        & (_ & Hou & _) & _).
      pose proof (core_outputs _ _ _ _ _ _ I) as Houts.
      cbn [final]. clear I. destruct mr. cbn in *. rewrite Hou, Houts. done.
  - destruct (run_starts chunk_size a fs (c :: data) Hcs Hin Hidx ltac:(done))
      as (m0 & new & -> & I0 & Hob0 & Hne0 & Hsplit & _ & _ & _ & _ & _ & Hnames).
    apply (inv_at_start 1 (num_per_split a)) in I0; [|done].
    destruct (while_inbuf_completes chunk_size a fs Hn Hcs
                (S (length (infh_rest m0))) [] [] new m0 I0 Hob0)
      as (mid & olds & cur & Hloop & Imid & Hob & _); [done|right; lia|].
    destruct (while_inbuf_numbered chunk_size a fs Hn Hcs
                (S (length (infh_rest m0))) [] [] new m0 I0 Hob0)
      as (mid' & Hloop' & Hnames'); [done|right; lia|done|].
    rewrite Hloop in Hloop'. injection Hloop' as <-.
    rewrite Hloop. cbn [and_then].
    destruct (run_ends a fs _ _ _ _ _ Imid Hob) as (closed' & -> & _).
    cbn [final]. by destruct mid.
Qed.

Lemma split_files_numbered_in_order_witness :
  numbered_in_order (Sample.plain 1)
    (outputs (final (run 3 (Sample.plain 1)
                       (Sample.only Sample.two_records)))).
Proof.
  apply (split_files_numbered_in_order 3 (Sample.plain 1)
           (Sample.only Sample.two_records)).
  reflexivity.
Defined.

Example names_of_two_records :
  outputs (final (run 3 (Sample.plain 1) (Sample.only Sample.two_records)))
  = ["in_000001.csv"; "in_000002.csv"; "in_000003.csv"].
Proof. by vm_compute. Qed.

(** ** The progress output *)

(** Switching to the next split file prints one dot. *)
Lemma switch_file_prints `{OsPath} a m cur :
  outfh m = Some cur ->
  cur ∉ closed m ->
  exists m',
    switch_file a m = Ok m' /\
    stdout m' = stdout m +:+ "." /\
    length (outputs m') = S (length (outputs m)).
Proof.
  intros Hofh Hopen.
  destruct m as [rn ofn ofh ifh ib ob stk rest tell fl cl outs so].
  cbn in Hofh, Hopen. subst ofh.
  unfold switch_file, fh_write, fh_flush, fh_close, call_next_outfile.
  machine_simpl.
  rewrite bool_decide_eq_false_2 by done. cbn.
  rewrite bool_decide_eq_false_2 by done. cbn.
  destruct (next_outfile_creates (input_csv a) (output_dir a) (ofn + 1) 6
              (<[cur:=fl !!! cur ++ ob]> fl))
    as (k & new & Hnext & _).
  rewrite Hnext.
  eexists. split; [reflexivity|]. cbn. split; [done|].
  rewrite length_app. cbn. lia.
Qed.

Section Progress.

Context `{OsPath}.
Variable chunk_size : Z.
Variable a : args.
Variable fs : gmap string (list byte).
Hypothesis n_nonzero : num_per_split a <> 0.
Hypothesis chunk_positive : 0 < chunk_size.

Lemma process_byte_progress pre olds cur index c m :
  inv (num_per_split a) fs pre olds cur m ->
  stdout m = progress (length (outputs m) - 1) ->
  exists m',
    process_byte chunk_size a index c m = Ok m' /\
    stdout m' = progress (length (outputs m') - 1).
Proof.
  intros [I Hlt] Hso.
  destruct (scan_settled (state m) c (core_state _ _ _ _ _ _ I))
    as (s1 & s' & _ & _ & Hscan & _).
  rewrite (process_byte_unfold chunk_size a index c m s' _ Hscan). clear Hscan.
  pose proof (core_outfh _ _ _ _ _ _ I) as Hofh.
  pose proof (core_outputs _ _ _ _ _ _ I) as Houts.
  destruct (handles_open _ _ _ _ _ _ I) as (Ho & Hi & Hne).
  specialize (Ho cur Hofh).
  assert (Hsame : forall e, stdout (appended c s' e m)
                            = progress (length (outputs (appended c s' e m)) - 1))
    by (intros e; by destruct m).
  destruct (negb (open_quote (state m)) && Byte.eqb c LF).
  2:{ eexists. split; [reflexivity|]. apply Hsame. }
  destruct (Z.eqb_spec (num_per_split a) 0) as [?|_]; [done|].
  destruct (_ mod _ =? 0).
  2:{ eexists. split; [reflexivity|]. apply Hsame. }
  clear I Hlt Hsame.
  destruct m as [rn ofn ofh ifh ib ob stk rest tell fl cl outs so].
  cbn in Hofh, Ho, Hi, Hne, Houts, Hso. subst ofh.
  assert (Hlen : length outs = S (length olds)).
  { rewrite Houts, length_app. cbn. lia. }
  unfold appended, rotate. cbn.
  destruct ifh as [ip|].
  - specialize (Hi ip eq_refl). cbn.
    rewrite bool_decide_eq_false_2 by done. cbn [and_then].
    edestruct (switch_file_prints a) with (cur := cur) as (m' & Hsw & Hp & Hl);
      [| |rewrite Hsw].
    + reflexivity.
    + done.
    + exists m'. split; [done|]. cbn in Hp, Hl. rewrite Hp, Hl, Hso, Hlen.
      cbn. by rewrite Nat.sub_0_r.
  - cbn [and_then].
    edestruct (switch_file_prints a) with (cur := cur) as (m' & Hsw & Hp & Hl);
      [| |rewrite Hsw].
    + reflexivity.
    + done.
    + exists m'. split; [done|]. cbn in Hp, Hl. rewrite Hp, Hl, Hso, Hlen.
      cbn. by rewrite Nat.sub_0_r.
Qed.

Lemma for_each_byte_progress l :
  forall pre olds cur index m,
    inv (num_per_split a) fs pre olds cur m ->
    stdout m = progress (length (outputs m) - 1) ->
    exists m',
      for_each_byte chunk_size a index l m = Ok m' /\
      stdout m' = progress (length (outputs m') - 1).
Proof.
  induction l as [|c l IH]; intros pre olds cur index m I Hso.
  - by exists m.
  - cbn [for_each_byte].
    destruct (process_byte_inv chunk_size a fs n_nonzero pre olds cur index c m I)
      as (m1 & olds1 & cur1 & Hstep & I1 & _).
    destruct (process_byte_progress pre olds cur index c m I Hso)
      as (m1' & Hstep' & Hso1).
    rewrite Hstep in Hstep'. injection Hstep' as <-.
    rewrite Hstep. cbn [and_then].
    by apply (IH (pre ++ [c]) olds1 cur1).
Qed.

Lemma while_inbuf_progress fuel :
  forall pre olds cur m,
    inv (num_per_split a) fs pre olds cur m ->
    outbuf m = [] ->
    (inbuf m = [] -> infh_rest m = []) ->
    (inbuf m = [] \/ (length (infh_rest m) < fuel)%nat) ->
    stdout m = progress (length (outputs m) - 1) ->
    exists m',
      while_inbuf chunk_size fuel a m = Ok m' /\
      stdout m' = progress (length (outputs m') - 1).
Proof.
  induction fuel as [|fuel IH]; intros pre olds cur m I Hob Hdr Hfuel Hso.
  - destruct Hfuel as [Hnil|?]; [|lia]. cbn. rewrite Hnil. by exists m.
  - cbn [while_inbuf].
    destruct (inbuf m) as [|c chunk] eqn:Hin; [by exists m|].
    destruct (for_each_byte_inv chunk_size a fs n_nonzero (c :: chunk)
                pre olds cur 0 m I) as (m1 & olds1 & cur1 & Hfor & I1 & Hs1).
    destruct (for_each_byte_progress (c :: chunk) pre olds cur 0 m I Hso)
      as (m1' & Hfor' & Hso1).
    rewrite Hfor in Hfor'. injection Hfor' as <-.
    rewrite Hfor. cbn [and_then].
    destruct (flush_inv a fs _ _ _ _ I1) as (m2 & Hw & I2 & Hs2 & _).
    rewrite Hw. cbn [and_then].
    pose proof (fh_write_stdout _ _ _ _ Hw) as Hso2.
    apply (infh_read_inv chunk_size a) in I2.
    set (m3 := infh_read chunk_size (set_outbuf [] m2)) in *.
    assert (Hrest2 : infh_rest (set_outbuf [] m2) = infh_rest m).
    { destruct Hs1 as (_ & Hr1 & _), Hs2 as (_ & Hr2 & _).
      destruct m2. cbn in *. congruence. }
    assert (Hso3 : stdout m3 = stdout m1).
    { unfold m3. by destruct m2. }
    apply (IH (pre ++ c :: chunk) olds1 cur1 m3 I2).
    + unfold m3. by destruct m2.
    + apply (infh_read_drained chunk_size chunk_positive).
    + destruct (decide (inbuf m3 = [])) as [?|Hne]; [by left|right].
      apply (infh_read_shrinks chunk_size chunk_positive) in Hne.
      rewrite Hrest2 in Hne. fold m3 in Hne.
      destruct Hfuel as [?|?]; [done|lia].
    + destruct I1 as [I1 _], I2 as [I2 _].
      rewrite Hso3, Hso1, (core_outputs _ _ _ _ _ _ I2).
      by rewrite <- (core_outputs _ _ _ _ _ _ I1).
Qed.

End Progress.

(** X15.  A run that completes on a non-empty input prints the
    announcement of line 90, then one dot for every rotation, that is
    one fewer than the split files it created, then the summary with
    the number of line feeds outside quotes and the number of split
    files; nothing else is printed. *)
Theorem progress_output `{OsPath} (chunk_size : Z) (a : args)
    (fs : gmap string (list byte)) (data : list byte) :
  0 < chunk_size ->
  num_per_split a <> 0 ->
  fs !! input_csv a = Some data ->
  index_taken a fs = false ->
  data <> [] ->
  exists m',
    run chunk_size a fs = Ok m' /\
    stdout m'
    = progress (length (outputs m') - 1)
      +:+ summary (terminators false data) (Z.of_nat (length (outputs m'))).
Proof.
  intros Hcs Hn Hin Hidx Hne.
  destruct (run_starts chunk_size a fs data Hcs Hin Hidx Hne)
    as (m0 & new & -> & I0 & Hob0 & Hne0 & Hsplit & _ & _ & Hso0 & _).
  apply (inv_at_start 1 (num_per_split a)) in I0; [|done].
  destruct (while_inbuf_completes chunk_size a fs Hn Hcs
              (S (length (infh_rest m0))) [] [] new m0 I0 Hob0)
    as (mid & olds & cur & Hloop & Imid & Hob & _); [done|right; lia|].
  destruct (while_inbuf_progress chunk_size a fs Hn Hcs
              (S (length (infh_rest m0))) [] [] new m0 I0 Hob0)
    as (mid' & Hloop' & Hso); [done|right; lia| |].
  { destruct I0 as [I0 _]. by rewrite Hso0, (core_outputs _ _ _ _ _ _ I0). }
  rewrite Hloop in Hloop'. injection Hloop' as <-.
  rewrite Hloop. cbn [and_then].
  destruct (run_ends a fs _ _ _ _ _ Imid Hob) as (closed' & -> & _).
  eexists. split; [reflexivity|].
  rewrite Hsplit in Imid. cbn [app] in Imid. destruct Imid as [I _].
  pose proof (core_count _ _ _ _ _ _ I) as Hcnt.
  pose proof (core_filenum _ _ _ _ _ _ I) as Hnum.
  clear I. destruct mid. cbn in *. by subst.
Qed.

Lemma progress_output_witness :
  exists m',
    run 3 (Sample.plain 1) (Sample.only Sample.two_records) = Ok m' /\
    stdout m'
    = progress (length (outputs m') - 1)
      +:+ summary (terminators false Sample.two_records)
            (Z.of_nat (length (outputs m'))).
Proof.
  apply (progress_output 3 (Sample.plain 1)
           (Sample.only Sample.two_records) Sample.two_records);
    [reflexivity | discriminate | reflexivity | reflexivity | discriminate].
Defined.

Example progress_of_two_records :
  stdout (final (run 3 (Sample.plain 1) (Sample.only Sample.two_records)))
  = "Reading... .." +:+ NL +:+ "Processed 2 records into 3 files" +:+ NL.
Proof. by vm_compute. Qed.
